(** * text-rendering-engine: style validation and render pipeline

    A shallow embedding of [main.py]: the pydantic style models with
    their field constraints and colour validators, the colour codec
    [hex_to_rgba], the gradient synthesizer [create_gradient], the
    [render] pipeline and the command line [main], followed by the
    properties established about them.

    Conventions of the embedding.
    - A Python [int] is a [Z]; a Python [float] is an IEEE-754 binary64
      value, taken from the Standard Library's [SpecFloat] (precision 53,
      [emax] 1024, round to nearest even).
    - A Python [str] is a [string]; its characters are the code points
      below 256.
    - A Python exception is a constructor of [exn]; code that can raise
      returns a [result].
    - The imaging, font and text-shaping libraries are external: [render]
      is a program in a small monad that logs each external call with its
      arguments and asks an environment for the call's outcome. *)

From Stdlib Require Import ZArith List String Ascii Bool Lia QArith SpecFloat.
From Stdlib Require Import Qpower Lqa.
Import ListNotations.

Local Open Scope string_scope.
Local Open Scope list_scope.
Local Open Scope Z_scope.

(* ================================================================= *)
(** ** Exceptions and fallible results *)

Inductive exn : Type :=
| FileNotFoundError (msg : string)
| ValueError (msg : string)
| IndexError
| TypeError
| AttributeError
| OverflowError
| LibraryError (tag : string).

Inductive result (A : Type) : Type :=
| Ok (a : A)
| Raise (e : exn).

Arguments Ok {A} a.
Arguments Raise {A} e.

Definition rbind {A B : Type} (r : result A) (k : A -> result B) : result B :=
  match r with
  | Ok a => k a
  | Raise e => Raise e
  end.

Declare Scope result_scope.
Delimit Scope result_scope with result.
Notation "x <- c ;; k" := (rbind c (fun x => k))
  (at level 61, c at next level, right associativity) : result_scope.

(* ================================================================= *)
(** ** Binary64 floating point *)

Module F64.

Definition prec : Z := 53.
Definition emax : Z := 1024.

Definition float : Type := spec_float.

Definition add : float -> float -> float := SFadd prec emax.
Definition sub : float -> float -> float := SFsub prec emax.
Definition mul : float -> float -> float := SFmul prec emax.
Definition div : float -> float -> float := SFdiv prec emax.

(** [x <= y], [x < y] and [x == y] on floats; all false on NaN. *)
Definition leb : float -> float -> bool := SFleb.
Definition ltb : float -> float -> bool := SFltb.
Definition eqb : float -> float -> bool := SFeqb.

Definition valid : float -> bool := valid_binary prec emax.

Definition is_finite (x : float) : bool :=
  match x with
  | S754_zero _ | S754_finite _ _ _ => true
  | _ => false
  end.

(** [float(n)] for an [int]: the nearest binary64 value (exact when
    [|n| < 2^53]). *)
Definition of_Z (n : Z) : float := binary_normalize prec emax n 0 false.

(** Truncation toward zero of a finite value. *)
Definition trunc (x : float) : Z :=
  match x with
  | S754_finite s m e => cond_Zopp s (Z.shiftl (Zpos m) e)
  | _ => 0
  end.

(** [int(x)]: truncation toward zero; NaN and the infinities raise. *)
Definition to_int (x : float) : result Z :=
  match x with
  | S754_nan => Raise (ValueError "cannot convert float NaN to integer")
  | S754_infinity _ => Raise OverflowError
  | _ => Ok (trunc x)
  end.

(** Assignment of a float64 into a [uint8] array: the C conversion, which
    truncates toward zero; the low eight bits are kept. *)
Definition to_uint8 (x : float) : Z := Z.modulo (trunc x) 256.

(** The exact value of a finite float, as a rational. *)
Definition to_Q (x : float) : Q :=
  match x with
  | S754_finite s m e =>
      let v := match e with
               | Zneg k => Qmake (Zpos m) (2 ^ k)
               | _ => inject_Z (Z.shiftl (Zpos m) e)
               end in
      if s then Qopp v else v
  | _ => 0%Q
  end.

Definition zero : float := S754_zero false.
Definition one : float := Eval vm_compute in of_Z 1.
Definition half : float := Eval vm_compute in div (of_Z 1) (of_Z 2).

End F64.

Abbreviation float := F64.float.

(* ================================================================= *)
(** ** Strings *)

Definition newline : ascii := "010"%char.

(** [s.lstrip(c)] for a one-character set. *)
Fixpoint lstrip (c : ascii) (s : string) : string :=
  match s with
  | String a s' => if Ascii.eqb a c then lstrip c s' else s
  | EmptyString => s
  end.

(** The slice [s[i:j]] is [substring i (j - i) s]: like a Python slice it
    is cut short at the end of the string. *)

Definition in_range (lo hi c : ascii) : bool :=
  (N_of_ascii lo <=? N_of_ascii c)%N && (N_of_ascii c <=? N_of_ascii hi)%N.

Definition hex_digit_value (c : ascii) : option Z :=
  if in_range "0" "9" c then Some (Z.of_N (N_of_ascii c) - 48)
  else if in_range "a" "f" c then Some (Z.of_N (N_of_ascii c) - 87)
  else if in_range "A" "F" c then Some (Z.of_N (N_of_ascii c) - 55)
  else None.

(** The blanks [int] skips around a number: the ASCII ones (tab to
    carriage return, and the space) and the two code points below 256
    that it reads as a space, U+0085 and U+00A0. *)
Definition is_blank (c : ascii) : bool :=
  in_range "009" "013" c || Ascii.eqb c " " || Ascii.eqb c "133"
  || Ascii.eqb c "160".

Fixpoint skip_blanks (s : string) : string :=
  match s with
  | String c s' => if is_blank c then skip_blanks s' else s
  | EmptyString => s
  end.

(** An optional sign: whether it is a minus, and what follows it. *)
Definition read_sign (s : string) : bool * string :=
  match s with
  | String c s' =>
      if Ascii.eqb c "-" then (true, s')
      else if Ascii.eqb c "+" then (false, s')
      else (false, s)
  | EmptyString => (false, s)
  end.

(** An optional prefix [0x] or [0X], after which one underscore may
    stand. *)
Definition skip_prefix (s : string) : string :=
  match s with
  | String c0 (String c1 s') =>
      if Ascii.eqb c0 "0" && (Ascii.eqb c1 "x" || Ascii.eqb c1 "X")
      then match s' with
           | String c2 s'' => if Ascii.eqb c2 "_" then s'' else s'
           | EmptyString => s'
           end
      else s
  | _ => s
  end.

(** The digits, with single underscores between them: the value read,
    whether a digit was read, and what is left.  Two underscores in a
    row, or one that no digit follows, are refused. *)
Fixpoint int16_digits (acc : Z) (any after_underscore : bool) (s : string)
  : option (Z * bool * string) :=
  match s with
  | String c s' =>
      if Ascii.eqb c "_" then
        if after_underscore then None else int16_digits acc any true s'
      else
        match hex_digit_value c with
        | Some d => int16_digits (16 * acc + d) true false s'
        | None => if after_underscore then None else Some (acc, any, s)
        end
  | EmptyString => if after_underscore then None else Some (acc, any, s)
  end.

(** Whether [s] begins with the character [c]. *)
Definition starts_with (c : ascii) (s : string) : bool :=
  match s with
  | String a _ => Ascii.eqb a c
  | EmptyString => false
  end.

(** The lower-case hexadecimal digit of a number below 16. *)
Definition hex_digit_of (n : N) : ascii :=
  if (n <? 10)%N then ascii_of_N (48 + n) else ascii_of_N (87 + n).

(** [c in s] *)
Definition contains (c : ascii) (s : string) : bool :=
  existsb (Ascii.eqb c) (list_ascii_of_string s).

(** The backslash, the single quote and the double quote. *)
Definition backslash : ascii := "092"%char.
Definition quote1 : ascii := "039"%char.
Definition quote2 : ascii := "034"%char.

(** One character of [repr(s)], inside the quotes [q]: the quote and
    the backslash are escaped, the characters that are not printable
    (below 32, from 127 to 160, and 173) are written [\t], [\n], [\r] or
    [\xNN]. *)
Definition repr_char (q c : ascii) : string :=
  let n := N_of_ascii c in
  if Ascii.eqb c q || Ascii.eqb c backslash then String backslash (String c "")
  else if Ascii.eqb c "009" then String backslash "t"
  else if Ascii.eqb c "010" then String backslash "n"
  else if Ascii.eqb c "013" then String backslash "r"
  else if (n <? 32)%N || (127 <=? n)%N && (n <=? 160)%N || (n =? 173)%N
  then String backslash
         (String "x" (String (hex_digit_of (n / 16)) (String (hex_digit_of (n mod 16)) "")))
  else String c "".

Fixpoint repr_chars (q : ascii) (s : string) : string :=
  match s with
  | String c s' => repr_char q c ++ repr_chars q s'
  | EmptyString => ""
  end.

(** [repr(s)] of a string: in single quotes, unless it holds a single
    quote and no double quote. *)
Definition repr (s : string) : string :=
  let q := if contains quote1 s && negb (contains quote2 s)
           then quote2 else quote1 in
  String q (repr_chars q s ++ String q "").

(** The text of the [ValueError] of [int(s, 16)]; the literal is cut
    after 200 characters. *)
Definition invalid_literal (s : string) : string :=
  "invalid literal for int() with base 16: " ++ substring 0 200 (repr s).

(** [int(s, 16)] for a string: blanks around the number are skipped, a
    sign and a prefix [0x] may come first, and single underscores may
    separate the digits; anything else raises [ValueError]. *)
Definition int16 (s : string) : result Z :=
  let invalid := Raise (ValueError (invalid_literal s)) in
  let '(negative, number) := read_sign (skip_blanks s) in
  let body := skip_prefix number in
  if starts_with "_" body then invalid
  else
    match int16_digits 0 false false body with
    | Some (n, true, rest) =>
        match skip_blanks rest with
        | EmptyString => Ok (if negative then - n else n)
        | _ => invalid
        end
    | _ => invalid
    end.

(** Indexing [l[i]] of a list with a non-negative index. *)
Definition index {A : Type} (l : list A) (i : nat) : result A :=
  match nth_error l i with
  | Some a => Ok a
  | None => Raise IndexError
  end.

(* ================================================================= *)
(** ** Regular expressions, as far as [HEX_COLOR_REGEX] needs them *)

Module Re.

Inductive regex : Type :=
| Bol                                       (* ^ *)
| Eol                                       (* $ *)
| Lit (c : ascii)                           (* a literal character *)
| Class (ranges : list (ascii * ascii))     (* [a-bc-d...] *)
| Rep (n : nat) (r : regex)                 (* r{n} *)
| Cat (r1 r2 : regex)                       (* r1 r2 *)
| Grp (r : regex).                          (* ( r ) *)

(** A position in the subject: whether it is the start of the string,
    and what is left to read. *)
Definition pos : Type := (bool * string)%type.

Definition in_class (ranges : list (ascii * ascii)) (c : ascii) : bool :=
  existsb (fun r => in_range (fst r) (snd r) c) ranges.

(** Without flags, [^] holds at the start of the string only and [$]
    holds at the end of the string and just before a newline that ends
    the string. *)
Fixpoint run (r : regex) (p : pos) : option pos :=
  match r with
  | Bol => if fst p then Some p else None
  | Eol =>
      match snd p with
      | EmptyString => Some p
      | String c EmptyString => if Ascii.eqb c newline then Some p else None
      | _ => None
      end
  | Lit c =>
      match snd p with
      | String a s' => if Ascii.eqb a c then Some (false, s') else None
      | EmptyString => None
      end
  | Class ranges =>
      match snd p with
      | String a s' => if in_class ranges a then Some (false, s') else None
      | EmptyString => None
      end
  | Rep n r0 =>
      (fix loop (k : nat) (q : pos) : option pos :=
         match k with
         | O => Some q
         | S k' => match run r0 q with
                   | Some q' => loop k' q'
                   | None => None
                   end
         end) n p
  | Cat r1 r2 =>
      match run r1 p with
      | Some q => run r2 q
      | None => None
      end
  | Grp r0 => run r0 p
  end.

(** [re.match(r, s)] as a truth value: the pattern is tried at the start
    of [s]; it need not reach the end unless the pattern says so. *)
Definition re_match (r : regex) (s : string) : bool :=
  match run r (true, s) with
  | Some _ => true
  | None => false
  end.

End Re.

(** [HEX_COLOR_REGEX = r"^#([A-Fa-f0-9]{6})$"] *)
Definition HEX_COLOR_REGEX : Re.regex :=
  Re.Cat Re.Bol
    (Re.Cat (Re.Lit "#")
       (Re.Cat (Re.Grp (Re.Rep 6 (Re.Class [("A", "F"); ("a", "f"); ("0", "9")]%char)))
          Re.Eol)).

(* ================================================================= *)
(** ** Validation models *)

(** What a failed field reports.  A [ValueError] raised by a field
    validator becomes a [value_error]; a [Field] bound that does not hold
    becomes the error named after the bound; a string outside a
    [Literal] becomes a [literal_error]. *)
Inductive error_type : Type :=
| value_error (msg : string)
| literal_error
| greater_than (b : Z)
| greater_than_equal (b : Z)
| less_than_equal (b : Z).

Record error_details : Type := { loc : list string; err : error_type }.

(** The bounds a [Field(...)] can carry. *)
Inductive bound : Type :=
| gt (b : Z)
| ge (b : Z)
| le (b : Z).

Definition check_int (c : bound) (v : Z) : option error_type :=
  match c with
  | gt b => if b <? v then None else Some (greater_than b)
  | ge b => if b <=? v then None else Some (greater_than_equal b)
  | le b => if v <=? b then None else Some (less_than_equal b)
  end.

Definition check_float (c : bound) (v : float) : option error_type :=
  match c with
  | gt b => if F64.ltb (F64.of_Z b) v then None else Some (greater_than b)
  | ge b => if F64.leb (F64.of_Z b) v then None else Some (greater_than_equal b)
  | le b => if F64.leb v (F64.of_Z b) then None else Some (less_than_equal b)
  end.

(** The first bound of a list that does not hold. *)
Fixpoint first_failure {V : Type} (check : bound -> V -> option error_type)
  (cs : list bound) (v : V) : list error_type :=
  match cs with
  | [] => []
  | c :: cs' => match check c v with
                | Some e => [e]
                | None => first_failure check cs' v
                end
  end.

Definition is_le (c : bound) : bool :=
  match c with le _ => true | _ => false end.

Definition is_ge (c : bound) : bool :=
  match c with ge _ => true | _ => false end.

Definition is_gt (c : bound) : bool :=
  match c with gt _ => true | _ => false end.

(** A field stops at its first failing bound.  The library tests the
    bounds in an order of its own, whatever the order in the declaration:
    [le] first, then [ge], then [gt]. *)
Definition Field {V : Type} (check : bound -> V -> option error_type)
  (cs : list bound) (v : V) : list error_type :=
  first_failure check (filter is_le cs ++ filter is_ge cs ++ filter is_gt cs) v.

Definition Literal (allowed : list string) (v : string) : list error_type :=
  if existsb (String.eqb v) allowed then [] else [literal_error].

Definition optional {V : Type} (check : V -> list error_type) (v : option V)
  : list error_type :=
  match v with
  | Some x => check x
  | None => []
  end.

(** The outcome of a field validator: a [ValueError] is reported as an
    error of the field (the validators of this program raise nothing
    else). *)
Definition raised (r : result unit) : list error_type :=
  match r with
  | Ok _ => []
  | Raise (ValueError msg) => [value_error msg]
  | Raise _ => []
  end.

Definition at_field (name : string) (es : list error_type) : list error_details :=
  map (fun e => {| loc := [name]; err := e |}) es.

Definition nested (name : string) (es : list error_details) : list error_details :=
  map (fun d => {| loc := name :: loc d; err := err d |}) es.

Module FillModel.

Record t : Type := {
  type : string;
  color : option string;
  colors : option (list string);
  direction : option string
}.

Definition validate_color (v : option string) : result unit :=
  match v with
  | Some s =>
      if negb (String.eqb s "") && negb (Re.re_match HEX_COLOR_REGEX s)
      then Raise (ValueError "Color must be valid HEX like #ff00aa")
      else Ok tt
  | None => Ok tt
  end.

Fixpoint validate_colors_loop (v : list string) : result unit :=
  match v with
  | [] => Ok tt
  | color :: v' =>
      if negb (Re.re_match HEX_COLOR_REGEX color)
      then Raise (ValueError ("Invalid gradient color: " ++ color)%string)
      else validate_colors_loop v'
  end.

Definition validate_colors (v : option (list string)) : result unit :=
  match v with
  | Some [] => Ok tt
  | Some l => validate_colors_loop l
  | None => Ok tt
  end.

Definition validate (m : t) : list error_details :=
  at_field "type" (Literal ["solid"; "gradient"] (type m))
  ++ at_field "color" (raised (validate_color (color m)))
  ++ at_field "colors" (raised (validate_colors (colors m)))
  ++ at_field "direction" (optional (Literal ["vertical"; "horizontal"]) (direction m)).

End FillModel.

Module StrokeModel.

Record t : Type := {
  enabled : bool;
  width : Z;
  color : string
}.

Definition validate_color (v : string) : result unit :=
  if negb (Re.re_match HEX_COLOR_REGEX v)
  then Raise (ValueError "Stroke color must be HEX like #000000")
  else Ok tt.

Definition validate (m : t) : list error_details :=
  at_field "width" (Field check_int [ge 0; le 100] (width m))
  ++ at_field "color" (raised (validate_color (color m))).

End StrokeModel.

Module ShadowModel.

Record t : Type := {
  enabled : bool;
  offset : list Z;
  blur : Z;
  color : string;
  opacity : float
}.

Definition validate_color (v : string) : result unit :=
  if negb (Re.re_match HEX_COLOR_REGEX v)
  then Raise (ValueError "Shadow color must be HEX like #000000")
  else Ok tt.

Definition validate (m : t) : list error_details :=
  at_field "blur" (Field check_int [ge 0; le 200] (blur m))
  ++ at_field "color" (raised (validate_color (color m)))
  ++ at_field "opacity" (Field check_float [ge 0; le 1] (opacity m)).

End ShadowModel.

Module StyleModel.

Record t : Type := {
  font_path : string;
  font_size : Z;
  center : list Z;
  fill : FillModel.t;
  stroke : StrokeModel.t;
  shadow : ShadowModel.t;
  outer_glow : ShadowModel.t;
  inner_shadow : ShadowModel.t;
  letter_spacing : Z;
  line_height : float;
  rotation : float;
  opacity : float
}.

Definition validate (m : t) : list error_details :=
  at_field "font_size" (Field check_int [gt 0; le 500] (font_size m))
  ++ nested "fill" (FillModel.validate (fill m))
  ++ nested "stroke" (StrokeModel.validate (stroke m))
  ++ nested "shadow" (ShadowModel.validate (shadow m))
  ++ nested "outer_glow" (ShadowModel.validate (outer_glow m))
  ++ nested "inner_shadow" (ShadowModel.validate (inner_shadow m))
  ++ at_field "letter_spacing" (Field check_int [ge 0; le 100] (letter_spacing m))
  ++ at_field "line_height" (Field check_float [gt 0; le 5] (line_height m))
  ++ at_field "rotation" (Field check_float [ge (-360); le 360] (rotation m))
  ++ at_field "opacity" (Field check_float [ge 0; le 1] (opacity m)).

(** Constructing a [StyleModel] from the style data returns the model
    when no field reports an error and raises [ValidationError] with all
    the reported errors otherwise. *)
Definition accepts (m : t) : bool :=
  match validate m with
  | [] => true
  | _ => false
  end.

End StyleModel.

(* ================================================================= *)
(** ** Colour codec *)

Definition rgba : Type := (Z * Z * Z * Z)%type.

(** [hex_to_rgba(hex_color, opacity)]; the default [opacity=1.0] is
    written out as [F64.one] at the calls that leave it out. *)
Definition hex_to_rgba (hex_color : string) (opacity : float) : result rgba :=
  let hex_color := lstrip "#" hex_color in
  (r <- int16 (substring 0 2 hex_color) ;;
   g <- int16 (substring 2 2 hex_color) ;;
   b <- int16 (substring 4 2 hex_color) ;;
   a <- F64.to_int (F64.mul (F64.of_Z 255) opacity) ;;
   Ok (r, g, b, a))%result.

(* ================================================================= *)
(** ** Gradient synthesizer *)

(** A [height x width x 4] array of [uint8]: a list of rows of pixels. *)
Definition raster : Type := list (list rgba).

Definition zeros (height width : nat) : raster :=
  repeat (repeat (0, 0, 0, 0) width) height.

Fixpoint update {A : Type} (i : nat) (f : A -> A) (l : list A) : list A :=
  match l, i with
  | [], _ => []
  | a :: l', O => f a :: l'
  | a :: l', S i' => a :: update i' f l'
  end.

(** [gradient[i, :] = color] *)
Definition set_row (i : nat) (color : rgba) (gradient : raster) : raster :=
  update i (map (fun _ => color)) gradient.

(** [gradient[:, i] = color] *)
Definition set_column (i : nat) (color : rgba) (gradient : raster) : raster :=
  map (update i (fun _ => color)) gradient.

(** One channel of [(1 - ratio) * c1 + ratio * c2], in float64. *)
Definition blend (ratio : float) (c1 c2 : Z) : float :=
  F64.add (F64.mul (F64.sub (F64.of_Z 1) ratio) (F64.of_Z c1))
          (F64.mul ratio (F64.of_Z c2)).

(** The four channels, as stored into the [uint8] array. *)
Definition blend_pixel (ratio : float) (c1 c2 : rgba) : rgba :=
  let '(r1, g1, b1, a1) := c1 in
  let '(r2, g2, b2, a2) := c2 in
  (F64.to_uint8 (blend ratio r1 r2), F64.to_uint8 (blend ratio g1 g2),
   F64.to_uint8 (blend ratio b1 b2), F64.to_uint8 (blend ratio a1 a2)).

(** [i / n] for two [int]s: both are converted to float64 and divided,
    which is Python's true division for integers below [2^53].  The loop
    never divides by zero. *)
Definition ratio_of (i n : nat) : float :=
  F64.div (F64.of_Z (Z.of_nat i)) (F64.of_Z (Z.of_nat n)).

Definition is_vertical (direction : option string) : bool :=
  match direction with
  | Some d => String.eqb d "vertical"
  | None => false
  end.

(** [create_gradient(size, colors, direction)].  The array becomes the
    image as it is ([Image.fromarray]).  A direction other than
    "vertical" runs the loop over the columns. *)
Definition create_gradient (size : nat * nat) (colors : option (list string))
  (direction : option string) : result raster :=
  let '(width, height) := size in
  let gradient := zeros height width in
  (cs <- match colors with Some l => Ok l | None => Raise TypeError end ;;
   s1 <- index cs 0 ;;
   c1 <- hex_to_rgba s1 F64.one ;;
   s2 <- index cs 1 ;;
   c2 <- hex_to_rgba s2 F64.one ;;
   let n := if is_vertical direction then height else width in
   Ok (fold_left
         (fun gradient i =>
            let ratio := ratio_of i n in
            let color := blend_pixel ratio c1 c2 in
            if is_vertical direction
            then set_row i color gradient
            else set_column i color gradient)
         (seq 0 n) gradient))%result.

(* ================================================================= *)
(** ** Render engine *)

(** The images [render] draws on besides the base image. *)
Inductive surface : Type := TextLayer | MaskLayer.

(** A [fill] argument: a colour tuple or a single luminance. *)
Inductive ink : Type :=
| Color (c : rgba)
| Lum (v : Z).

(** The calls [render] makes into the libraries, with their arguments:
    - [PathExists p]: [Path(p).exists()];
    - [ImageOpen p mode]: [Image.open(p).convert(mode)];
    - [ImageNew mode size color]: [Image.new(mode, size, color)];
    - [Draw im]: [ImageDraw.Draw(im)];
    - [Truetype p size]: [ImageFont.truetype(p, size)];
    - [ArabicReshape t] and [GetDisplay t]: the two steps of
      [reshape_text];
    - [Textbbox xy t]: [draw.textbbox(xy, t, font=font)];
    - [Text im xy t fill stroke_width stroke_fill]: the [text] method of
      the drawing context of [im], with the library's defaults
      [stroke_width=0] and [stroke_fill=None] when the source leaves
      them out;
    - [Paste g box]: [text_layer.paste(g, box, mask)];
    - [AlphaComposite]: [image.alpha_composite(text_layer)];
    - [Rotate angle]: [image.rotate(angle, expand=True)];
    - [Save p]: [image.save(p)];
    - [Print args]: [print] of the arguments. *)
Inductive call : Type :=
| PathExists (path : string)
| ImageOpen (path : string) (mode : string)
| ImageNew (mode : string) (size : nat * nat) (color : ink)
| Draw (im : surface)
| Truetype (path : string) (size : Z)
| ArabicReshape (text : string)
| GetDisplay (text : string)
| Textbbox (xy : Z * Z) (text : string)
| Text (im : surface) (xy : Z * Z) (text : string) (fill : option ink)
       (stroke_width : Z) (stroke_fill : option rgba)
| Paste (im : raster) (box : Z * Z)
| AlphaComposite
| Rotate (angle : float)
| Save (path : string)
| Print (args : list string).

(** What the outside world answers: whether a path exists, the size of
    the decoded base image, the shaped text, the measured box (for a font
    file, a font size and a text), and for every call the exception it
    raises, if any. *)
Record env : Type := {
  path_exists : string -> bool;
  image_size : string -> nat * nat;
  reshape : string -> string;
  get_display : string -> string;
  textbbox : string -> Z -> string -> Z * Z * Z * Z;
  raises : call -> option exn
}.

(** Programs that log their calls and may raise. *)
Definition M (A : Type) : Type := list call -> result A * list call.

Definition ret {A : Type} (a : A) : M A := fun log => (Ok a, log).

Definition bind {A B : Type} (m : M A) (k : A -> M B) : M B :=
  fun log =>
    match m log with
    | (Ok a, log') => k a log'
    | (Raise e, log') => (Raise e, log')
    end.

Definition lift {A : Type} (r : result A) : M A := fun log => (r, log).

Declare Scope render_scope.
Delimit Scope render_scope with render.
Notation "x <- c ;; k" := (bind c (fun x => k))
  (at level 61, c at next level, right associativity) : render_scope.
Notation "c ;; k" := (bind c (fun _ => k))
  (at level 61, right associativity) : render_scope.

Section Render.

Variable world : env.

(** Issue a call: it is logged, and it returns [answer] unless the world
    makes it raise. *)
Definition perform {A : Type} (c : call) (answer : A) : M A :=
  fun log =>
    match raises world c with
    | Some e => (Raise e, log ++ [c])
    | None => (Ok answer, log ++ [c])
    end.

(** [reshape_text(text)]: [get_display(arabic_reshaper.reshape(text))]. *)
Definition reshape_text (text : string) : M string :=
  (reshaped <- perform (ArabicReshape text) (reshape world text) ;;
   perform (GetDisplay reshaped) (get_display world reshaped))%render.

(** The block of [render] under the comment [# Fill].  A fill colour
    that is [None] makes [hex_to_rgba] raise [AttributeError] (it has no
    [lstrip]); colours that are [None] make [create_gradient] raise
    [TypeError]. *)
Definition fill_pass (style : StyleModel.t) (size : nat * nat) (xy : Z * Z)
  (text : string) : M unit :=
  let fill := StyleModel.fill style in
  if String.eqb (FillModel.type fill) "solid" then
    (color <- lift (match FillModel.color fill with
                    | Some c => hex_to_rgba c (StyleModel.opacity style)
                    | None => Raise AttributeError
                    end) ;;
     perform (Text TextLayer xy text (Some (Color color)) 0 None) tt)%render
  else
    (perform (ImageNew "L" size (Lum 0)) tt ;;
     perform (Draw MaskLayer) tt ;;
     perform (Text MaskLayer xy text (Some (Lum 255)) 0 None) tt ;;
     gradient <- lift (create_gradient size (FillModel.colors fill)
                         (FillModel.direction fill)) ;;
     perform (Paste gradient (0, 0)) tt)%render.

(** The block of [render] under the comment [# Stroke]. *)
Definition stroke_pass (style : StyleModel.t) (xy : Z * Z) (text : string)
  : M unit :=
  let stroke := StyleModel.stroke style in
  if StrokeModel.enabled stroke then
    (color <- lift (hex_to_rgba (StrokeModel.color stroke) F64.one) ;;
     perform (Text TextLayer xy text None (StrokeModel.width stroke)
                (Some color)) tt)%render
  else ret tt.

Definition render (image_path output_path text : string)
  (style : StyleModel.t) : M unit :=
  (found <- perform (PathExists (StyleModel.font_path style))
              (path_exists world (StyleModel.font_path style)) ;;
   if negb found then lift (Raise (FileNotFoundError "Font file not found"))
   else
     size <- perform (ImageOpen image_path "RGBA") (image_size world image_path) ;;
     perform (ImageNew "RGBA" size (Color (0, 0, 0, 0))) tt ;;
     perform (Draw TextLayer) tt ;;
     perform (Truetype (StyleModel.font_path style) (StyleModel.font_size style)) tt ;;
     text <- reshape_text text ;;
     bbox <- perform (Textbbox (0, 0) text)
               (textbbox world (StyleModel.font_path style)
                  (StyleModel.font_size style) text) ;;
     let '(b0, b1, b2, b3) := bbox in
     let w := b2 - b0 in
     let h := b3 - b1 in
     c0 <- lift (index (StyleModel.center style) 0) ;;
     let x := c0 - w / 2 in
     c1 <- lift (index (StyleModel.center style) 1) ;;
     let y := c1 - h / 2 in
     fill_pass style size (x, y) text ;;
     stroke_pass style (x, y) text ;;
     perform AlphaComposite tt ;;
     (if negb (F64.eqb (StyleModel.rotation style) F64.zero)
      then perform (Rotate (StyleModel.rotation style)) tt
      else ret tt) ;;
     perform (Save output_path) tt ;;
     perform (Print ["Rendered successfully →"; output_path]) tt)%render.

End Render.

(* ================================================================= *)
(** ** Vocabulary for the properties *)

Definition is_hex_digit (c : ascii) : bool :=
  in_range "0" "9" c || in_range "a" "f" c || in_range "A" "F" c.

(** The pattern [#RRGGBB] read as the specification words it: a hash
    sign followed by exactly six hexadecimal digits and nothing else. *)
Definition is_hex_color (s : string) : bool :=
  match s with
  | String h (String d1 (String d2 (String d3 (String d4 (String d5
      (String d6 EmptyString)))))) =>
      Ascii.eqb h "#" && forallb is_hex_digit [d1; d2; d3; d4; d5; d6]
  | _ => false
  end.

(** What [re.match(HEX_COLOR_REGEX, s)] accepts. *)
Definition matches_hex (s : string) : bool := Re.re_match HEX_COLOR_REGEX s.

(** The byte written by two hexadecimal digits. *)
Definition hex_byte (hi lo : ascii) : Z :=
  match hex_digit_value hi, hex_digit_value lo with
  | Some h, Some l => 16 * h + l
  | _, _ => 0
  end.

Module Update.

Definition font_size (v : Z) (m : StyleModel.t) : StyleModel.t :=
  {| StyleModel.font_path := StyleModel.font_path m;
     StyleModel.font_size := v;
     StyleModel.center := StyleModel.center m;
     StyleModel.fill := StyleModel.fill m;
     StyleModel.stroke := StyleModel.stroke m;
     StyleModel.shadow := StyleModel.shadow m;
     StyleModel.outer_glow := StyleModel.outer_glow m;
     StyleModel.inner_shadow := StyleModel.inner_shadow m;
     StyleModel.letter_spacing := StyleModel.letter_spacing m;
     StyleModel.line_height := StyleModel.line_height m;
     StyleModel.rotation := StyleModel.rotation m;
     StyleModel.opacity := StyleModel.opacity m |}.

Definition center (v : list Z) (m : StyleModel.t) : StyleModel.t :=
  {| StyleModel.font_path := StyleModel.font_path m;
     StyleModel.font_size := StyleModel.font_size m;
     StyleModel.center := v;
     StyleModel.fill := StyleModel.fill m;
     StyleModel.stroke := StyleModel.stroke m;
     StyleModel.shadow := StyleModel.shadow m;
     StyleModel.outer_glow := StyleModel.outer_glow m;
     StyleModel.inner_shadow := StyleModel.inner_shadow m;
     StyleModel.letter_spacing := StyleModel.letter_spacing m;
     StyleModel.line_height := StyleModel.line_height m;
     StyleModel.rotation := StyleModel.rotation m;
     StyleModel.opacity := StyleModel.opacity m |}.

Definition fill (v : FillModel.t) (m : StyleModel.t) : StyleModel.t :=
  {| StyleModel.font_path := StyleModel.font_path m;
     StyleModel.font_size := StyleModel.font_size m;
     StyleModel.center := StyleModel.center m;
     StyleModel.fill := v;
     StyleModel.stroke := StyleModel.stroke m;
     StyleModel.shadow := StyleModel.shadow m;
     StyleModel.outer_glow := StyleModel.outer_glow m;
     StyleModel.inner_shadow := StyleModel.inner_shadow m;
     StyleModel.letter_spacing := StyleModel.letter_spacing m;
     StyleModel.line_height := StyleModel.line_height m;
     StyleModel.rotation := StyleModel.rotation m;
     StyleModel.opacity := StyleModel.opacity m |}.

Definition stroke (v : StrokeModel.t) (m : StyleModel.t) : StyleModel.t :=
  {| StyleModel.font_path := StyleModel.font_path m;
     StyleModel.font_size := StyleModel.font_size m;
     StyleModel.center := StyleModel.center m;
     StyleModel.fill := StyleModel.fill m;
     StyleModel.stroke := v;
     StyleModel.shadow := StyleModel.shadow m;
     StyleModel.outer_glow := StyleModel.outer_glow m;
     StyleModel.inner_shadow := StyleModel.inner_shadow m;
     StyleModel.letter_spacing := StyleModel.letter_spacing m;
     StyleModel.line_height := StyleModel.line_height m;
     StyleModel.rotation := StyleModel.rotation m;
     StyleModel.opacity := StyleModel.opacity m |}.

Definition shadow (v : ShadowModel.t) (m : StyleModel.t) : StyleModel.t :=
  {| StyleModel.font_path := StyleModel.font_path m;
     StyleModel.font_size := StyleModel.font_size m;
     StyleModel.center := StyleModel.center m;
     StyleModel.fill := StyleModel.fill m;
     StyleModel.stroke := StyleModel.stroke m;
     StyleModel.shadow := v;
     StyleModel.outer_glow := StyleModel.outer_glow m;
     StyleModel.inner_shadow := StyleModel.inner_shadow m;
     StyleModel.letter_spacing := StyleModel.letter_spacing m;
     StyleModel.line_height := StyleModel.line_height m;
     StyleModel.rotation := StyleModel.rotation m;
     StyleModel.opacity := StyleModel.opacity m |}.

Definition outer_glow (v : ShadowModel.t) (m : StyleModel.t) : StyleModel.t :=
  {| StyleModel.font_path := StyleModel.font_path m;
     StyleModel.font_size := StyleModel.font_size m;
     StyleModel.center := StyleModel.center m;
     StyleModel.fill := StyleModel.fill m;
     StyleModel.stroke := StyleModel.stroke m;
     StyleModel.shadow := StyleModel.shadow m;
     StyleModel.outer_glow := v;
     StyleModel.inner_shadow := StyleModel.inner_shadow m;
     StyleModel.letter_spacing := StyleModel.letter_spacing m;
     StyleModel.line_height := StyleModel.line_height m;
     StyleModel.rotation := StyleModel.rotation m;
     StyleModel.opacity := StyleModel.opacity m |}.

Definition inner_shadow (v : ShadowModel.t) (m : StyleModel.t) : StyleModel.t :=
  {| StyleModel.font_path := StyleModel.font_path m;
     StyleModel.font_size := StyleModel.font_size m;
     StyleModel.center := StyleModel.center m;
     StyleModel.fill := StyleModel.fill m;
     StyleModel.stroke := StyleModel.stroke m;
     StyleModel.shadow := StyleModel.shadow m;
     StyleModel.outer_glow := StyleModel.outer_glow m;
     StyleModel.inner_shadow := v;
     StyleModel.letter_spacing := StyleModel.letter_spacing m;
     StyleModel.line_height := StyleModel.line_height m;
     StyleModel.rotation := StyleModel.rotation m;
     StyleModel.opacity := StyleModel.opacity m |}.

Definition line_height (v : float) (m : StyleModel.t) : StyleModel.t :=
  {| StyleModel.font_path := StyleModel.font_path m;
     StyleModel.font_size := StyleModel.font_size m;
     StyleModel.center := StyleModel.center m;
     StyleModel.fill := StyleModel.fill m;
     StyleModel.stroke := StyleModel.stroke m;
     StyleModel.shadow := StyleModel.shadow m;
     StyleModel.outer_glow := StyleModel.outer_glow m;
     StyleModel.inner_shadow := StyleModel.inner_shadow m;
     StyleModel.letter_spacing := StyleModel.letter_spacing m;
     StyleModel.line_height := v;
     StyleModel.rotation := StyleModel.rotation m;
     StyleModel.opacity := StyleModel.opacity m |}.

Definition rotation (v : float) (m : StyleModel.t) : StyleModel.t :=
  {| StyleModel.font_path := StyleModel.font_path m;
     StyleModel.font_size := StyleModel.font_size m;
     StyleModel.center := StyleModel.center m;
     StyleModel.fill := StyleModel.fill m;
     StyleModel.stroke := StyleModel.stroke m;
     StyleModel.shadow := StyleModel.shadow m;
     StyleModel.outer_glow := StyleModel.outer_glow m;
     StyleModel.inner_shadow := StyleModel.inner_shadow m;
     StyleModel.letter_spacing := StyleModel.letter_spacing m;
     StyleModel.line_height := StyleModel.line_height m;
     StyleModel.rotation := v;
     StyleModel.opacity := StyleModel.opacity m |}.

Definition opacity (v : float) (m : StyleModel.t) : StyleModel.t :=
  {| StyleModel.font_path := StyleModel.font_path m;
     StyleModel.font_size := StyleModel.font_size m;
     StyleModel.center := StyleModel.center m;
     StyleModel.fill := StyleModel.fill m;
     StyleModel.stroke := StyleModel.stroke m;
     StyleModel.shadow := StyleModel.shadow m;
     StyleModel.outer_glow := StyleModel.outer_glow m;
     StyleModel.inner_shadow := StyleModel.inner_shadow m;
     StyleModel.letter_spacing := StyleModel.letter_spacing m;
     StyleModel.line_height := StyleModel.line_height m;
     StyleModel.rotation := StyleModel.rotation m;
     StyleModel.opacity := v |}.

Definition fill_color (v : option string) (f : FillModel.t) : FillModel.t :=
  {| FillModel.type := FillModel.type f;
     FillModel.color := v;
     FillModel.colors := FillModel.colors f;
     FillModel.direction := FillModel.direction f |}.

Definition fill_colors (v : option (list string)) (f : FillModel.t) : FillModel.t :=
  {| FillModel.type := FillModel.type f;
     FillModel.color := FillModel.color f;
     FillModel.colors := v;
     FillModel.direction := FillModel.direction f |}.

Definition stroke_width (v : Z) (s : StrokeModel.t) : StrokeModel.t :=
  {| StrokeModel.enabled := StrokeModel.enabled s;
     StrokeModel.width := v;
     StrokeModel.color := StrokeModel.color s |}.

Definition stroke_color (v : string) (s : StrokeModel.t) : StrokeModel.t :=
  {| StrokeModel.enabled := StrokeModel.enabled s;
     StrokeModel.width := StrokeModel.width s;
     StrokeModel.color := v |}.

Definition shadow_offset (v : list Z) (s : ShadowModel.t) : ShadowModel.t :=
  {| ShadowModel.enabled := ShadowModel.enabled s;
     ShadowModel.offset := v;
     ShadowModel.blur := ShadowModel.blur s;
     ShadowModel.color := ShadowModel.color s;
     ShadowModel.opacity := ShadowModel.opacity s |}.

Definition shadow_blur (v : Z) (s : ShadowModel.t) : ShadowModel.t :=
  {| ShadowModel.enabled := ShadowModel.enabled s;
     ShadowModel.offset := ShadowModel.offset s;
     ShadowModel.blur := v;
     ShadowModel.color := ShadowModel.color s;
     ShadowModel.opacity := ShadowModel.opacity s |}.

Definition shadow_color (v : string) (s : ShadowModel.t) : ShadowModel.t :=
  {| ShadowModel.enabled := ShadowModel.enabled s;
     ShadowModel.offset := ShadowModel.offset s;
     ShadowModel.blur := ShadowModel.blur s;
     ShadowModel.color := v;
     ShadowModel.opacity := ShadowModel.opacity s |}.

Definition shadow_opacity (v : float) (s : ShadowModel.t) : ShadowModel.t :=
  {| ShadowModel.enabled := ShadowModel.enabled s;
     ShadowModel.offset := ShadowModel.offset s;
     ShadowModel.blur := ShadowModel.blur s;
     ShadowModel.color := ShadowModel.color s;
     ShadowModel.opacity := v |}.

End Update.

(** A style document that validates, used to run the statements. *)
Module Sample.

Definition shadow : ShadowModel.t :=
  {| ShadowModel.enabled := false;
     ShadowModel.offset := [2; 2];
     ShadowModel.blur := 4;
     ShadowModel.color := "#000000";
     ShadowModel.opacity := F64.half |}.

Definition solid_fill : FillModel.t :=
  {| FillModel.type := "solid";
     FillModel.color := Some "#FF00AA";
     FillModel.colors := None;
     FillModel.direction := None |}.

Definition gradient_fill : FillModel.t :=
  {| FillModel.type := "gradient";
     FillModel.color := None;
     FillModel.colors := Some ["#000000"; "#FFFFFF"];
     FillModel.direction := Some "vertical" |}.

Definition stroke : StrokeModel.t :=
  {| StrokeModel.enabled := true;
     StrokeModel.width := 2;
     StrokeModel.color := "#102030" |}.

Definition style : StyleModel.t :=
  {| StyleModel.font_path := "font.ttf";
     StyleModel.font_size := 48;
     StyleModel.center := [10; 10];
     StyleModel.fill := solid_fill;
     StyleModel.stroke := stroke;
     StyleModel.shadow := shadow;
     StyleModel.outer_glow := shadow;
     StyleModel.inner_shadow := shadow;
     StyleModel.letter_spacing := 0;
     StyleModel.line_height := F64.one;
     StyleModel.rotation := F64.zero;
     StyleModel.opacity := F64.half |}.

(** A world in which the font exists, the base image is 4 by 3 pixels,
    the text is shaped to itself, measures 3 by 3 pixels, and no call
    raises. *)
Definition world : env :=
  {| path_exists := fun _ => true;
     image_size := fun _ => (4%nat, 3%nat);
     reshape := fun t => t;
     get_display := fun t => t;
     textbbox := fun _ _ _ => (0, 0, 3, 3);
     raises := fun _ => None |}.

End Sample.

(** The sample world on a console that cannot take the final report:
    every [print] raises. *)
Definition sample_world_silent : env :=
  {| path_exists := path_exists Sample.world;
     image_size := image_size Sample.world;
     reshape := reshape Sample.world;
     get_display := get_display Sample.world;
     textbbox := textbbox Sample.world;
     raises := fun c => match c with
                        | Print _ => Some (LibraryError "UnicodeEncodeError")
                        | _ => None
                        end |}.

(** The value of a valid finite float counted in units of [2^-1074], the
    smallest positive binary64 number: always an integer. *)
Definition scaled (x : float) : Z :=
  match x with
  | S754_finite s m e => cond_Zopp s (Zpos m * 2 ^ (e + 1074))
  | _ => 0
  end.

(** The bounds of the schema are small integers: as floats they are
    exact. *)
Definition exact_bound (b : Z) : Prop :=
  F64.valid (F64.of_Z b) = true /\ F64.is_finite (F64.of_Z b) = true /\
  (F64.to_Q (F64.of_Z b) == inject_Z b)%Q.

(** What the two fill validators let through, field by field. *)
Definition fill_color_ok (v : option string) : bool :=
  match v with
  | None => true
  | Some s => String.eqb s "" || matches_hex s
  end.

Definition fill_colors_ok (v : option (list string)) : bool :=
  match v with
  | None => true
  | Some l => forallb matches_hex l
  end.

Definition fill_direction_ok (v : option string) : bool :=
  match v with
  | None => true
  | Some d => String.eqb d "vertical" || String.eqb d "horizontal"
  end.

Definition fill_type_ok (v : string) : bool :=
  String.eqb v "solid" || String.eqb v "gradient".

(** Truncation toward zero of a rational. *)
Definition Qtrunc (q : Q) : Z := Z.quot (Qnum q) (Zpos (Qden q)).

(** The draw origin as the specification words it: the half dimension is
    subtracted from the centre as a real number and the difference is
    truncated. *)
Definition origin_as_specified (center dimension : Z) : Z :=
  Qtrunc (inject_Z center - inject_Z dimension / 2)%Q.

(** [round(x)] of a finite float as the specification words the alpha
    channel: the nearest integer, a tie going to the even one. *)
Definition round_half_even (x : float) : Z :=
  match x with
  | S754_finite s m (Zneg k) =>
      let q := Z.shiftr (Zpos m) (Zpos k) in
      let r := Z.land (Zpos m) (Z.ones (Zpos k)) in
      let half := Z.shiftl 1 (Zpos k - 1) in
      let up := (half <? r) || ((half =? r) && Z.odd q) in
      cond_Zopp s (if up then q + 1 else q)
  | _ => F64.trunc x
  end.

(** A world in which no library call raises. *)
Definition quiet (w : env) : Prop := forall c, raises w c = None.

(** The save calls of a log. *)
Definition is_save (c : call) : bool :=
  match c with
  | Save _ => true
  | _ => false
  end.

Definition is_drawing (c : call) : bool :=
  match c with
  | Text _ _ _ _ _ _ | Paste _ _ | AlphaComposite | Rotate _ | Save _ => true
  | _ => false
  end.

(** The calls issued before the first [Save], the path saved to, and the
    calls issued after it. *)
Fixpoint split_at_save (log : list call)
  : option (list call * string * list call) :=
  match log with
  | [] => None
  | Save p :: rest => Some ([], p, rest)
  | c :: rest =>
      match split_at_save rest with
      | Some (pre, p, post) => Some (c :: pre, p, post)
      | None => None
      end
  end.

(** The channel values, 0 to 255. *)
Definition bytes : list Z := map Z.of_nat (seq 0 256).

(** The characters, code points 0 to 255. *)
Definition chars : list ascii := map ascii_of_nat (seq 0 256).

(** A result of [int16] that, if a number, lies between -15 and 255. *)
Definition short_value (r : result Z) : bool :=
  match r with
  | Ok n => (-15 <=? n) && (n <=? 255)
  | Raise _ => true
  end.

Definition transparent : rgba := (0, 0, 0, 0).

(** The pixel in row [i] and column [j] of a raster. *)
Definition pixel_at (g : raster) (i j : nat) : rgba :=
  nth j (nth i g []) transparent.

(** The exponent of the binary64 format for a number of [k] binary
    digits above the binary point. *)
Definition fexp64 (k : Z) : Z := Z.max (k - 53) (-1074).

(** [float(255)] *)
Definition f255 : float := Eval vm_compute in F64.of_Z 255.

(** The blend of the specification: [(1 - i/n) * c1 + (i/n) * c2] in
    exact rational arithmetic. *)
Definition exact_blend (i n : nat) (c1 c2 : Z) : Q :=
  let ratio := (inject_Z (Z.of_nat i) / inject_Z (Z.of_nat n))%Q in
  ((1 - ratio) * inject_Z c1 + ratio * inject_Z c2)%Q.

(** [v] is the channel stored at index [i] of [n]: the integer part of
    the float64 blend, a byte, with the exact blend no further than
    [2^-39] from the unit interval that starts at [v]. *)
Definition truncated_blend (i n : nat) (c1 c2 v : Z) : Prop :=
  v = F64.trunc (blend (ratio_of i n) c1 c2) /\
  0 <= v <= 255 /\
  (inject_Z v - 2 ^ (-39) <= exact_blend i n c1 c2)%Q /\
  (exact_blend i n c1 c2 < inject_Z v + 1 + 2 ^ (-39))%Q.

(** A channel as the specification words it: the integer truncation of
    the exact blend. *)
Definition channel_as_specified (i n : nat) (c1 c2 : Z) : Z :=
  Qtrunc (exact_blend i n c1 c2).

(** [v] is the channel of the specification, or one less than it where
    the exact blend is an integer. *)
Definition specified_or_below (i n : nat) (c1 c2 v : Z) : Prop :=
  v = channel_as_specified i n c1 c2 \/
  (v + 1 = channel_as_specified i n c1 c2 /\
   (exact_blend i n c1 c2 == inject_Z (v + 1))%Q).

(** ASCII upper case, for the letters [a] to [z]. *)
Definition ascii_upper (c : ascii) : ascii :=
  if in_range "a" "z" c then ascii_of_N (N_of_ascii c - 32) else c.

Fixpoint string_upper (s : string) : string :=
  match s with
  | EmptyString => EmptyString
  | String c s' => String (ascii_upper c) (string_upper s')
  end.

(** [n] copies of a character, as a string. *)
Fixpoint string_repeat (c : ascii) (n : nat) : string :=
  match n with
  | O => EmptyString
  | S n' => String c (string_repeat c n')
  end.

(** The four channels of a pixel, by index: red, green, blue, alpha. *)
Definition channel (k : nat) (p : rgba) : Z :=
  let '(r, g, b, a) := p in
  match k with
  | 0%nat => r
  | 1%nat => g
  | 2%nat => b
  | _ => a
  end.

(** The style with another letter spacing. *)
Definition with_letter_spacing (v : Z) (m : StyleModel.t) : StyleModel.t :=
  {| StyleModel.font_path := StyleModel.font_path m;
     StyleModel.font_size := StyleModel.font_size m;
     StyleModel.center := StyleModel.center m;
     StyleModel.fill := StyleModel.fill m;
     StyleModel.stroke := StyleModel.stroke m;
     StyleModel.shadow := StyleModel.shadow m;
     StyleModel.outer_glow := StyleModel.outer_glow m;
     StyleModel.inner_shadow := StyleModel.inner_shadow m;
     StyleModel.letter_spacing := v;
     StyleModel.line_height := StyleModel.line_height m;
     StyleModel.rotation := StyleModel.rotation m;
     StyleModel.opacity := StyleModel.opacity m |}.

(** A fill that carries what its variant draws with: a solid fill a
    colour that is not empty, any other fill at least two colours. *)
Definition fill_complete (f : FillModel.t) : bool :=
  if String.eqb (FillModel.type f) "solid"
  then match FillModel.color f with
       | Some s => negb (String.eqb s "")
       | None => false
       end
  else match FillModel.colors f with
       | Some (_ :: _ :: _) => true
       | _ => false
       end.

(* ================================================================= *)
(** ** Command line *)

Definition nl : string := String newline "".

(** [sep.join(items)] *)
Fixpoint join (sep : string) (items : list string) : string :=
  match items with
  | [] => ""
  | x :: rest =>
      match rest with
      | [] => x
      | _ => (x ++ sep ++ join sep rest)%string
      end
  end.

(** One entry of [e.errors()], as far as it is printed: the items of
    ["loc"], each through [str], and ["msg"]. *)
Record error_line : Type := { line_loc : list string; line_msg : string }.

(** The keyword arguments of [StyleModel(...)], as the library sees
    them.  [Typed m]: no field is missing (the optional fields of the
    fill apart) or extra, and the library obtains a value of the declared
    type for every field, after the conversions it applies on its own (a
    numeric string or an integral float for an [int], an [int] for a
    [float], and the like); [m] holds the values after conversion, and the
    construction of the model comes down to the field constraints and
    validators of [StyleModel.validate].  [Untyped errors]: anything
    else (a missing or extra field, a value the library cannot convert);
    the construction raises [ValidationError] with the entries the
    library reports. *)
Inductive document : Type :=
| Typed (style_data : StyleModel.t)
| Untyped (errors : list error_line).

(** The parsed command line. *)
Record arguments : Type := {
  arg_image : string;
  arg_output : string;
  arg_text : string;
  arg_style : string
}.

(** What [main] meets besides the libraries of [render]:
    - [parse_args]: the arguments, or the status with which [argparse]
      exits (2 for a rejected command line, 0 after [--help]);
    - [load p]: [open(p)], [json.load] and the unpacking of the value
      read into keyword arguments, each of which may raise;
    - [message]: the library's text for a failed constraint;
    - [str e]: [str(e)] of an exception. *)
Record shell : Type := {
  lib : env;
  parse_args : arguments + Z;
  load : string -> result document;
  message : error_type -> string;
  str : exn -> string
}.

Fixpoint print_errors (world : env) (errors : list error_line) : M unit :=
  match errors with
  | [] => ret tt
  | error :: rest =>
      let field := join " → " (line_loc error) in
      let message := line_msg error in
      (perform world (Print [("• " ++ field ++ ": " ++ message)%string]) tt ;;
       print_errors world rest)%render
  end.

(** [print_validation_error(e)], on the entries of [e.errors()]. *)
Definition print_validation_error (world : env) (errors : list error_line)
  : M unit :=
  (perform world (Print [(nl ++ "❌ Style configuration error:" ++ nl)%string]) tt ;;
   print_errors world errors ;;
   perform world (Print [(nl ++ "Please fix style.json and try again." ++ nl)%string]) tt
  )%render.

(** [e.errors()] for the errors of the field constraints and
    validators. *)
Definition errors_of (sh : shell) (es : list error_details) : list error_line :=
  map (fun d => {| line_loc := loc d; line_msg := message sh (err d) |}) es.

(** Constructing [StyleModel] from the style data: the model, or the
    entries of the [ValidationError] raised. *)
Definition construct (sh : shell) (style_data : document)
  : list error_line + StyleModel.t :=
  match style_data with
  | Untyped errors => inl errors
  | Typed m =>
      match StyleModel.validate m with
      | [] => inr m
      | es => inl (errors_of sh es)
      end
  end.

(** How the [try] block of [main] is left other than by an exception of
    class [Exception]: [sys.exit] or a [ValidationError]. *)
Inductive stop : Type :=
| Exit (status : Z)
| Invalid (errors : list error_line).

(** The [try] block of [main], once the arguments are parsed. *)
Definition main_body (sh : shell) (args : arguments) : M (option stop) :=
  (found <- perform (lib sh) (PathExists (arg_image args))
              (path_exists (lib sh) (arg_image args)) ;;
   if negb found then
     perform (lib sh) (Print ["❌ Image file not found."]) tt ;;
     ret (Some (Exit 1))
   else
     found <- perform (lib sh) (PathExists (arg_style args))
                (path_exists (lib sh) (arg_style args)) ;;
     if negb found then
       perform (lib sh) (Print ["❌ Style JSON file not found."]) tt ;;
       ret (Some (Exit 1))
     else
       style_data <- lift (load sh (arg_style args)) ;;
       match construct sh style_data with
       | inl errors => ret (Some (Invalid errors))
       | inr style =>
           render (lib sh) (arg_image args) (arg_output args) (arg_text args)
             style ;;
           ret None
       end)%render.

(** How a run of [main] ends: it returns, the process exits with a
    status, or an exception leaves [main]. *)
Inductive outcome : Type :=
| Returned
| Exited (status : Z)
| Uncaught (e : exn).

(** [main()].  [SystemExit] is not an [Exception]: [sys.exit] in the
    [try] block and the exit of [argparse] pass both handlers.  An
    exception raised inside a handler leaves [main]. *)
Definition main (sh : shell) : outcome * list call :=
  match parse_args sh with
  | inr status => (Exited status, [])
  | inl args =>
      match main_body sh args [] with
      | (Ok None, log) => (Returned, log)
      | (Ok (Some (Exit status)), log) => (Exited status, log)
      | (Ok (Some (Invalid errors)), log) =>
          match print_validation_error (lib sh) errors log with
          | (Ok _, log') => (Exited 1, log')
          | (Raise e, log') => (Uncaught e, log')
          end
      | (Raise e, log) =>
          match perform (lib sh)
                  (Print [(nl ++ "❌ Unexpected error:")%string; str sh e]) tt log with
          | (Ok _, log') => (Exited 1, log')
          | (Raise e', log') => (Uncaught e', log')
          end
      end
  end.

(** The calls [main] issues itself: existence checks and prints. *)
Definition is_check_or_print (c : call) : bool :=
  match c with
  | PathExists _ | Print _ => true
  | _ => false
  end.

(** A program that only adds to the log it is given. *)
Definition appends {A : Type} (m : M A) : Prop :=
  forall log, m log = (fst (m []), log ++ snd (m [])).

(** The line printed for one entry of the validation error. *)
Definition error_message (error : error_line) : call :=
  Print [("• " ++ join " → " (line_loc error) ++ ": " ++ line_msg error)%string].

(** A command line for the sample style. *)
Definition sample_arguments : arguments :=
  {| arg_image := "in.png"; arg_output := "out.png";
     arg_text := "Hi"; arg_style := "style.json" |}.

Definition sample_shell : shell :=
  {| lib := Sample.world;
     parse_args := inl sample_arguments;
     load := fun _ => Ok (Typed Sample.style);
     message := fun _ => "Input should be valid";
     str := fun _ => "error" |}.

(** The sample world with its own choice of the files that exist. *)
Definition sample_world_with (present : string -> bool) : env :=
  {| path_exists := present;
     image_size := image_size Sample.world;
     reshape := reshape Sample.world;
     get_display := get_display Sample.world;
     textbbox := textbbox Sample.world;
     raises := raises Sample.world |}.

(** The sample command line on a console where every [print] raises. *)
Definition sample_shell_silent : shell :=
  {| lib := sample_world_silent;
     parse_args := inl sample_arguments;
     load := fun _ => Ok (Typed Sample.style);
     message := fun _ => "Input should be valid";
     str := fun _ => "error" |}.

Definition sample_shell_with (present : string -> bool)
  (loaded : result document) : shell :=
  {| lib := sample_world_with present;
     parse_args := inl sample_arguments;
     load := fun _ => loaded;
     message := fun _ => "Input should be valid";
     str := fun _ => "error" |}.

(* ================================================================= *)
(** * Properties *)

(** ** The colour pattern *)

Lemma in_class_hex c :
  Re.in_class [("A", "F"); ("a", "f"); ("0", "9")]%char c = is_hex_digit c.
Proof.
  unfold Re.in_class, is_hex_digit. simpl.
  destruct (in_range "0" "9" c), (in_range "a" "f" c), (in_range "A" "F" c);
    reflexivity.
Qed.

Ltac re_simpl := cbn -[Re.in_class is_hex_digit newline Ascii.eqb].

(** [re.match] accepts the seven-character colours and, because [$] also
    holds before a final newline, the same followed by one newline. *)
Lemma matches_hex_shape s :
  matches_hex s =
  is_hex_color s ||
  match s with
  | String h (String d1 (String d2 (String d3 (String d4 (String d5
      (String d6 (String n EmptyString))))))) =>
      Ascii.eqb n newline &&
      is_hex_color (String h (String d1 (String d2 (String d3 (String d4
        (String d5 (String d6 EmptyString)))))))
  | _ => false
  end.
Proof.
  unfold matches_hex, Re.re_match, HEX_COLOR_REGEX.
  destruct s as [|h [|d1 [|d2 [|d3 [|d4 [|d5 [|d6 [|n [|x r]]]]]]]]];
    re_simpl; try reflexivity;
    (destruct (Ascii.eqb h "#"); re_simpl;
     [| rewrite ?andb_false_r; reflexivity]);
    repeat (rewrite in_class_hex;
            match goal with
            | |- context [if is_hex_digit ?d then _ else _] =>
                destruct (is_hex_digit d)
            end;
            re_simpl; rewrite ?andb_false_r; try reflexivity).
  all: try (match goal with
            | |- context [Ascii.eqb ?n newline] => destruct (Ascii.eqb n newline)
            end; reflexivity).
  all: reflexivity.
Qed.

Lemma is_hex_color_matches s : is_hex_color s = true -> matches_hex s = true.
Proof. intros H. rewrite matches_hex_shape, H. reflexivity. Qed.

Lemma matches_hex_empty : matches_hex "" = false.
Proof. reflexivity. Qed.

Lemma hex_digit_not_hash c : is_hex_digit c = true -> Ascii.eqb c "#" = false.
Proof.
  destruct c as [[] [] [] [] [] [] [] []]; intros H; try reflexivity;
    discriminate H.
Qed.

Lemma hex_digit_value_range c :
  is_hex_digit c = true ->
  exists v, hex_digit_value c = Some v /\ 0 <= v < 16.
Proof.
  destruct c as [[] [] [] [] [] [] [] []]; intros H; try discriminate H;
    match goal with
    | |- exists v, ?t = _ /\ _ =>
        let r := eval vm_compute in t in
        match r with
        | Some ?n => exists n; split; [reflexivity | lia]
        end
    end.
Qed.

(** A hexadecimal digit is none of the other characters [int] gives a
    meaning to. *)
Lemma hex_digit_plain c :
  is_hex_digit c = true ->
  is_blank c = false /\ Ascii.eqb c "-" = false /\ Ascii.eqb c "+" = false /\
  Ascii.eqb c "_" = false /\ Ascii.eqb c "x" = false /\ Ascii.eqb c "X" = false.
Proof.
  destruct c as [[] [] [] [] [] [] [] []]; intros H; try discriminate H;
    repeat split; reflexivity.
Qed.

Lemma hex_byte_range hi lo :
  is_hex_digit hi = true -> is_hex_digit lo = true ->
  int16 (String hi (String lo EmptyString)) = Ok (hex_byte hi lo) /\
  0 <= hex_byte hi lo <= 255.
Proof.
  intros Hh Hl.
  destruct (hex_digit_value_range hi Hh) as (h & Eh & Rh).
  destruct (hex_digit_value_range lo Hl) as (l & El & Rl).
  destruct (hex_digit_plain hi Hh) as (B1 & M1 & P1 & U1 & _).
  destruct (hex_digit_plain lo Hl) as (_ & _ & _ & U2 & X1 & X2).
  unfold int16, hex_byte, read_sign, skip_prefix, starts_with.
  cbn [skip_blanks]. rewrite B1, M1, P1, X1, X2, andb_false_r, U1.
  cbn [int16_digits]. rewrite U1, Eh, U2, El. cbn [skip_blanks].
  split; [f_equal; lia | lia].
Qed.

(** ** Binary64: order *)

Lemma digits2_pos_bounds m :
  2 ^ (Zpos (digits2_pos m) - 1) <= Zpos m < 2 ^ (Zpos (digits2_pos m)).
Proof.
  induction m as [p IH | p IH |]; cbn [digits2_pos].
  - rewrite Pos2Z.inj_succ.
    replace (Z.succ (Zpos (digits2_pos p)) - 1) with (Z.succ (Zpos (digits2_pos p) - 1)) by lia.
    rewrite !Z.pow_succ_r by lia. lia.
  - rewrite Pos2Z.inj_succ.
    replace (Z.succ (Zpos (digits2_pos p)) - 1) with (Z.succ (Zpos (digits2_pos p) - 1)) by lia.
    rewrite !Z.pow_succ_r by lia. lia.
  - cbn. lia.
Qed.

(** A valid finite float has its exponent in [-1074, 971] and at most 53
    bits of mantissa, exactly 53 of them above the smallest exponent. *)
Lemma valid_finite s m e :
  F64.valid (S754_finite s m e) = true ->
  -1074 <= e <= 971 /\ Zpos m < 2 ^ 53 /\ (-1074 < e -> 2 ^ 52 <= Zpos m).
Proof.
  unfold F64.valid, valid_binary, bounded, canonical_mantissa, fexp, emin,
    F64.prec, F64.emax.
  intros H. apply andb_prop in H. destruct H as [Hc He].
  apply Z.eqb_eq in Hc. apply Z.leb_le in He.
  pose proof (digits2_pos_bounds m) as [Hlo Hhi].
  change IntDef.Z.max with Z.max in Hc.
  assert (Hd : Zpos (digits2_pos m) <= 53) by lia.
  split; [lia|]. split.
  - eapply Z.lt_le_trans; [exact Hhi|].
    apply Z.pow_le_mono_r; lia.
  - intros Hn. assert (Zpos (digits2_pos m) = 53) as E by lia.
    rewrite E in Hlo. exact Hlo.
Qed.

Lemma scaled_pos_lt m1 e1 m2 e2 :
  F64.valid (S754_finite false m1 e1) = true ->
  F64.valid (S754_finite false m2 e2) = true ->
  e1 < e2 ->
  Zpos m1 * 2 ^ (e1 + 1074) < Zpos m2 * 2 ^ (e2 + 1074).
Proof.
  intros V1 V2 Hlt.
  apply valid_finite in V1. apply valid_finite in V2.
  destruct V1 as (R1 & U1 & _). destruct V2 as (R2 & _ & L2).
  specialize (L2 ltac:(lia)).
  replace (e2 + 1074) with ((e1 + 1074) + 1 + (e2 - e1 - 1)) by lia.
  rewrite (Z.pow_add_r 2 (e1 + 1074 + 1)), (Z.pow_add_r 2 (e1 + 1074) 1) by lia.
  assert (0 < 2 ^ (e1 + 1074)) by (apply Z.pow_pos_nonneg; lia).
  assert (1 <= 2 ^ (e2 - e1 - 1)) by (apply (Z.pow_le_mono_r 2 0); lia).
  change (2 ^ 1) with 2. change (2 ^ 53) with (2 * 2 ^ 52) in U1.
  set (A := 2 ^ (e1 + 1074)) in *. set (B := 2 ^ (e2 - e1 - 1)) in *.
  set (P := 2 ^ 52) in *.
  assert (0 < P) by reflexivity.
  apply Z.lt_le_trans with (2 * P * A); [nia|].
  apply Z.le_trans with (P * (A * 2 * B)); nia.
Qed.

Lemma compare_scaled_pos m1 e1 m2 e2 :
  F64.valid (S754_finite false m1 e1) = true ->
  F64.valid (S754_finite false m2 e2) = true ->
  match Z.compare e1 e2 with
  | Lt => Lt
  | Gt => Gt
  | Eq => Pos.compare_cont Eq m1 m2
  end = Z.compare (Zpos m1 * 2 ^ (e1 + 1074)) (Zpos m2 * 2 ^ (e2 + 1074)).
Proof.
  intros V1 V2. destruct (Z.compare_spec e1 e2) as [E | L | G].
  - subst e2. symmetry.
    assert (0 < 2 ^ (e1 + 1074)).
    { apply Z.pow_pos_nonneg; [lia|]. apply valid_finite in V1. lia. }
    change (Pos.compare_cont Eq m1 m2) with (Z.compare (Zpos m1) (Zpos m2)).
    destruct (Z.compare_spec (Zpos m1) (Zpos m2)) as [E | L | G].
    + rewrite E. apply Z.compare_refl.
    + apply Z.compare_lt_iff. nia.
    + apply Z.compare_gt_iff. nia.
  - symmetry. apply Z.compare_lt_iff. apply scaled_pos_lt; assumption.
  - symmetry. apply Z.compare_gt_iff. apply scaled_pos_lt; assumption.
Qed.

(** On valid finite floats the IEEE comparison is the comparison of the
    exact values. *)
Lemma compare_scaled x y :
  F64.valid x = true -> F64.valid y = true ->
  F64.is_finite x = true -> F64.is_finite y = true ->
  SFcompare x y = Some (Z.compare (scaled x) (scaled y)).
Proof.
  intros Vx Vy Fx Fy.
  destruct x as [sx | sx | | sx mx ex]; try discriminate Fx;
    destruct y as [sy | sy | | sy my ey]; try discriminate Fy;
    cbn [SFcompare scaled].
  - reflexivity.
  - f_equal. symmetry.
    assert (0 < Zpos my * 2 ^ (ey + 1074)).
    { apply Z.mul_pos_pos; [lia|]. apply Z.pow_pos_nonneg; [lia|].
      apply valid_finite in Vy. lia. }
    destruct sy; cbn [cond_Zopp].
    + apply Z.compare_gt_iff. lia.
    + apply Z.compare_lt_iff. lia.
  - f_equal. symmetry.
    assert (0 < Zpos mx * 2 ^ (ex + 1074)).
    { apply Z.mul_pos_pos; [lia|]. apply Z.pow_pos_nonneg; [lia|].
      apply valid_finite in Vx. lia. }
    destruct sx; cbn [cond_Zopp].
    + apply Z.compare_lt_iff. lia.
    + apply Z.compare_gt_iff. lia.
  - f_equal.
    assert (0 < Zpos mx * 2 ^ (ex + 1074)).
    { apply Z.mul_pos_pos; [lia|]. apply Z.pow_pos_nonneg; [lia|].
      apply valid_finite in Vx. lia. }
    assert (0 < Zpos my * 2 ^ (ey + 1074)).
    { apply Z.mul_pos_pos; [lia|]. apply Z.pow_pos_nonneg; [lia|].
      apply valid_finite in Vy. lia. }
    destruct sx, sy; cbn [cond_Zopp].
    + rewrite Z.compare_opp.
      rewrite <- (compare_scaled_pos my ey mx ex) by assumption.
      rewrite (Z.compare_antisym ey ex).
      destruct (ey ?= ex); cbn [CompOpp]; try reflexivity.
      change (Pos.compare_cont Eq ?a ?b) with (Pos.compare a b).
      rewrite (Pos.compare_antisym mx my). reflexivity.
    + symmetry. apply Z.compare_lt_iff. lia.
    + symmetry. apply Z.compare_gt_iff. lia.
    + apply compare_scaled_pos; assumption.
Qed.

Lemma to_Q_scaled x :
  F64.valid x = true ->
  (F64.to_Q x == Qmake (scaled x) (2 ^ 1074))%Q.
Proof.
  intros V. destruct x as [sx | sx | | s m e]; try reflexivity.
  apply valid_finite in V. destruct V as (R & _ & _).
  assert (P : (F64.to_Q (S754_finite false m e)
               == Qmake (Zpos m * 2 ^ (e + 1074)) (2 ^ 1074))%Q).
  { unfold F64.to_Q, Qeq. cbn [Qnum Qden].
    change (Zpos (2 ^ 1074)) with (2 ^ 1074).
    destruct e as [| k | k].
    - cbn [Z.shiftl inject_Z Qnum Qden]. lia.
    - rewrite Z.shiftl_mul_pow2 by lia. cbn [inject_Z Qnum Qden].
      rewrite Z.pow_add_r by lia. lia.
    - cbn [Qnum Qden].
      rewrite Pos2Z.inj_pow.
      replace (2 ^ 1074) with (2 ^ (Zneg k + 1074) * 2 ^ (Zpos k)) at 1.
      2:{ rewrite <- Z.pow_add_r by lia. f_equal. lia. }
      lia. }
  destruct s; cbn [scaled cond_Zopp].
  - unfold F64.to_Q in *. cbn [negb] in *. 
    change (if true then ?a else ?b) with a.
    change (if false then ?a else ?b) with b in P.
    rewrite P. unfold Qeq, Qopp. cbn [Qnum Qden]. lia.
  - exact P.
Qed.

Lemma leb_to_Q x y :
  F64.valid x = true -> F64.valid y = true ->
  F64.is_finite x = true -> F64.is_finite y = true ->
  F64.leb x y = true <-> (F64.to_Q x <= F64.to_Q y)%Q.
Proof.
  intros Vx Vy Fx Fy.
  unfold F64.leb, SFleb. rewrite (compare_scaled x y) by assumption.
  rewrite (to_Q_scaled x Vx), (to_Q_scaled y Vy).
  unfold Qle. cbn [Qnum Qden].
  assert (0 < Zpos (2 ^ 1074)) by lia.
  destruct (Z.compare_spec (scaled x) (scaled y)); split; intros; 
    try reflexivity; try discriminate; nia.
Qed.

Lemma ltb_to_Q x y :
  F64.valid x = true -> F64.valid y = true ->
  F64.is_finite x = true -> F64.is_finite y = true ->
  F64.ltb x y = true <-> (F64.to_Q x < F64.to_Q y)%Q.
Proof.
  intros Vx Vy Fx Fy.
  unfold F64.ltb, SFltb. rewrite (compare_scaled x y) by assumption.
  rewrite (to_Q_scaled x Vx), (to_Q_scaled y Vy).
  unfold Qlt. cbn [Qnum Qden].
  assert (0 < Zpos (2 ^ 1074)) by lia.
  destruct (Z.compare_spec (scaled x) (scaled y)); split; intros; 
    try reflexivity; try discriminate; nia.
Qed.

(** ** Validation: when a model is accepted *)

Lemma at_field_nil name es : at_field name es = [] <-> es = [].
Proof. destruct es; cbn; split; intros H; congruence. Qed.

Lemma nested_nil name es : nested name es = [] <-> es = [].
Proof. destruct es; cbn; split; intros H; congruence. Qed.

Lemma Field_two {V : Type} (check : bound -> V -> option error_type) c1 c2 v :
  Field check [c1; c2] v = [] <-> check c1 v = None /\ check c2 v = None.
Proof.
  unfold Field.
  destruct c1, c2; cbn [filter is_le is_ge is_gt app first_failure];
    destruct (check _ v) as [e1|]; try destruct (check _ v) as [e2|];
    split; try discriminate; auto;
    intros [E1 E2]; first [discriminate E1 | discriminate E2].
Qed.

Lemma int_between_closed lo hi v :
  Field check_int [ge lo; le hi] v = [] <-> lo <= v <= hi.
Proof.
  rewrite Field_two. cbn.
  destruct (Z.leb_spec lo v), (Z.leb_spec v hi); split;
    try (intros [E1 E2]; discriminate); try lia; auto.
Qed.

Lemma int_between_open lo hi v :
  Field check_int [gt lo; le hi] v = [] <-> lo < v <= hi.
Proof.
  rewrite Field_two. cbn.
  destruct (Z.ltb_spec lo v), (Z.leb_spec v hi); split;
    try (intros [E1 E2]; discriminate); try lia; auto.
Qed.

Lemma float_between_closed lo hi x :
  Field check_float [ge lo; le hi] x = [] <->
  F64.leb (F64.of_Z lo) x = true /\ F64.leb x (F64.of_Z hi) = true.
Proof.
  rewrite Field_two. cbn.
  destruct (F64.leb (F64.of_Z lo) x), (F64.leb x (F64.of_Z hi));
    split; try (intros [E1 E2]; discriminate); auto.
Qed.

Lemma float_between_open lo hi x :
  Field check_float [gt lo; le hi] x = [] <->
  F64.ltb (F64.of_Z lo) x = true /\ F64.leb x (F64.of_Z hi) = true.
Proof.
  rewrite Field_two. cbn.
  destruct (F64.ltb (F64.of_Z lo) x), (F64.leb x (F64.of_Z hi));
    split; try (intros [E1 E2]; discriminate); auto.
Qed.

Lemma not_finite_cases x :
  F64.is_finite x = false ->
  x = S754_nan \/ x = S754_infinity false \/ x = S754_infinity true.
Proof. destruct x as [| [] | |]; intros H; try discriminate H; auto. Qed.

Lemma float_closed_exact lo hi x :
  exact_bound lo -> exact_bound hi -> F64.valid x = true ->
  (F64.leb (F64.of_Z lo) x = true /\ F64.leb x (F64.of_Z hi) = true) <->
  (F64.is_finite x = true /\ (inject_Z lo <= F64.to_Q x <= inject_Z hi)%Q).
Proof.
  intros (Vl & Fl & El) (Vh & Fh & Eh) Vx.
  destruct (F64.is_finite x) eqn:Fx.
  - rewrite (leb_to_Q _ _ Vl Vx Fl Fx), (leb_to_Q _ _ Vx Vh Fx Fh), El, Eh.
    tauto.
  - split; [| intros [H _]; discriminate H].
    intros [H1 H2]. exfalso.
    destruct (F64.of_Z lo) as [| | |]; try discriminate Fl;
      destruct (F64.of_Z hi) as [| | |]; try discriminate Fh;
      destruct (not_finite_cases x Fx) as [E | [E | E]]; subst x;
      discriminate.
Qed.

Lemma float_open_exact lo hi x :
  exact_bound lo -> exact_bound hi -> F64.valid x = true ->
  (F64.ltb (F64.of_Z lo) x = true /\ F64.leb x (F64.of_Z hi) = true) <->
  (F64.is_finite x = true /\ (inject_Z lo < F64.to_Q x <= inject_Z hi)%Q).
Proof.
  intros (Vl & Fl & El) (Vh & Fh & Eh) Vx.
  destruct (F64.is_finite x) eqn:Fx.
  - rewrite (ltb_to_Q _ _ Vl Vx Fl Fx), (leb_to_Q _ _ Vx Vh Fx Fh), El, Eh.
    tauto.
  - split; [| intros [H _]; discriminate H].
    intros [H1 H2]. exfalso.
    destruct (F64.of_Z lo) as [| | |]; try discriminate Fl;
      destruct (F64.of_Z hi) as [| | |]; try discriminate Fh;
      destruct (not_finite_cases x Fx) as [E | [E | E]]; subst x;
      discriminate.
Qed.

Lemma exact_bounds :
  exact_bound 0 /\ exact_bound 1 /\ exact_bound 5 /\
  exact_bound (-360) /\ exact_bound 360.
Proof. repeat split; vm_compute; reflexivity. Qed.

Lemma stroke_accepted s :
  StrokeModel.validate s = [] <->
  0 <= StrokeModel.width s <= 100 /\ matches_hex (StrokeModel.color s) = true.
Proof.
  unfold StrokeModel.validate, StrokeModel.validate_color.
  fold (matches_hex (StrokeModel.color s)).
  rewrite <- int_between_closed.
  split.
  - intros H. apply app_eq_nil in H. destruct H as [H1 H2].
    apply at_field_nil in H1. apply at_field_nil in H2.
    split; [exact H1|].
    destruct (matches_hex (StrokeModel.color s)); [reflexivity | discriminate H2].
  - intros [H1 H2]. rewrite H1, H2. reflexivity.
Qed.

Lemma shadow_accepted s :
  ShadowModel.validate s = [] <->
  0 <= ShadowModel.blur s <= 200 /\
  matches_hex (ShadowModel.color s) = true /\
  F64.leb (F64.of_Z 0) (ShadowModel.opacity s) = true /\
  F64.leb (ShadowModel.opacity s) (F64.of_Z 1) = true.
Proof.
  unfold ShadowModel.validate, ShadowModel.validate_color.
  fold (matches_hex (ShadowModel.color s)).
  rewrite <- int_between_closed, <- float_between_closed.
  split.
  - intros H. apply app_eq_nil in H. destruct H as [H1 H].
    apply app_eq_nil in H. destruct H as [H2 H3].
    apply at_field_nil in H1. apply at_field_nil in H2.
    apply at_field_nil in H3.
    split; [exact H1|]. split; [| exact H3].
    destruct (matches_hex (ShadowModel.color s)); [reflexivity | discriminate H2].
  - intros (H1 & H2 & H3). rewrite H1, H2, H3. reflexivity.
Qed.

Lemma validate_color_fill v :
  FillModel.validate_color v =
  if fill_color_ok v then Ok tt
  else Raise (ValueError "Color must be valid HEX like #ff00aa").
Proof.
  destruct v as [s|]; [| reflexivity].
  unfold FillModel.validate_color, fill_color_ok.
  fold (matches_hex s).
  destruct (String.eqb s ""), (matches_hex s); reflexivity.
Qed.

Lemma validate_colors_loop_find l :
  FillModel.validate_colors_loop l =
  match find (fun c => negb (matches_hex c)) l with
  | Some c => Raise (ValueError ("Invalid gradient color: " ++ c)%string)
  | None => Ok tt
  end.
Proof.
  induction l as [| c l IH]; [reflexivity|].
  cbn [FillModel.validate_colors_loop find]. fold (matches_hex c).
  destruct (negb (matches_hex c)); [reflexivity | exact IH].
Qed.

Lemma validate_colors_find v :
  FillModel.validate_colors v =
  match v with
  | Some l =>
      match find (fun c => negb (matches_hex c)) l with
      | Some c => Raise (ValueError ("Invalid gradient color: " ++ c)%string)
      | None => Ok tt
      end
  | None => Ok tt
  end.
Proof.
  destruct v as [[| c l] |]; try reflexivity.
  exact (validate_colors_loop_find (c :: l)).
Qed.

Lemma find_none_forallb l :
  find (fun c => negb (matches_hex c)) l = None <-> forallb matches_hex l = true.
Proof.
  induction l as [| c l IH]; cbn; [tauto|].
  destruct (matches_hex c); cbn; [exact IH|].
  split; intros H; discriminate H.
Qed.

Lemma fill_accepted f :
  FillModel.validate f = [] <->
  fill_type_ok (FillModel.type f) = true /\
  fill_color_ok (FillModel.color f) = true /\
  fill_colors_ok (FillModel.colors f) = true /\
  fill_direction_ok (FillModel.direction f) = true.
Proof.
  unfold FillModel.validate.
  rewrite validate_color_fill, validate_colors_find.
  assert (T : Literal ["solid"; "gradient"] (FillModel.type f) = [] <->
              fill_type_ok (FillModel.type f) = true).
  { unfold Literal, fill_type_ok. cbn [existsb]. rewrite orb_false_r.
    destruct (_ || _); split; intros H; try discriminate H; reflexivity. }
  assert (D : optional (Literal ["vertical"; "horizontal"]) (FillModel.direction f) = [] <->
              fill_direction_ok (FillModel.direction f) = true).
  { unfold optional, Literal, fill_direction_ok.
    destruct (FillModel.direction f) as [d|]; [| tauto].
    cbn [existsb]. rewrite orb_false_r.
    destruct (_ || _); split; intros H; try discriminate H; reflexivity. }
  assert (C : raised (if fill_color_ok (FillModel.color f) then Ok tt
                      else Raise (ValueError "Color must be valid HEX like #ff00aa")) = [] <->
              fill_color_ok (FillModel.color f) = true).
  { destruct (fill_color_ok _); cbn; split; intros H; try discriminate H; reflexivity. }
  assert (L : raised match FillModel.colors f with
                     | Some l =>
                         match find (fun c => negb (matches_hex c)) l with
                         | Some c => Raise (ValueError ("Invalid gradient color: " ++ c)%string)
                         | None => Ok tt
                         end
                     | None => Ok tt
                     end = [] <->
              fill_colors_ok (FillModel.colors f) = true).
  { unfold fill_colors_ok. destruct (FillModel.colors f) as [l|]; [| cbn; tauto].
    rewrite <- find_none_forallb.
    destruct (find _ l); cbn; split; intros H; try discriminate H; reflexivity. }
  rewrite <- T, <- D, <- C, <- L.
  split.
  - intros H. apply app_eq_nil in H. destruct H as [H1 H].
    apply app_eq_nil in H. destruct H as [H2 H].
    apply app_eq_nil in H. destruct H as [H3 H4].
    rewrite at_field_nil in H1, H2, H3, H4. auto.
  - intros (H1 & H2 & H3 & H4). rewrite H1, H2, H3, H4. reflexivity.
Qed.

Lemma style_accepted m :
  StyleModel.accepts m = true <->
  0 < StyleModel.font_size m <= 500 /\
  FillModel.validate (StyleModel.fill m) = [] /\
  StrokeModel.validate (StyleModel.stroke m) = [] /\
  ShadowModel.validate (StyleModel.shadow m) = [] /\
  ShadowModel.validate (StyleModel.outer_glow m) = [] /\
  ShadowModel.validate (StyleModel.inner_shadow m) = [] /\
  0 <= StyleModel.letter_spacing m <= 100 /\
  (F64.ltb (F64.of_Z 0) (StyleModel.line_height m) = true /\
   F64.leb (StyleModel.line_height m) (F64.of_Z 5) = true) /\
  (F64.leb (F64.of_Z (-360)) (StyleModel.rotation m) = true /\
   F64.leb (StyleModel.rotation m) (F64.of_Z 360) = true) /\
  (F64.leb (F64.of_Z 0) (StyleModel.opacity m) = true /\
   F64.leb (StyleModel.opacity m) (F64.of_Z 1) = true).
Proof.
  rewrite <- int_between_open, <- int_between_closed, <- float_between_open,
    <- !float_between_closed.
  unfold StyleModel.accepts, StyleModel.validate.
  split.
  - intros H.
    destruct (_ ++ _) eqn:E in H; [| discriminate H].
    repeat (apply app_eq_nil in E; destruct E as [? E]).
    repeat match goal with
           | H : at_field _ _ = [] |- _ => apply at_field_nil in H
           | H : nested _ _ = [] |- _ => apply nested_nil in H
           end.
    repeat split; assumption.
  - intros (H1 & H2 & H3 & H4 & H5 & H6 & H7 & H8 & H9 & H10).
    rewrite H1, H2, H3, H4, H5, H6, H7, H8, H9, H10. reflexivity.
Qed.

(** ** Numeric ranges *)

Ltac style_fields :=
  cbn [StyleModel.font_size StyleModel.fill StyleModel.stroke StyleModel.shadow
       StyleModel.outer_glow StyleModel.inner_shadow StyleModel.letter_spacing
       StyleModel.line_height StyleModel.rotation StyleModel.opacity
       StyleModel.center StyleModel.font_path
       Update.font_size Update.center Update.fill Update.stroke Update.shadow
       Update.outer_glow Update.inner_shadow Update.line_height Update.rotation
       Update.opacity
       Update.stroke_width Update.stroke_color Update.shadow_offset
       Update.shadow_blur Update.shadow_color Update.shadow_opacity
       Update.fill_color Update.fill_colors
       StrokeModel.width StrokeModel.color StrokeModel.enabled
       ShadowModel.blur ShadowModel.color ShadowModel.opacity
       ShadowModel.offset ShadowModel.enabled
       FillModel.type FillModel.color FillModel.colors FillModel.direction].

Lemma shadow_blur_range s n :
  ShadowModel.validate s = [] ->
  ShadowModel.validate (Update.shadow_blur n s) = [] <-> 0 <= n <= 200.
Proof.
  intros H. rewrite shadow_accepted in H. rewrite shadow_accepted.
  style_fields. tauto.
Qed.

Lemma shadow_opacity_range s x :
  ShadowModel.validate s = [] -> F64.valid x = true ->
  ShadowModel.validate (Update.shadow_opacity x s) = [] <->
  F64.is_finite x = true /\ (inject_Z 0 <= F64.to_Q x <= inject_Z 1)%Q.
Proof.
  intros H V. rewrite shadow_accepted in H. rewrite shadow_accepted.
  style_fields.
  rewrite <- (float_closed_exact 0 1 x) by (try apply exact_bounds; exact V).
  tauto.
Qed.

Section OneFieldChanged.

Variable m : StyleModel.t.
Hypothesis accepted : StyleModel.accepts m = true.

Lemma font_size_range n :
  StyleModel.accepts (Update.font_size n m) = true <-> 0 < n <= 500.
Proof.
  pose proof accepted as Hm. rewrite style_accepted in Hm.
  rewrite style_accepted. style_fields. tauto.
Qed.

Lemma stroke_width_range n :
  StyleModel.accepts
    (Update.stroke (Update.stroke_width n (StyleModel.stroke m)) m) = true
  <-> 0 <= n <= 100.
Proof.
  pose proof accepted as Hm. rewrite style_accepted in Hm.
  rewrite style_accepted. style_fields.
  rewrite stroke_accepted in Hm. rewrite stroke_accepted. style_fields. tauto.
Qed.

Lemma blur_range_shadow n :
  StyleModel.accepts
    (Update.shadow (Update.shadow_blur n (StyleModel.shadow m)) m) = true
  <-> 0 <= n <= 200.
Proof.
  pose proof accepted as Hm. rewrite style_accepted in Hm.
  rewrite style_accepted. style_fields.
  rewrite <- (shadow_blur_range (StyleModel.shadow m) n) by tauto. tauto.
Qed.

Lemma blur_range_outer_glow n :
  StyleModel.accepts
    (Update.outer_glow (Update.shadow_blur n (StyleModel.outer_glow m)) m) = true
  <-> 0 <= n <= 200.
Proof.
  pose proof accepted as Hm. rewrite style_accepted in Hm.
  rewrite style_accepted. style_fields.
  rewrite <- (shadow_blur_range (StyleModel.outer_glow m) n) by tauto. tauto.
Qed.

Lemma blur_range_inner_shadow n :
  StyleModel.accepts
    (Update.inner_shadow (Update.shadow_blur n (StyleModel.inner_shadow m)) m) = true
  <-> 0 <= n <= 200.
Proof.
  pose proof accepted as Hm. rewrite style_accepted in Hm.
  rewrite style_accepted. style_fields.
  rewrite <- (shadow_blur_range (StyleModel.inner_shadow m) n) by tauto. tauto.
Qed.

Lemma opacity_range x :
  F64.valid x = true ->
  StyleModel.accepts (Update.opacity x m) = true <->
  F64.is_finite x = true /\ (inject_Z 0 <= F64.to_Q x <= inject_Z 1)%Q.
Proof.
  intros V. pose proof accepted as Hm. rewrite style_accepted in Hm.
  rewrite style_accepted. style_fields.
  rewrite <- (float_closed_exact 0 1 x) by (try apply exact_bounds; exact V).
  tauto.
Qed.

Lemma opacity_range_shadow x :
  F64.valid x = true ->
  StyleModel.accepts
    (Update.shadow (Update.shadow_opacity x (StyleModel.shadow m)) m) = true <->
  F64.is_finite x = true /\ (inject_Z 0 <= F64.to_Q x <= inject_Z 1)%Q.
Proof.
  intros V. pose proof accepted as Hm. rewrite style_accepted in Hm.
  rewrite style_accepted. style_fields.
  rewrite <- (shadow_opacity_range (StyleModel.shadow m) x) by tauto. tauto.
Qed.

Lemma opacity_range_outer_glow x :
  F64.valid x = true ->
  StyleModel.accepts
    (Update.outer_glow (Update.shadow_opacity x (StyleModel.outer_glow m)) m) = true <->
  F64.is_finite x = true /\ (inject_Z 0 <= F64.to_Q x <= inject_Z 1)%Q.
Proof.
  intros V. pose proof accepted as Hm. rewrite style_accepted in Hm.
  rewrite style_accepted. style_fields.
  rewrite <- (shadow_opacity_range (StyleModel.outer_glow m) x) by tauto. tauto.
Qed.

Lemma opacity_range_inner_shadow x :
  F64.valid x = true ->
  StyleModel.accepts
    (Update.inner_shadow (Update.shadow_opacity x (StyleModel.inner_shadow m)) m) = true <->
  F64.is_finite x = true /\ (inject_Z 0 <= F64.to_Q x <= inject_Z 1)%Q.
Proof.
  intros V. pose proof accepted as Hm. rewrite style_accepted in Hm.
  rewrite style_accepted. style_fields.
  rewrite <- (shadow_opacity_range (StyleModel.inner_shadow m) x) by tauto. tauto.
Qed.

Lemma rotation_range x :
  F64.valid x = true ->
  StyleModel.accepts (Update.rotation x m) = true <->
  F64.is_finite x = true /\ (inject_Z (-360) <= F64.to_Q x <= inject_Z 360)%Q.
Proof.
  intros V. pose proof accepted as Hm. rewrite style_accepted in Hm.
  rewrite style_accepted. style_fields.
  rewrite <- (float_closed_exact (-360) 360 x) by (try apply exact_bounds; exact V).
  tauto.
Qed.

Lemma line_height_range x :
  F64.valid x = true ->
  StyleModel.accepts (Update.line_height x m) = true <->
  F64.is_finite x = true /\ (inject_Z 0 < F64.to_Q x <= inject_Z 5)%Q.
Proof.
  intros V. pose proof accepted as Hm. rewrite style_accepted in Hm.
  rewrite style_accepted. style_fields.
  rewrite <- (float_open_exact 0 5 x) by (try apply exact_bounds; exact V).
  tauto.
Qed.

End OneFieldChanged.

(** C7.  Starting from any accepted style, changing one numeric field
    keeps the style accepted exactly when the new value lies in the
    field's range: font_size in (0, 500] (so 0 and 501 fail and 500
    succeeds), stroke.width in [0, 100], each blur in [0, 200], opacity and
    each shadow opacity in [0, 1], rotation in [-360, 360], line_height in
    (0, 5] (so 0 fails and 5 succeeds).  For the float fields the range is
    a range of exact values, and NaN and the infinities are outside. *)
Theorem numeric_range_boundaries (m : StyleModel.t) :
  StyleModel.accepts m = true ->
  (forall n, StyleModel.accepts (Update.font_size n m) = true <-> 0 < n <= 500) /\
  (forall n, StyleModel.accepts
               (Update.stroke (Update.stroke_width n (StyleModel.stroke m)) m) = true
             <-> 0 <= n <= 100) /\
  (forall n, StyleModel.accepts
               (Update.shadow (Update.shadow_blur n (StyleModel.shadow m)) m) = true
             <-> 0 <= n <= 200) /\
  (forall n, StyleModel.accepts
               (Update.outer_glow (Update.shadow_blur n (StyleModel.outer_glow m)) m) = true
             <-> 0 <= n <= 200) /\
  (forall n, StyleModel.accepts
               (Update.inner_shadow (Update.shadow_blur n (StyleModel.inner_shadow m)) m) = true
             <-> 0 <= n <= 200) /\
  (forall x, F64.valid x = true ->
             (StyleModel.accepts (Update.opacity x m) = true <->
              F64.is_finite x = true /\ (inject_Z 0 <= F64.to_Q x <= inject_Z 1)%Q)) /\
  (forall x, F64.valid x = true ->
             (StyleModel.accepts
                (Update.shadow (Update.shadow_opacity x (StyleModel.shadow m)) m) = true <->
              F64.is_finite x = true /\ (inject_Z 0 <= F64.to_Q x <= inject_Z 1)%Q)) /\
  (forall x, F64.valid x = true ->
             (StyleModel.accepts
                (Update.outer_glow (Update.shadow_opacity x (StyleModel.outer_glow m)) m) = true <->
              F64.is_finite x = true /\ (inject_Z 0 <= F64.to_Q x <= inject_Z 1)%Q)) /\
  (forall x, F64.valid x = true ->
             (StyleModel.accepts
                (Update.inner_shadow (Update.shadow_opacity x (StyleModel.inner_shadow m)) m) = true <->
              F64.is_finite x = true /\ (inject_Z 0 <= F64.to_Q x <= inject_Z 1)%Q)) /\
  (forall x, F64.valid x = true ->
             (StyleModel.accepts (Update.rotation x m) = true <->
              F64.is_finite x = true /\
              (inject_Z (-360) <= F64.to_Q x <= inject_Z 360)%Q)) /\
  (forall x, F64.valid x = true ->
             (StyleModel.accepts (Update.line_height x m) = true <->
              F64.is_finite x = true /\ (inject_Z 0 < F64.to_Q x <= inject_Z 5)%Q)).
Proof.
  intros Hm.
  split; [intros n; apply font_size_range; exact Hm|].
  split; [intros n; apply stroke_width_range; exact Hm|].
  split; [intros n; apply blur_range_shadow; exact Hm|].
  split; [intros n; apply blur_range_outer_glow; exact Hm|].
  split; [intros n; apply blur_range_inner_shadow; exact Hm|].
  split; [intros x V; apply opacity_range; assumption|].
  split; [intros x V; apply opacity_range_shadow; assumption|].
  split; [intros x V; apply opacity_range_outer_glow; assumption|].
  split; [intros x V; apply opacity_range_inner_shadow; assumption|].
  split; [intros x V; apply rotation_range; assumption|].
  intros x V; apply line_height_range; assumption.
Qed.

(** ** Render: running the pipeline *)

Lemma index_two {A : Type} (l : list A) a b :
  index l 0 = Ok a -> index l 1 = Ok b -> exists rest, l = a :: b :: rest.
Proof.
  destruct l as [| x [| y rest]]; cbn; intros H0 H1; try discriminate.
  injection H0 as ->. injection H1 as ->. exists rest. reflexivity.
Qed.

Lemma index_short {A : Type} (l : list A) :
  (List.length l < 2)%nat ->
  index l 0 = Raise IndexError \/
  (exists a, index l 0 = Ok a /\ index l 1 = Raise IndexError).
Proof.
  destruct l as [| x [| y rest]]; cbn; intros H; try lia.
  - left. reflexivity.
  - right. eexists. split; reflexivity.
Qed.

Lemma bind_assoc {A B C : Type} (m : M A) (k1 : A -> M B) (k2 : B -> M C) log :
  bind (bind m k1) k2 log = bind m (fun a => bind (k1 a) k2) log.
Proof. unfold bind. destruct (m log) as [[a | e] log']; reflexivity. Qed.

Lemma bind_perform {A B : Type} w c (a : A) (k : A -> M B) log :
  bind (perform w c a) k log =
  match raises w c with
  | Some e => (Raise e, log ++ [c])
  | None => k a (log ++ [c])
  end.
Proof. unfold bind, perform. destruct (raises w c); reflexivity. Qed.

Lemma bind_lift {A B : Type} (x : result A) (k : A -> M B) log :
  bind (lift x) k log =
  match x with
  | Ok a => k a log
  | Raise e => (Raise e, log)
  end.
Proof. unfold bind, lift. destruct x; reflexivity. Qed.

Lemma bind_if {A B : Type} (b : bool) (m1 m2 : M A) (k : A -> M B) log :
  bind (if b then m1 else m2) k log =
  if b then bind m1 k log else bind m2 k log.
Proof. destruct b; reflexivity. Qed.

(** Symbolic execution of a program of [M]: [run_head fin] takes one
    step at the head of a goal [program log = (r, log') -> _] and closes
    every branch in which the program has stopped with [fin]. *)
Ltac run_head fin :=
  lazymatch goal with
  | |- ?lhs = _ -> _ =>
      lazymatch lhs with
      | bind (perform ?w (Textbbox ?xy ?t) (textbbox ?w ?p ?n ?t)) ?k ?L =>
          let E := fresh "Hbox" in
          destruct (textbbox w p n t) as [[[? ?] ?] ?] eqn:E
      | bind (bind ?m ?k1) ?k2 ?L =>
          rewrite (bind_assoc m k1 k2 L); cbv beta
      | bind (perform ?w ?c ?a) ?k ?L =>
          rewrite (bind_perform w c a k L);
          let E := fresh "Hcall" in
          destruct (raises w c) eqn:E; cbv beta; cbn [app negb];
          [solve [fin] |]
      | perform ?w ?c ?a ?L =>
          unfold perform;
          let E := fresh "Hcall" in
          destruct (raises w c) eqn:E; cbn [app]; solve [fin]
      | bind (lift (Ok ?a)) ?k ?L => change lhs with (k a L); cbv beta
      | bind (lift (Raise ?e)) ?k ?L =>
          rewrite (bind_lift (Raise e) k L); cbv beta iota; solve [fin]
      | bind (lift ?x) ?k ?L =>
          rewrite (bind_lift x k L);
          let E := fresh "Hpure" in
          destruct x eqn:E; cbv beta; [| solve [fin]]
      | bind (ret ?a) ?k ?L => change lhs with (k a L); cbv beta
      | bind (if ?b then ?m1 else ?m2) ?k ?L =>
          rewrite (bind_if b m1 m2 k L);
          let E := fresh "Hif" in destruct b eqn:E
      | (if ?b then ?m1 else ?m2) ?L =>
          let E := fresh "Hif" in destruct b eqn:E
      | lift ?x ?L => change lhs with (x, L); solve [fin]
      | bind (fill_pass ?w ?s ?z ?xy ?t) ?k ?L =>
          unfold fill_pass; cbv zeta
      | bind (stroke_pass ?w ?s ?xy ?t) ?k ?L =>
          unfold stroke_pass; cbv zeta
      | bind (reshape_text ?w ?t) ?k ?L => unfold reshape_text
      | render _ _ _ _ _ _ => unfold render
      end
  end.

Ltac run_with fin := repeat (run_head fin).

Ltac in_log H :=
  cbn [In app] in H;
  repeat match type of H with
         | _ \/ _ => destruct H as [H | H]
         | False => destruct H
         end;
  try discriminate H.

Ltac solve_in :=
  solve [cbn [In]; repeat (first [left; reflexivity | right])].

Ltac origin_facts H :=
  injection H as <- <- <- <- <- <-;
  match goal with
  | H0 : index _ 0 = Ok ?a, H1 : index _ 1 = Ok ?b |- _ =>
      destruct (index_two _ _ _ H0 H1) as [rest ->]
  end;
  repeat eexists.

(** Every text-drawing call of a run, on the text layer or on the mask,
    is issued at the origin computed from the centre and the measured
    box. *)
Lemma text_calls_origin (world : env) image_path output_path text style :
  forall r log,
    render world image_path output_path text style [] = (r, log) ->
    forall im xy t f sw sf,
      In (Text im xy t f sw sf) log ->
      exists c0 c1 rest b0 b1 b2 b3,
        StyleModel.center style = c0 :: c1 :: rest /\
        textbbox world (StyleModel.font_path style) (StyleModel.font_size style)
          (get_display world (reshape world text)) = (b0, b1, b2, b3) /\
        xy = (c0 - (b2 - b0) / 2, c1 - (b3 - b1) / 2).
Proof.
  intros r log.
  run_with ltac:(
    intros E im xy t f sw sf H; injection E as <- <-; in_log H;
    origin_facts H).
Qed.

(** The font check comes first: when the font file is missing, nothing
    but the check itself has been issued. *)
Lemma missing_font_stops (world : env) image_path output_path text style :
  raises world (PathExists (StyleModel.font_path style)) = None ->
  path_exists world (StyleModel.font_path style) = false ->
  render world image_path output_path text style [] =
  (Raise (FileNotFoundError "Font file not found"),
   [PathExists (StyleModel.font_path style)]).
Proof.
  intros H1 H2. unfold render. rewrite bind_perform, H1, H2. reflexivity.
Qed.

Ltac split_log :=
  match goal with
  | |- exists pre post, ?l = _ /\ _ =>
      let s := eval cbv [split_at_save] in (split_at_save l) in
      match s with
      | Some (?pre, _, ?post) => exists pre, post
      end
  end.

Ltac save_facts H :=
  injection H as <-; split; [reflexivity|]; split_log;
  (split; [reflexivity|]);
  (split; [repeat constructor; assumption|]);
  (split; [reflexivity|]);
  (split;
    [first [left; do 3 eexists; solve_in | right; eexists; solve_in]|]);
  (split; [intros He; try congruence; do 3 eexists; solve_in|]);
  (split; [solve_in|]);
  (split; [intros He; try (rewrite He in *; discriminate); solve_in|]);
  (split; [first [left; reflexivity | right; reflexivity]|]);
  first [left; reflexivity
        | right; eexists; split; [reflexivity|];
          first [left; first [reflexivity | assumption]
                | right; first [reflexivity | assumption]]].

Lemma save_after_everything (world : env) image_path output_path text style :
  forall r log,
    render world image_path output_path text style [] = (r, log) ->
    forall p,
    In (Save p) log ->
    p = output_path /\
    exists pre post,
      log = pre ++ Save output_path :: post /\
      Forall (fun c => raises world c = None) pre /\
      existsb is_save pre = false /\
      ((exists xy t c, In (Text TextLayer xy t (Some (Color c)) 0 None) pre) \/
       (exists g, In (Paste g (0, 0)) pre)) /\
      (StrokeModel.enabled (StyleModel.stroke style) = true ->
       exists xy t c,
         In (Text TextLayer xy t None
               (StrokeModel.width (StyleModel.stroke style)) (Some c)) pre) /\
      In AlphaComposite pre /\
      (F64.eqb (StyleModel.rotation style) F64.zero = false ->
       In (Rotate (StyleModel.rotation style)) pre) /\
      (post = [] \/ post = [Print ["Rendered successfully →"; output_path]]) /\
      (r = Ok tt \/
       (exists e, r = Raise e /\
                  (raises world (Save output_path) = Some e \/
                   raises world (Print ["Rendered successfully →"; output_path])
                   = Some e))).
Proof.
  intros r log.
  run_with ltac:(
    intros E p H; injection E as <- <-; in_log H; save_facts H).
Qed.

(** ** Render: colours and opacity *)

Lemma full_alpha : F64.to_int (F64.mul (F64.of_Z 255) F64.one) = Ok 255.
Proof. reflexivity. Qed.



Lemma create_gradient_colors size colors direction g :
  create_gradient size colors direction = Ok g ->
  exists s1 s2 rest c1 c2,
    colors = Some (s1 :: s2 :: rest) /\
    hex_to_rgba s1 F64.one = Ok c1 /\
    hex_to_rgba s2 F64.one = Ok c2.
Proof.
  destruct size as [width height]. unfold create_gradient, rbind.
  destruct colors as [cs |]; [| discriminate].
  destruct (index cs 0) as [s1 |] eqn:E1; [| discriminate].
  destruct (hex_to_rgba s1 F64.one) as [c1 |] eqn:H1; [| discriminate].
  destruct (index cs 1) as [s2 |] eqn:E2; [| discriminate].
  destruct (hex_to_rgba s2 F64.one) as [c2 |] eqn:H2; [| discriminate].
  intros _. destruct (index_two _ _ _ E1 E2) as [rest ->].
  exists s1, s2, rest, c1, c2. auto.
Qed.

Lemma create_gradient_no_colors size direction :
  create_gradient size None direction = Raise TypeError.
Proof. destruct size. reflexivity. Qed.








(** ** The claims about validation *)

(** C5 (as stated, refuted).  A gradient fill that carries neither colours
    nor a direction, and a solid fill that carries no colour, are both
    accepted by validation. *)
Lemma fill_variant_counterexample :
  FillModel.validate
    {| FillModel.type := "gradient"; FillModel.color := None;
       FillModel.colors := None; FillModel.direction := None |} = [] /\
  StyleModel.accepts
    (Update.fill
       {| FillModel.type := "gradient"; FillModel.color := None;
          FillModel.colors := None; FillModel.direction := None |}
       Sample.style) = true /\
  StyleModel.accepts
    (Update.fill
       {| FillModel.type := "solid"; FillModel.color := None;
          FillModel.colors := Some ["#000000"; "#FFFFFF"; "#123456"];
          FillModel.direction := None |}
       Sample.style) = true.
Proof. repeat split; vm_compute; reflexivity. Qed.

Ltac absurd_call Q :=
  match goal with
  | H : raises _ _ = Some _ |- _ => rewrite Q in H; discriminate H
  | H : negb ?b = true, P : ?b = true |- _ => rewrite P in H; discriminate H
  | H : create_gradient _ None _ = Ok _ |- _ =>
      rewrite create_gradient_no_colors in H; discriminate H
  end.

Ltac quiet_fin Q done :=
  let E := fresh "E" in
  intros E; injection E as <- <-; first [absurd_call Q | done].

Lemma solid_without_color_raises (world : env) image_path output_path text style :
  quiet world ->
  path_exists world (StyleModel.font_path style) = true ->
  (2 <= List.length (StyleModel.center style))%nat ->
  FillModel.type (StyleModel.fill style) = "solid" ->
  FillModel.color (StyleModel.fill style) = None ->
  forall r log,
  render world image_path output_path text style [] = (r, log) ->
  r = Raise AttributeError /\
  log = [PathExists (StyleModel.font_path style);
         ImageOpen image_path "RGBA";
         ImageNew "RGBA" (image_size world image_path) (Color (0, 0, 0, 0));
         Draw TextLayer;
         Truetype (StyleModel.font_path style) (StyleModel.font_size style);
         ArabicReshape text;
         GetDisplay (reshape world text);
         Textbbox (0, 0) (get_display world (reshape world text))].
Proof.
  intros Q P L T C r log.
  destruct (StyleModel.center style) as [| cx [| cy rest]] eqn:Ec;
    try (cbn in L; lia).
  unfold render, fill_pass. rewrite T, C, Ec.
  cbn [String.eqb Ascii.eqb Bool.eqb index nth_error].
  run_with ltac:(quiet_fin Q ltac:(split; reflexivity)).
Qed.

Lemma gradient_without_colors_raises (world : env) image_path output_path text style :
  quiet world ->
  path_exists world (StyleModel.font_path style) = true ->
  (2 <= List.length (StyleModel.center style))%nat ->
  FillModel.type (StyleModel.fill style) = "gradient" ->
  FillModel.colors (StyleModel.fill style) = None ->
  forall r log,
  render world image_path output_path text style [] = (r, log) ->
  r = Raise TypeError /\
  exists xy,
  log = [PathExists (StyleModel.font_path style);
         ImageOpen image_path "RGBA";
         ImageNew "RGBA" (image_size world image_path) (Color (0, 0, 0, 0));
         Draw TextLayer;
         Truetype (StyleModel.font_path style) (StyleModel.font_size style);
         ArabicReshape text;
         GetDisplay (reshape world text);
         Textbbox (0, 0) (get_display world (reshape world text));
         ImageNew "L" (image_size world image_path) (Lum 0);
         Draw MaskLayer;
         Text MaskLayer xy (get_display world (reshape world text))
           (Some (Lum 255)) 0 None].
Proof.
  intros Q P L T C r log.
  destruct (StyleModel.center style) as [| cx [| cy rest]] eqn:Ec;
    try (cbn in L; lia).
  unfold render, fill_pass.
  rewrite T, C, Ec.
  cbn [String.eqb Ascii.eqb Bool.eqb index nth_error].
  run_with ltac:(quiet_fin Q ltac:(
    match goal with
    | H : create_gradient _ None _ = Raise _ |- _ =>
        rewrite create_gradient_no_colors in H; injection H as <-
    end;
    split; [reflexivity | eexists; reflexivity])).
Qed.

(** C5 (amended).  Validation checks each fill field on its own and
    never the variant against the fields: a fill is accepted exactly when
    its type is one of the two literals, its colour is absent, empty or a
    hex colour, its colours are absent or all hex colours, and its
    direction is absent or one of the two literals.  A solid fill
    without a colour and a gradient fill without colours therefore pass
    validation and fail in the fill pass of [render], after the text has
    been measured. *)
Theorem fill_fields_validated_separately :
  (forall f,
     FillModel.validate f = [] <->
     fill_type_ok (FillModel.type f) = true /\
     fill_color_ok (FillModel.color f) = true /\
     fill_colors_ok (FillModel.colors f) = true /\
     fill_direction_ok (FillModel.direction f) = true) /\
  (forall m f,
     StyleModel.accepts m = true -> FillModel.validate f = [] ->
     StyleModel.accepts (Update.fill f m) = true) /\
  (forall world image_path output_path text style r log,
     quiet world ->
     path_exists world (StyleModel.font_path style) = true ->
     (2 <= List.length (StyleModel.center style))%nat ->
     FillModel.type (StyleModel.fill style) = "solid" ->
     FillModel.color (StyleModel.fill style) = None ->
     render world image_path output_path text style [] = (r, log) ->
     r = Raise AttributeError /\
     log = [PathExists (StyleModel.font_path style);
            ImageOpen image_path "RGBA";
            ImageNew "RGBA" (image_size world image_path) (Color (0, 0, 0, 0));
            Draw TextLayer;
            Truetype (StyleModel.font_path style) (StyleModel.font_size style);
            ArabicReshape text;
            GetDisplay (reshape world text);
            Textbbox (0, 0) (get_display world (reshape world text))]) /\
  (forall world image_path output_path text style r log,
     quiet world ->
     path_exists world (StyleModel.font_path style) = true ->
     (2 <= List.length (StyleModel.center style))%nat ->
     FillModel.type (StyleModel.fill style) = "gradient" ->
     FillModel.colors (StyleModel.fill style) = None ->
     render world image_path output_path text style [] = (r, log) ->
     r = Raise TypeError /\
     exists xy,
       log = [PathExists (StyleModel.font_path style);
              ImageOpen image_path "RGBA";
              ImageNew "RGBA" (image_size world image_path) (Color (0, 0, 0, 0));
              Draw TextLayer;
              Truetype (StyleModel.font_path style) (StyleModel.font_size style);
              ArabicReshape text;
              GetDisplay (reshape world text);
              Textbbox (0, 0) (get_display world (reshape world text));
              ImageNew "L" (image_size world image_path) (Lum 0);
              Draw MaskLayer;
              Text MaskLayer xy (get_display world (reshape world text))
                (Some (Lum 255)) 0 None]).
Proof.
  split; [exact fill_accepted|].
  split.
  { intros m f Hm Hf. rewrite style_accepted in Hm. rewrite style_accepted.
    style_fields. tauto. }
  split.
  - intros world image_path output_path text style r log Q P L T C E.
    exact (solid_without_color_raises world image_path output_path text style
             Q P L T C r log E).
  - intros world image_path output_path text style r log Q P L T C E.
    exact (gradient_without_colors_raises world image_path output_path text
             style Q P L T C r log E).
Qed.

Lemma sample_quiet : quiet Sample.world.
Proof. intros c. reflexivity. Defined.

Lemma fill_fields_validated_separately_witness :
  StyleModel.accepts
    (Update.fill
       {| FillModel.type := "solid"; FillModel.color := None;
          FillModel.colors := None; FillModel.direction := None |}
       Sample.style) = true /\
  fst (render Sample.world "in.png" "out.png" "Hi"
         (Update.fill
            {| FillModel.type := "solid"; FillModel.color := None;
               FillModel.colors := None; FillModel.direction := None |}
            Sample.style) []) = Raise AttributeError.
Proof.
  destruct fill_fields_validated_separately as (_ & A & S & _).
  split.
  - apply A; reflexivity.
  - destruct (render Sample.world "in.png" "out.png" "Hi"
                (Update.fill
                   {| FillModel.type := "solid"; FillModel.color := None;
                      FillModel.colors := None; FillModel.direction := None |}
                   Sample.style) []) as [r log] eqn:E.
    apply S in E;
      [destruct E as [-> _]; reflexivity
      | first [exact sample_quiet | reflexivity | (cbn; lia)] ..].
Defined.

(** C6 (as stated, refuted).  The empty string does not match the
    pattern and the fill colour validator accepts it; and a colour followed
    by a newline, eight characters long, is accepted everywhere. *)
Lemma color_pattern_counterexample :
  matches_hex "" = false /\
  FillModel.validate_color (Some "") = Ok tt /\
  StyleModel.accepts
    (Update.fill (Update.fill_color (Some "") Sample.solid_fill) Sample.style)
  = true /\
  is_hex_color ("#FF00AA" ++ String newline "") = false /\
  StrokeModel.validate_color ("#FF00AA" ++ String newline "") = Ok tt.
Proof. repeat split; vm_compute; reflexivity. Qed.

Lemma matches_hex_iff s :
  matches_hex s = true <->
  is_hex_color s = true \/
  exists t, is_hex_color t = true /\ s = (t ++ String newline "")%string.
Proof.
  rewrite matches_hex_shape. split.
  - intros H. apply orb_true_iff in H. destruct H as [H | H]; [left; exact H|].
    right.
    destruct s as [|h [|d1 [|d2 [|d3 [|d4 [|d5 [|d6 [|n [|x r]]]]]]]]];
      try discriminate H.
    apply andb_true_iff in H. destruct H as [Hn Hc].
    apply Ascii.eqb_eq in Hn. subst n.
    eexists. split; [exact Hc | reflexivity].
  - intros [H | (t & Ht & ->)]; [rewrite H; reflexivity|].
    destruct t as [|h [|d1 [|d2 [|d3 [|d4 [|d5 [|d6 [|n r]]]]]]]];
      try discriminate Ht.
    cbn [String.append]. rewrite Ht, Ascii.eqb_refl.
    apply orb_true_r.
Qed.

(** C6 (amended).  [re.match] accepts a hash sign followed by six
    hexadecimal digits, alone or followed by one newline.  On a string it
    accepts, the validators of stroke.color and of the shadow colours,
    of fill.color and of every entry of fill.colors succeed; on any
    other string they raise the value error of the field, except that
    fill.color also accepts the empty string. *)
Theorem color_pattern_validation :
  (forall s,
     matches_hex s = true <->
     is_hex_color s = true \/
     exists t, is_hex_color t = true /\ s = (t ++ String newline "")%string) /\
  (forall s,
     StrokeModel.validate_color s =
     if matches_hex s then Ok tt
     else Raise (ValueError "Stroke color must be HEX like #000000")) /\
  (forall s,
     ShadowModel.validate_color s =
     if matches_hex s then Ok tt
     else Raise (ValueError "Shadow color must be HEX like #000000")) /\
  (forall s,
     FillModel.validate_color (Some s) =
     if matches_hex s || String.eqb s "" then Ok tt
     else Raise (ValueError "Color must be valid HEX like #ff00aa")) /\
  (forall l,
     FillModel.validate_colors (Some l) =
     match find (fun c => negb (matches_hex c)) l with
     | Some c => Raise (ValueError ("Invalid gradient color: " ++ c)%string)
     | None => Ok tt
     end) /\
  (forall m,
     StyleModel.accepts m = true ->
     matches_hex (StrokeModel.color (StyleModel.stroke m)) = true /\
     matches_hex (ShadowModel.color (StyleModel.shadow m)) = true /\
     matches_hex (ShadowModel.color (StyleModel.outer_glow m)) = true /\
     matches_hex (ShadowModel.color (StyleModel.inner_shadow m)) = true /\
     fill_color_ok (FillModel.color (StyleModel.fill m)) = true /\
     fill_colors_ok (FillModel.colors (StyleModel.fill m)) = true).
Proof.
  split; [exact matches_hex_iff|].
  split.
  { intros s. unfold StrokeModel.validate_color. fold (matches_hex s).
    destruct (matches_hex s); reflexivity. }
  split.
  { intros s. unfold ShadowModel.validate_color. fold (matches_hex s).
    destruct (matches_hex s); reflexivity. }
  split.
  { intros s. rewrite validate_color_fill. unfold fill_color_ok.
    rewrite orb_comm. reflexivity. }
  split.
  { intros l. exact (validate_colors_find (Some l)). }
  intros m Hm. rewrite style_accepted in Hm.
  destruct Hm as (_ & Hf & Hs & H1 & H2 & H3 & _).
  rewrite fill_accepted in Hf. rewrite stroke_accepted in Hs.
  rewrite shadow_accepted in H1, H2, H3. tauto.
Qed.

Lemma color_pattern_validation_witness :
  StyleModel.accepts Sample.style = true /\
  matches_hex (StrokeModel.color (StyleModel.stroke Sample.style)) = true.
Proof.
  split; [reflexivity|].
  destruct color_pattern_validation as (_ & _ & _ & _ & _ & H).
  apply (H Sample.style). reflexivity.
Defined.

(** C9.  From any accepted style: an empty-string fill colour and an
    empty colour list are accepted; an empty string as an entry of the
    colour list, as the stroke colour or as the colour of any of the
    three shadow objects is rejected. *)
Theorem empty_color_only_on_fill (m : StyleModel.t) :
  StyleModel.accepts m = true ->
  FillModel.validate_color (Some "") = Ok tt /\
  FillModel.validate_colors (Some []) = Ok tt /\
  StyleModel.accepts
    (Update.fill (Update.fill_color (Some "") (StyleModel.fill m)) m) = true /\
  StyleModel.accepts
    (Update.fill (Update.fill_colors (Some []) (StyleModel.fill m)) m) = true /\
  StyleModel.accepts
    (Update.fill (Update.fill_colors (Some [""]) (StyleModel.fill m)) m) = false /\
  StyleModel.accepts
    (Update.stroke (Update.stroke_color "" (StyleModel.stroke m)) m) = false /\
  StyleModel.accepts
    (Update.shadow (Update.shadow_color "" (StyleModel.shadow m)) m) = false /\
  StyleModel.accepts
    (Update.outer_glow (Update.shadow_color "" (StyleModel.outer_glow m)) m) = false /\
  StyleModel.accepts
    (Update.inner_shadow (Update.shadow_color "" (StyleModel.inner_shadow m)) m) = false.
Proof.
  intros Hm. rewrite style_accepted in Hm.
  destruct Hm as (H1 & H2 & H3 & H4 & H5 & H6 & H7 & H8 & H9 & H10).
  pose proof H2 as F. rewrite fill_accepted in F.
  split; [reflexivity|]. split; [reflexivity|].
  split.
  { rewrite style_accepted. style_fields. rewrite fill_accepted. style_fields.
    cbn [fill_color_ok String.eqb orb]. tauto. }
  split.
  { rewrite style_accepted. style_fields. rewrite fill_accepted. style_fields.
    cbn [fill_colors_ok forallb]. tauto. }
  repeat split.
  all: match goal with
       | |- ?a = false =>
           destruct a eqn:E; [exfalso | reflexivity];
           rewrite style_accepted in E; style_fields
       end.
  - destruct E as (_ & E & _). rewrite fill_accepted in E. style_fields.
    destruct E as (_ & _ & E & _). discriminate E.
  - destruct E as (_ & _ & E & _). rewrite stroke_accepted in E. style_fields.
    destruct E as (_ & E). discriminate E.
  - destruct E as (_ & _ & _ & E & _). rewrite shadow_accepted in E.
    style_fields. destruct E as (_ & E & _). discriminate E.
  - destruct E as (_ & _ & _ & _ & E & _). rewrite shadow_accepted in E.
    style_fields. destruct E as (_ & E & _). discriminate E.
  - destruct E as (_ & _ & _ & _ & _ & E & _). rewrite shadow_accepted in E.
    style_fields. destruct E as (_ & E & _). discriminate E.
Qed.

Lemma empty_color_only_on_fill_witness :
  StyleModel.accepts Sample.style = true /\
  StyleModel.accepts
    (Update.fill (Update.fill_color (Some "") (StyleModel.fill Sample.style))
       Sample.style) = true /\
  StyleModel.accepts
    (Update.stroke (Update.stroke_color "" (StyleModel.stroke Sample.style))
       Sample.style) = false.
Proof.
  split; [reflexivity|].
  destruct (empty_color_only_on_fill Sample.style eq_refl)
    as (_ & _ & A & _ & _ & B & _).
  split; [exact A | exact B].
Defined.

Lemma numeric_range_boundaries_witness :
  StyleModel.accepts Sample.style = true /\
  StyleModel.accepts (Update.font_size 0 Sample.style) <> true /\
  StyleModel.accepts (Update.font_size 500 Sample.style) = true /\
  StyleModel.accepts (Update.font_size 501 Sample.style) <> true /\
  StyleModel.accepts (Update.line_height F64.zero Sample.style) <> true /\
  StyleModel.accepts (Update.line_height (F64.of_Z 5) Sample.style) = true /\
  StyleModel.accepts (Update.opacity F64.one Sample.style) = true.
Proof.
  split; [reflexivity|].
  destruct (numeric_range_boundaries Sample.style eq_refl)
    as (F & _ & _ & _ & _ & O & _ & _ & _ & _ & L).
  split; [intros H; apply F in H; lia|].
  split; [apply F; lia|].
  split; [intros H; apply F in H; lia|].
  split.
  { intros H. apply (L F64.zero eq_refl) in H. destruct H as (_ & H & _).
    vm_compute in H. discriminate H. }
  split.
  { apply (L (F64.of_Z 5) eq_refl). split; [reflexivity|].
    split; vm_compute; [reflexivity | discriminate]. }
  apply (O F64.one eq_refl). split; [reflexivity|].
  split; vm_compute; discriminate.
Defined.

(** ** The claims about the render pipeline *)

Lemma sample_run :
  render Sample.world "in.png" "out.png" "Hi" Sample.style [] =
  (Ok tt,
   [PathExists "font.ttf"; ImageOpen "in.png" "RGBA";
    ImageNew "RGBA" (4%nat, 3%nat) (Color (0, 0, 0, 0));
    Draw TextLayer; Truetype "font.ttf" 48;
    ArabicReshape "Hi"; GetDisplay "Hi"; Textbbox (0, 0) "Hi";
    Text TextLayer (9, 9) "Hi" (Some (Color (255, 0, 170, 127))) 0 None;
    Text TextLayer (9, 9) "Hi" None 2 (Some (16, 32, 48, 255));
    AlphaComposite; Save "out.png";
    Print ["Rendered successfully →"; "out.png"]]).
Proof. vm_compute. reflexivity. Defined.

(** The same run with the gradient fill: the text is drawn in white on
    the mask, the gradient is pasted through it, and the opacity 0.5 of
    the style appears nowhere. *)
Example sample_gradient_run :
  render Sample.world "in.png" "out.png" "Hi"
    (Update.fill Sample.gradient_fill Sample.style) [] =
  (Ok tt,
   [PathExists "font.ttf"; ImageOpen "in.png" "RGBA";
    ImageNew "RGBA" (4%nat, 3%nat) (Color (0, 0, 0, 0));
    Draw TextLayer; Truetype "font.ttf" 48;
    ArabicReshape "Hi"; GetDisplay "Hi"; Textbbox (0, 0) "Hi";
    ImageNew "L" (4%nat, 3%nat) (Lum 0); Draw MaskLayer;
    Text MaskLayer (9, 9) "Hi" (Some (Lum 255)) 0 None;
    Paste [repeat (0, 0, 0, 255) 4; repeat (85, 85, 85, 255) 4;
           repeat (170, 170, 170, 255) 4] (0, 0);
    Text TextLayer (9, 9) "Hi" None 2 (Some (16, 32, 48, 255));
    AlphaComposite; Save "out.png";
    Print ["Rendered successfully →"; "out.png"]]).
Proof. vm_compute. reflexivity. Qed.

Lemma origin_as_specified_floor c d :
  origin_as_specified c d =
  c - d / 2 - (if Z.odd d && (0 <? c - d / 2) then 1 else 0).
Proof.
  unfold origin_as_specified, Qtrunc.
  cbn [Qminus Qplus Qopp Qdiv Qmult Qinv inject_Z Qnum Qden Pos.mul Z.mul].
  replace (c * 2 + - (d * 1) * 1) with (2 * c - d) by lia.
  change (Zpos (1 * 2)) with 2.
  pose proof (Z.div_mod d 2 ltac:(lia)) as Hd.
  pose proof (Z.mod_pos_bound d 2 ltac:(lia)) as Hm.
  rewrite Zodd_mod.
  destruct (Z.eqb_spec (d mod 2) 1) as [E1 | E1]; cbn [andb].
  - destruct (Z.ltb_spec 0 (c - d / 2)) as [Hp | Hn].
    + replace (2 * c - d) with (2 * (c - d / 2 - 1) + 1) by lia.
      rewrite Z.quot_div_nonneg by lia.
      rewrite Z.mul_comm, Z.div_add_l by lia. cbn. lia.
    + replace (2 * c - d) with (- (2 * (d / 2 - c) + 1)) by lia.
      rewrite Z.quot_opp_l by lia.
      rewrite Z.quot_div_nonneg by lia.
      rewrite Z.mul_comm, Z.div_add_l by lia. cbn. lia.
  - replace (2 * c - d) with ((c - d / 2) * 2) by lia.
    rewrite Z.quot_mul by lia. destruct (0 <? c - d / 2); lia.
Qed.

(** C2 (as stated, refuted).  With the centre at (10, 10) and a measured
    box of 3 by 3 pixels, both passes draw at (9, 9); truncating
    10 - 3/2 = 8.5 gives 8. *)
Lemma draw_origin_counterexample :
  In (Text TextLayer (9, 9) "Hi" (Some (Color (255, 0, 170, 127))) 0 None)
     (snd (render Sample.world "in.png" "out.png" "Hi" Sample.style [])) /\
  In (Text TextLayer (9, 9) "Hi" None 2 (Some (16, 32, 48, 255)))
     (snd (render Sample.world "in.png" "out.png" "Hi" Sample.style [])) /\
  textbbox Sample.world "font.ttf" 48 "Hi" = (0, 0, 3, 3) /\
  StyleModel.center Sample.style = [10; 10] /\
  (origin_as_specified 10 (3 - 0), origin_as_specified 10 (3 - 0)) = (8, 8).
Proof.
  rewrite sample_run. cbn [snd In].
  repeat split; auto 20.
Qed.

(** C2 (amended).  Every text-drawing call of [render], in the fill pass
    (on the text layer or on the gradient mask) and in the stroke pass, is
    issued at (center[0] - w // 2, center[1] - h // 2): the box dimension
    is halved with floor division first and the half is subtracted from
    the centre.  This is the truncated difference of the specification
    except when the dimension is odd and the result is positive, where it
    is one more. *)
Theorem draw_origin_floor_half
  (world : env) (image_path output_path text : string) (style : StyleModel.t)
  (r : result unit) (log : list call) :
  render world image_path output_path text style [] = (r, log) ->
  (forall im xy t f sw sf,
     In (Text im xy t f sw sf) log ->
     exists cx cy rest b0 b1 b2 b3,
       StyleModel.center style = cx :: cy :: rest /\
       textbbox world (StyleModel.font_path style) (StyleModel.font_size style)
         (get_display world (reshape world text)) = (b0, b1, b2, b3) /\
       xy = (cx - (b2 - b0) / 2, cy - (b3 - b1) / 2)) /\
  (forall c d,
     c - d / 2 =
     origin_as_specified c d + (if Z.odd d && (0 <? c - d / 2) then 1 else 0)).
Proof.
  intros E. split.
  - exact (text_calls_origin world image_path output_path text style r log E).
  - intros c d. rewrite origin_as_specified_floor. lia.
Qed.

Lemma draw_origin_floor_half_witness :
  render Sample.world "in.png" "out.png" "Hi" Sample.style [] =
  (Ok tt, snd (render Sample.world "in.png" "out.png" "Hi" Sample.style [])) /\
  exists cx cy rest b0 b1 b2 b3,
    StyleModel.center Sample.style = cx :: cy :: rest /\
    textbbox Sample.world "font.ttf" 48 "Hi" = (b0, b1, b2, b3) /\
    (9, 9) = (cx - (b2 - b0) / 2, cy - (b3 - b1) / 2).
Proof.
  split; [rewrite sample_run; reflexivity|].
  destruct (draw_origin_floor_half Sample.world "in.png" "out.png" "Hi"
              Sample.style _ _ sample_run) as [H _].
  apply (H TextLayer (9, 9) "Hi" None 2 (Some (16, 32, 48, 255))).
  cbn [In]. auto 20.
Defined.



Ltac returned_facts :=
  let E := fresh "E" in
  intros E;
  first [discriminate E
        | injection E as <-;
          split; [solve_in|];
          match goal with
          | |- exists pre, ?l = _ /\ _ =>
              let s := eval cbv [split_at_save] in (split_at_save l) in
              match s with
              | Some (?pre, _, _) => exists pre
              end
          end;
          split; [reflexivity|]; split; first [reflexivity | assumption]].

(** A run that returns has composited, saved and reported. *)
Lemma returned_run_end (world : env) image_path output_path text style :
  forall log,
    render world image_path output_path text style [] = (Ok tt, log) ->
    In AlphaComposite log /\
    exists pre,
      log = pre ++ [Save output_path;
                    Print ["Rendered successfully →"; output_path]] /\
      raises world (Save output_path) = None /\
      raises world (Print ["Rendered successfully →"; output_path]) = None.
Proof.
  intros log. run_with returned_facts.
Qed.

Ltac failed_facts :=
  first [left; reflexivity
        | right;
          match goal with
          | |- (exists pre, ?l = _ /\ _) \/ _ =>
              let s := eval cbv [split_at_save] in (split_at_save l) in
              match s with
              | Some (?pre, _, _) =>
                  first [left; exists pre;
                         split; [reflexivity | first [reflexivity | assumption]]
                        | right; exists pre; split; [reflexivity|];
                          split; first [reflexivity | assumption]]
              end
          end].

Ltac failed_run_facts :=
  let E := fresh "E" in
  let H := fresh "H" in
  intros E ? H; injection E as <- <-;
  first [discriminate H | injection H as <-; failed_facts].

(** A run that raises has saved nothing, unless the exception is the one
    of the save call, the last call then, or the one of the report that
    follows a save that succeeded. *)
Lemma failed_run_save (world : env) image_path output_path text style :
  forall r log,
    render world image_path output_path text style [] = (r, log) ->
    forall e, r = Raise e ->
    existsb is_save log = false \/
    (exists pre,
       log = pre ++ [Save output_path] /\
       raises world (Save output_path) = Some e) \/
    (exists pre,
       log = pre ++ [Save output_path;
                     Print ["Rendered successfully →"; output_path]] /\
       raises world (Save output_path) = None /\
       raises world (Print ["Rendered successfully →"; output_path]) = Some e).
Proof.
  intros r log.
  run_with failed_run_facts.
Qed.



(** C8 (as stated, refuted).  On a console that cannot take the final
    report the run fails, and it fails after the output has been saved:
    the save call is in the log and it succeeded. *)
Lemma output_saved_counterexample :
  render sample_world_silent "in.png" "out.png" "Hi" Sample.style [] =
  (Raise (LibraryError "UnicodeEncodeError"),
   [PathExists "font.ttf"; ImageOpen "in.png" "RGBA";
    ImageNew "RGBA" (4%nat, 3%nat) (Color (0, 0, 0, 0));
    Draw TextLayer; Truetype "font.ttf" 48;
    ArabicReshape "Hi"; GetDisplay "Hi"; Textbbox (0, 0) "Hi";
    Text TextLayer (9, 9) "Hi" (Some (Color (255, 0, 170, 127))) 0 None;
    Text TextLayer (9, 9) "Hi" None 2 (Some (16, 32, 48, 255));
    AlphaComposite; Save "out.png";
    Print ["Rendered successfully →"; "out.png"]]) /\
  raises sample_world_silent (Save "out.png") = None.
Proof. split; vm_compute; reflexivity. Qed.

(** C8 (amended).  In a run of [render]:
    - when the font file does not exist the run stops with the
      font-not-found error straight after the existence check, before any
      other call;
    - a save call, if there is one, is for the output path; it is the
      only one, every call issued before it succeeded, and these calls
      include the fill pass, the stroke pass when stroke is enabled, the
      compositing and the rotation when the angle is not zero; nothing but
      the final report follows it;
    - a run that raises has issued no save call, with two exceptions: the
      save call itself raised, and is the last call; or the save
      succeeded and the report that follows it raised, so that the run
      fails with the output written;
    - a run that returns ends with the save and the report, both
      successful. *)
Theorem output_saved_last
  (world : env) (image_path output_path text : string) (style : StyleModel.t)
  (r : result unit) (log : list call) :
  render world image_path output_path text style [] = (r, log) ->
  (raises world (PathExists (StyleModel.font_path style)) = None ->
   path_exists world (StyleModel.font_path style) = false ->
   r = Raise (FileNotFoundError "Font file not found") /\
   log = [PathExists (StyleModel.font_path style)]) /\
  (forall p,
     In (Save p) log ->
     p = output_path /\
     exists pre post,
       log = pre ++ Save output_path :: post /\
       Forall (fun c => raises world c = None) pre /\
       existsb is_save pre = false /\
       ((exists xy t c, In (Text TextLayer xy t (Some (Color c)) 0 None) pre) \/
        (exists g, In (Paste g (0, 0)) pre)) /\
       (StrokeModel.enabled (StyleModel.stroke style) = true ->
        exists xy t c,
          In (Text TextLayer xy t None
                (StrokeModel.width (StyleModel.stroke style)) (Some c)) pre) /\
       In AlphaComposite pre /\
       (F64.eqb (StyleModel.rotation style) F64.zero = false ->
        In (Rotate (StyleModel.rotation style)) pre) /\
       (post = [] \/ post = [Print ["Rendered successfully →"; output_path]])) /\
  (forall e,
     r = Raise e ->
     existsb is_save log = false \/
     (exists pre,
        log = pre ++ [Save output_path] /\
        raises world (Save output_path) = Some e) \/
     (exists pre,
        log = pre ++ [Save output_path;
                      Print ["Rendered successfully →"; output_path]] /\
        raises world (Save output_path) = None /\
        raises world (Print ["Rendered successfully →"; output_path])
        = Some e)) /\
  (r = Ok tt ->
   exists pre,
     log = pre ++ [Save output_path;
                   Print ["Rendered successfully →"; output_path]] /\
     raises world (Save output_path) = None /\
     raises world (Print ["Rendered successfully →"; output_path]) = None).
Proof.
  intros E. split; [| split; [| split]].
  - intros H1 H2.
    rewrite (missing_font_stops world image_path output_path text style H1 H2)
      in E.
    injection E as <- <-. split; reflexivity.
  - intros p H.
    destruct (save_after_everything world image_path output_path text style
                r log E p H)
      as (-> & pre & post & A & B & C & D & F & G & I & J & _).
    split; [reflexivity|]. exists pre, post. tauto.
  - intros e He.
    exact (failed_run_save world image_path output_path text style r log E
             e He).
  - intros ->.
    exact (proj2 (returned_run_end world image_path output_path text style
                    log E)).
Qed.

Lemma output_saved_last_witness :
  render Sample.world "in.png" "out.png" "Hi" Sample.style [] =
  (Ok tt, snd (render Sample.world "in.png" "out.png" "Hi" Sample.style [])) /\
  (exists pre post,
     snd (render Sample.world "in.png" "out.png" "Hi" Sample.style []) =
     pre ++ Save "out.png" :: post /\
     existsb is_save pre = false /\
     In AlphaComposite pre) /\
  (exists pre,
     snd (render Sample.world "in.png" "out.png" "Hi" Sample.style []) =
     pre ++ [Save "out.png"; Print ["Rendered successfully →"; "out.png"]]).
Proof.
  split; [rewrite sample_run; reflexivity|].
  destruct (output_saved_last Sample.world "in.png" "out.png" "Hi"
              Sample.style _ _ sample_run) as (_ & H & _ & R).
  split.
  - destruct (H "out.png") as (_ & pre & post & A & _ & S & _ & _ & B & _).
    + cbn [In]. auto 20.
    + exists pre, post. rewrite sample_run. cbn [snd]. auto.
  - destruct (R eq_refl) as (pre & A & _).
    exists pre. rewrite sample_run. cbn [snd]. exact A.
Defined.

Lemma short_center_raises (world : env) image_path output_path text style :
  quiet world ->
  path_exists world (StyleModel.font_path style) = true ->
  (List.length (StyleModel.center style) < 2)%nat ->
  forall r log,
  render world image_path output_path text style [] = (r, log) ->
  r = Raise IndexError /\
  log = [PathExists (StyleModel.font_path style);
         ImageOpen image_path "RGBA";
         ImageNew "RGBA" (image_size world image_path) (Color (0, 0, 0, 0));
         Draw TextLayer;
         Truetype (StyleModel.font_path style) (StyleModel.font_size style);
         ArabicReshape text;
         GetDisplay (reshape world text);
         Textbbox (0, 0) (get_display world (reshape world text))].
Proof.
  intros Q P L r log.
  destruct (StyleModel.center style) as [| cx [| cy rest]] eqn:Ec;
    try (cbn in L; lia).
  all: unfold render; rewrite Ec; cbn [index nth_error].
  all: run_with ltac:(quiet_fin Q ltac:(split; reflexivity)).
Qed.

Lemma short_center_never_draws (world : env) image_path output_path text style :
  (List.length (StyleModel.center style) < 2)%nat ->
  forall r log,
  render world image_path output_path text style [] = (r, log) ->
  (exists e, r = Raise e) /\ existsb is_drawing log = false.
Proof.
  intros L r log.
  destruct (StyleModel.center style) as [| cx [| cy rest]] eqn:Ec;
    try (cbn in L; lia).
  all: unfold render; rewrite Ec; cbn [index nth_error].
  all: run_with ltac:(
         let E := fresh "E" in
         intros E; injection E as <- <-;
         split; [eexists; reflexivity | reflexivity]).
Qed.

(** C10.  Validation never looks at the length of center or of a shadow
    offset: replacing any of them by any list of integers leaves the
    validation result unchanged.  [render] indexes center[0] and center[1]
    once the text has been measured: with fewer than two elements a run
    always raises and never reaches a drawing call, and when the font
    exists and no library call raises it raises [IndexError] right after
    the measurement. *)
Theorem point_length_unchecked (style : StyleModel.t) :
  (forall l,
     StyleModel.validate (Update.center l style) = StyleModel.validate style) /\
  (forall l,
     StyleModel.validate
       (Update.shadow (Update.shadow_offset l (StyleModel.shadow style)) style)
     = StyleModel.validate style) /\
  (forall l,
     StyleModel.validate
       (Update.outer_glow
          (Update.shadow_offset l (StyleModel.outer_glow style)) style)
     = StyleModel.validate style) /\
  (forall l,
     StyleModel.validate
       (Update.inner_shadow
          (Update.shadow_offset l (StyleModel.inner_shadow style)) style)
     = StyleModel.validate style) /\
  (forall world image_path output_path text r log,
     (List.length (StyleModel.center style) < 2)%nat ->
     render world image_path output_path text style [] = (r, log) ->
     (exists e, r = Raise e) /\ existsb is_drawing log = false /\
     (quiet world ->
      path_exists world (StyleModel.font_path style) = true ->
      r = Raise IndexError /\
      log = [PathExists (StyleModel.font_path style);
             ImageOpen image_path "RGBA";
             ImageNew "RGBA" (image_size world image_path) (Color (0, 0, 0, 0));
             Draw TextLayer;
             Truetype (StyleModel.font_path style) (StyleModel.font_size style);
             ArabicReshape text;
             GetDisplay (reshape world text);
             Textbbox (0, 0) (get_display world (reshape world text))])).
Proof.
  split; [reflexivity|]. split; [reflexivity|]. split; [reflexivity|].
  split; [reflexivity|].
  intros world image_path output_path text r log L E.
  destruct (short_center_never_draws world image_path output_path text style
              L r log E) as [A B].
  split; [exact A|]. split; [exact B|].
  intros Q P.
  exact (short_center_raises world image_path output_path text style Q P L
           r log E).
Qed.

Lemma point_length_unchecked_witness :
  StyleModel.accepts (Update.center [7] Sample.style) = true /\
  (List.length (StyleModel.center (Update.center [7%Z] Sample.style)) < 2)%nat /\
  fst (render Sample.world "in.png" "out.png" "Hi"
         (Update.center [7] Sample.style) []) = Raise IndexError.
Proof.
  split; [reflexivity|]. split; [cbn; lia|].
  destruct (point_length_unchecked (Update.center [7] Sample.style))
    as (_ & _ & _ & _ & H).
  destruct (render Sample.world "in.png" "out.png" "Hi"
              (Update.center [7] Sample.style) []) as [r log] eqn:E.
  destruct (H Sample.world "in.png" "out.png" "Hi" r log) as (_ & _ & K).
  - cbn. lia.
  - exact E.
  - destruct (K sample_quiet eq_refl) as [-> _]. reflexivity.
Defined.

(** ** Binary64: the shape of a rounded result *)

Lemma fexp_fexp64 k : fexp F64.prec F64.emax k = fexp64 k.
Proof. reflexivity. Qed.

Lemma Zdigits2_nonneg m : 0 <= Zdigits2 m.
Proof. destruct m; cbn; lia. Qed.

Lemma Zdigits2_bounds m :
  0 < m -> 2 ^ (Zdigits2 m - 1) <= m < 2 ^ Zdigits2 m.
Proof.
  destruct m as [| p | p]; try lia. intros _. apply digits2_pos_bounds.
Qed.

Lemma Zdigits2_le m k : 0 <= m -> 0 <= k -> m < 2 ^ k -> Zdigits2 m <= k.
Proof.
  intros Hm Hk Hlt.
  destruct (Z.eq_dec m 0) as [-> | Hn]; [cbn; lia|].
  pose proof (Zdigits2_bounds m ltac:(lia)) as [Hlo _].
  destruct (Z_le_gt_dec (Zdigits2 m) k) as [H | H]; [exact H | exfalso].
  assert (2 ^ k <= 2 ^ (Zdigits2 m - 1)) by (apply Z.pow_le_mono_r; lia).
  lia.
Qed.

Lemma shr_1_m mrs :
  0 <= shr_m mrs -> shr_m (shr_1 mrs) = shr_m mrs / 2.
Proof.
  destruct mrs as [m r s]. cbn [shr_m].
  destruct m as [| [p | p |] | p]; intros H; cbn [shr_1 shr_m];
    try reflexivity; try lia.
  - rewrite Pos2Z.inj_xI. apply (Z.div_unique _ _ _ 1); lia.
  - rewrite Pos2Z.inj_xO. apply (Z.div_unique _ _ _ 0); lia.
Qed.

Lemma shr_iter_m p mrs :
  0 <= shr_m mrs ->
  shr_m (iter_pos shr_1 p mrs) = shr_m mrs / 2 ^ Zpos p.
Proof.
  revert mrs. induction p as [p IH | p IH |]; intros mrs H; cbn [iter_pos].
  - assert (H1 : 0 <= shr_m (shr_1 mrs)).
    { rewrite shr_1_m by exact H. apply Z.div_pos; lia. }
    assert (H2 : 0 <= shr_m (iter_pos shr_1 p (shr_1 mrs))).
    { rewrite IH by exact H1. apply Z.div_pos; lia. }
    rewrite IH by exact H2. rewrite IH by exact H1. rewrite shr_1_m by exact H.
    rewrite !Z.div_div by lia. f_equal.
    rewrite (Pos2Z.inj_xI p).
    replace (2 * Zpos p + 1) with (1 + Zpos p + Zpos p) by lia.
    rewrite !Z.pow_add_r by lia. change (2 ^ 1) with 2. ring.
  - assert (H2 : 0 <= shr_m (iter_pos shr_1 p mrs)).
    { rewrite IH by exact H. apply Z.div_pos; lia. }
    rewrite IH by exact H2. rewrite IH by exact H.
    rewrite Z.div_div by lia. f_equal.
    rewrite (Pos2Z.inj_xO p).
    replace (2 * Zpos p) with (Zpos p + Zpos p) by lia.
    rewrite Z.pow_add_r by lia. ring.
  - rewrite shr_1_m by exact H. reflexivity.
Qed.

Lemma shr_record_of_loc_m m l : shr_m (shr_record_of_loc m l) = m.
Proof. destruct l as [| []]; reflexivity. Qed.

(** [shr_fexp] shifts the mantissa down to the exponent the format asks
    for, never up. *)
Lemma shr_fexp_m m e l :
  0 <= m ->
  let e' := Z.max e (fexp64 (Zdigits2 m + e)) in
  snd (shr_fexp F64.prec F64.emax m e l) = e' /\
  shr_m (fst (shr_fexp F64.prec F64.emax m e l)) = m / 2 ^ (e' - e).
Proof.
  intros Hm e'. unfold shr_fexp. rewrite fexp_fexp64.
  change (IntDef.Z.sub ?a ?b) with (a - b).
  change (IntDef.Z.add ?a ?b) with (a + b).
  unfold shr.
  destruct (fexp64 (Zdigits2 m + e) - e) as [| p | p] eqn:En;
    cbn [fst snd].
  - assert (e' = e) as -> by (unfold e'; lia).
    rewrite shr_record_of_loc_m, Z.sub_diag, Z.div_1_r. auto.
  - change (IntDef.Z.add ?a ?b) with (a + b).
    assert (e' = e + Zpos p) as -> by (unfold e'; lia).
    split; [reflexivity|].
    rewrite shr_iter_m by (rewrite shr_record_of_loc_m; exact Hm).
    rewrite shr_record_of_loc_m. f_equal. f_equal. lia.
  - assert (e' = e) as -> by (unfold e'; lia).
    rewrite shr_record_of_loc_m, Z.sub_diag, Z.div_1_r. auto.
Qed.

Lemma round_nearest_even_bounds m l :
  m <= round_nearest_even m l <= m + 1.
Proof.
  unfold round_nearest_even.
  change (IntDef.Z.add ?a ?b) with (a + b).
  destruct l as [| []]; try lia. destruct (Z.even m); lia.
Qed.

(** What [binary_round_aux] returns on a non-negative mantissa: the
    mantissa is shifted down to the format's exponent, moved up by at
    most one by the rounding, and shifted once more if that took it out
    of the format. *)
Lemma round_aux_shape s m e l :
  0 <= m ->
  exists m2 m3,
    let e1 := Z.max e (fexp64 (Zdigits2 m + e)) in
    let e2 := Z.max e1 (fexp64 (Zdigits2 m2 + e1)) in
    m / 2 ^ (e1 - e) <= m2 <= m / 2 ^ (e1 - e) + 1 /\
    m3 = m2 / 2 ^ (e2 - e1) /\
    binary_round_aux F64.prec F64.emax s m e l =
    match m3 with
    | Z0 => S754_zero s
    | Zpos p => if e2 <=? 971 then S754_finite s p e2 else S754_infinity s
    | Zneg _ => S754_nan
    end.
Proof.
  intros Hm. unfold binary_round_aux.
  pose proof (shr_fexp_m m e l Hm) as [E1 M1].
  destruct (shr_fexp F64.prec F64.emax m e l) as [mrs' e1] eqn:S1.
  cbn [fst snd] in E1, M1.
  set (m2 := round_nearest_even (shr_m mrs') (loc_of_shr_record mrs')).
  assert (B : shr_m mrs' <= m2 <= shr_m mrs' + 1)
    by apply round_nearest_even_bounds.
  assert (H1 : 0 <= shr_m mrs').
  { rewrite M1. apply Z.div_pos; [lia|]. apply Z.pow_pos_nonneg; lia. }
  assert (H2 : 0 <= m2) by lia.
  pose proof (shr_fexp_m m2 e1 loc_Exact H2) as [E2 M2].
  destruct (shr_fexp F64.prec F64.emax m2 e1 loc_Exact) as [mrs'' e2] eqn:S2.
  cbn [fst snd] in E2, M2.
  exists m2, (shr_m mrs''). cbn zeta.
  rewrite <- M1, <- E1. split; [exact B|].
  split; [exact M2|].
  rewrite <- E2. reflexivity.
Qed.

(** A rounded result is never NaN. *)
Lemma round_aux_not_nan s m e l :
  0 <= m -> binary_round_aux F64.prec F64.emax s m e l <> S754_nan.
Proof.
  intros Hm. destruct (round_aux_shape s m e l Hm) as (m2 & m3 & B & M3 & ->).
  cbn zeta in *.
  assert (0 <= m3).
  { rewrite M3. apply Z.div_pos; [| apply Z.pow_pos_nonneg; lia].
    assert (0 <= m / 2 ^ (Z.max e (fexp64 (Zdigits2 m + e)) - e)).
    { apply Z.div_pos; [lia|]. apply Z.pow_pos_nonneg; lia. }
    lia. }
  destruct m3 as [| p | p]; try lia; try discriminate.
  destruct (_ <=? 971); discriminate.
Qed.

(** A result whose exact value lies in the normal range is a finite
    number or an infinity of the given sign, never a zero. *)
Lemma round_aux_nonzero s m e l :
  0 < m -> -1074 <= Zdigits2 m + e - 53 ->
  (exists p e', binary_round_aux F64.prec F64.emax s m e l = S754_finite s p e')
  \/ binary_round_aux F64.prec F64.emax s m e l = S754_infinity s.
Proof.
  intros Hm Hn.
  destruct (round_aux_shape s m e l ltac:(lia)) as (m2 & m3 & B & M3 & ->).
  cbn zeta in *.
  set (e1 := Z.max e (fexp64 (Zdigits2 m + e))) in *.
  pose proof (Zdigits2_bounds m Hm) as [Dlo Dhi].
  assert (H1 : 1 <= m / 2 ^ (e1 - e)).
  { unfold e1, fexp64.
    destruct (Z_le_gt_dec (Zdigits2 m) 53) as [Hd | Hd].
    - replace (Z.max e (Z.max (Zdigits2 m + e - 53) (-1074)) - e) with 0 by lia.
      rewrite Z.div_1_r. lia.
    - replace (Z.max e (Z.max (Zdigits2 m + e - 53) (-1074)) - e)
        with (Zdigits2 m - 53) by lia.
      apply Z.div_le_lower_bound; [apply Z.pow_pos_nonneg; lia|].
      eapply Z.le_trans; [| exact Dlo].
      rewrite Z.mul_1_r. apply Z.pow_le_mono_r; lia. }
  assert (H2 : 1 <= m2) by lia.
  pose proof (Zdigits2_bounds m2 ltac:(lia)) as [Elo Ehi].
  assert (He1 : -1074 <= e1) by (unfold e1, fexp64; lia).
  assert (H3 : 1 <= m3).
  { rewrite M3. unfold fexp64.
    destruct (Z_le_gt_dec (Zdigits2 m2) 53) as [Hd | Hd].
    - replace (Z.max e1 (Z.max (Zdigits2 m2 + e1 - 53) (-1074)) - e1) with 0 by lia.
      rewrite Z.div_1_r. lia.
    - replace (Z.max e1 (Z.max (Zdigits2 m2 + e1 - 53) (-1074)) - e1)
        with (Zdigits2 m2 - 53) by lia.
      apply Z.div_le_lower_bound; [apply Z.pow_pos_nonneg; lia|].
      eapply Z.le_trans; [| exact Elo].
      rewrite Z.mul_1_r. apply Z.pow_le_mono_r; lia. }
  destruct m3 as [| p | p]; try lia.
  destruct (_ <=? 971); [left; eauto | right; reflexivity].
Qed.

(** A result is finite when the exponents stay low enough. *)
Lemma round_aux_finite s m e l k :
  0 <= m -> m < 2 ^ k -> 0 <= k -> k + e <= 1023 -> e <= 970 ->
  F64.is_finite (binary_round_aux F64.prec F64.emax s m e l) = true.
Proof.
  intros Hm Hk Hk0 Hke He.
  destruct (round_aux_shape s m e l Hm) as (m2 & m3 & B & M3 & ->).
  cbn zeta in *.
  set (e1 := Z.max e (fexp64 (Zdigits2 m + e))) in *.
  assert (D : Zdigits2 m <= k) by (apply Zdigits2_le; lia).
  assert (P : 0 < 2 ^ (e1 - e)) by (apply Z.pow_pos_nonneg; unfold e1; lia).
  assert (H1 : 0 <= m / 2 ^ (e1 - e)) by (apply Z.div_pos; lia).
  assert (H1' : (e1 - e <= k /\ m / 2 ^ (e1 - e) < 2 ^ (k - (e1 - e)))
                \/ k < e1 - e).
  { destruct (Z_le_gt_dec (e1 - e) k) as [Hle | Hgt]; [left | right; lia].
    split; [exact Hle|].
    apply Z.div_lt_upper_bound; [exact P|].
    rewrite <- Z.pow_add_r by (unfold e1; lia).
    replace (e1 - e + (k - (e1 - e))) with k by lia. exact Hk. }
  assert (D2 : Zdigits2 m2 + e1 <= Z.max (k + e + 1) (e1 + 1)).
  { destruct H1' as [[Hle Hlt] | Hgt].
    - assert (Zdigits2 m2 <= k - (e1 - e) + 1).
      { apply Zdigits2_le; [lia | lia |].
        rewrite Z.pow_add_r by lia. change (2 ^ 1) with 2. lia. }
      lia.
    - assert (m / 2 ^ (e1 - e) = 0).
      { apply Z.div_small. split; [lia|].
        eapply Z.lt_le_trans; [exact Hk|]. apply Z.pow_le_mono_r; lia. }
      assert (Zdigits2 m2 <= 1).
      { apply Zdigits2_le; [lia | lia | change (2 ^ 1) with 2; lia]. }
      lia. }
  assert (E1 : e1 <= 970) by (unfold e1, fexp64; lia).
  assert (E2 : Z.max e1 (fexp64 (Zdigits2 m2 + e1)) <= 971)
    by (unfold fexp64; lia).
  destruct m3 as [| p | p]; try reflexivity.
  - apply Z.leb_le in E2. rewrite E2. reflexivity.
  - exfalso.
    assert (0 <= m2 / 2 ^ (Z.max e1 (fexp64 (Zdigits2 m2 + e1)) - e1)).
    { apply Z.div_pos; [lia|]. apply Z.pow_pos_nonneg; lia. }
    lia.
Qed.

Lemma of_Z_zero : F64.of_Z 0 = S754_zero false.
Proof. reflexivity. Qed.

(** [float(n)] of a positive integer is a positive number or the
    positive infinity. *)
Lemma of_Z_pos p :
  (exists m e, F64.of_Z (Zpos p) = S754_finite false m e) \/
  F64.of_Z (Zpos p) = S754_infinity false.
Proof.
  unfold F64.of_Z, binary_normalize, binary_round.
  rewrite fexp_fexp64.
  change (IntDef.Z.add (Zpos (digits2_pos p)) 0) with (Zpos (digits2_pos p) + 0).
  pose proof (digits2_pos_bounds p) as _.
  unfold shl_align.
  change (IntDef.Z.sub ?a ?b) with (a - b).
  assert (D : 1 <= Zpos (digits2_pos p)) by lia.
  destruct (fexp64 (Zpos (digits2_pos p) + 0) - 0) as [| d | d] eqn:Ed.
  - apply round_aux_nonzero; [lia|]. cbn [Zdigits2]. lia.
  - apply round_aux_nonzero; [lia|]. cbn [Zdigits2]. lia.
  - apply round_aux_nonzero; [lia|]. cbn [Zdigits2].
    assert (1 <= Zpos (digits2_pos (Pos.iter xO p d))) by lia.
    unfold fexp64 in *. lia.
Qed.

Lemma ratio_of_zero n : (0 < n)%nat -> ratio_of 0 n = F64.zero.
Proof.
  intros Hn. unfold ratio_of. cbn [Z.of_nat]. rewrite of_Z_zero.
  destruct n as [| n]; [lia|]. cbn [Z.of_nat].
  destruct (of_Z_pos (Pos.of_succ_nat n)) as [(m & e & ->) | ->]; reflexivity.
Qed.

(** A valid float in [0, 1] times 255 is a finite float. *)
Lemma mul_255_finite x :
  F64.valid x = true ->
  F64.leb (F64.of_Z 0) x = true -> F64.leb x (F64.of_Z 1) = true ->
  F64.is_finite (F64.mul (F64.of_Z 255) x) = true.
Proof.
  intros V L0 L1.
  change (F64.of_Z 255) with f255. change (F64.of_Z 1) with F64.one in L1.
  change (F64.of_Z 0) with F64.zero in L0.
  destruct x as [s | s | | s m e].
  - reflexivity.
  - destruct s; discriminate.
  - discriminate L0.
  - destruct s; [discriminate L0|].
    destruct (valid_finite _ _ _ V) as (R & U & _).
    assert (E : e <= -52).
    { unfold F64.leb, SFleb, F64.one in L1. cbn [SFcompare] in L1.
      destruct (Z.compare_spec e (-52)); try lia; discriminate L1. }
    unfold F64.mul, SFmul, f255. cbn [xorb].
    change (IntDef.Z.add ?a ?b) with (a + b).
    apply (round_aux_finite _ _ _ _ 106).
    + lia.
    + rewrite Pos2Z.inj_mul.
      change (2 ^ 106) with (2 ^ 53 * 2 ^ 53).
      apply Z.mul_lt_mono_nonneg; [lia | reflexivity | lia | exact U].
    + lia.
    + lia.
    + lia.
Qed.

(** ** Binary64: exact values *)

Lemma pow2_pos (e : Z) : (0 < 2 ^ e)%Q.
Proof. apply Qpower_0_lt. reflexivity. Qed.

Lemma pow2_add (a b : Z) : (2 ^ (a + b)%Z == 2 ^ a * 2 ^ b)%Q.
Proof. apply Qpower_plus. discriminate. Qed.

Lemma pow2_le (a b : Z) : a <= b -> (2 ^ a <= 2 ^ b)%Q.
Proof. intros H. apply Qpower_le_compat_l; [exact H | discriminate]. Qed.

Lemma pow2_succ (a : Z) : (2 ^ (a + 1)%Z == 2 * 2 ^ a)%Q.
Proof. rewrite pow2_add. change (2 ^ 1)%Q with 2%Q. ring. Qed.

Lemma pow2_inject (n : Z) : 0 <= n -> (inject_Z (2 ^ n)%Z == 2 ^ n)%Q.
Proof. intros H. exact (Zpower_Qpower 2 n H). Qed.

(** The value of a number is its mantissa times two to its exponent,
    with its sign. *)
Lemma to_Q_finite s m e :
  (F64.to_Q (S754_finite s m e) ==
   (if s then -1 else 1) * (inject_Z (Zpos m) * 2 ^ e))%Q.
Proof.
  assert (P : ((match e with
                | Zneg k => Qmake (Zpos m) (2 ^ k)
                | _ => inject_Z (Z.shiftl (Zpos m) e)
                end) == inject_Z (Zpos m) * 2 ^ e)%Q).
  { destruct e as [| k | k].
    - cbn [Z.shiftl]. change (2 ^ 0)%Q with 1%Q. ring.
    - rewrite Z.shiftl_mul_pow2 by lia.
      rewrite inject_Z_mult, pow2_inject by lia. reflexivity.
    - change (Zneg k) with (- Zpos k). rewrite Qpower_opp.
      rewrite <- pow2_inject by lia.
      rewrite (Qmake_Qdiv (Zpos m) (2 ^ k)).
      rewrite Pos2Z.inj_pow. reflexivity. }
  unfold F64.to_Q. cbv zeta. destruct s; rewrite P; ring.
Qed.

(** ** Binary64: how far a rounded result is from the exact value *)

Lemma fexp64_mono a b : a <= b -> fexp64 a <= fexp64 b.
Proof. unfold fexp64. lia. Qed.

(** A mantissa that already fits the format is returned as it is. *)
Lemma round_aux_exact s m e :
  0 <= m -> fexp64 (Zdigits2 m + e) <= e ->
  binary_round_aux F64.prec F64.emax s m e loc_Exact =
  match m with
  | Z0 => S754_zero s
  | Zpos p => if e <=? 971 then S754_finite s p e else S754_infinity s
  | Zneg _ => S754_nan
  end.
Proof.
  intros Hm Hf.
  assert (S : shr_fexp F64.prec F64.emax m e loc_Exact =
              (shr_record_of_loc m loc_Exact, e)).
  { unfold shr_fexp. rewrite fexp_fexp64.
    change (IntDef.Z.sub ?a ?b) with (a - b).
    change (IntDef.Z.add ?a ?b) with (a + b).
    unfold shr.
    destruct (fexp64 (Zdigits2 m + e) - e) as [| p | p] eqn:En;
      [reflexivity | lia | reflexivity]. }
  unfold binary_round_aux. rewrite S.
  cbn [shr_record_of_loc shr_m loc_of_shr_record round_nearest_even].
  rewrite S. cbn [shr_record_of_loc shr_m]. reflexivity.
Qed.

Lemma Zdigits2_div m n :
  0 <= m -> 0 <= n -> Zdigits2 (m / 2 ^ n) <= Z.max (Zdigits2 m - n) 0.
Proof.
  intros Hm Hn.
  assert (P : 0 < 2 ^ n) by (apply Z.pow_pos_nonneg; lia).
  assert (Q : 0 <= m / 2 ^ n) by (apply Z.div_pos; lia).
  destruct (Z.eq_dec m 0) as [-> | Hz].
  { rewrite Z.div_0_l by lia. cbn. lia. }
  pose proof (Zdigits2_bounds m ltac:(lia)) as [_ Hhi].
  pose proof (Zdigits2_nonneg m) as Hd.
  destruct (Z_le_gt_dec n (Zdigits2 m)) as [Hle | Hgt].
  - apply Z.le_trans with (Zdigits2 m - n); [| lia].
    apply Zdigits2_le; [exact Q | lia |].
    apply Z.div_lt_upper_bound; [exact P|].
    rewrite <- Z.pow_add_r by lia.
    replace (n + (Zdigits2 m - n)) with (Zdigits2 m) by lia. exact Hhi.
  - assert (m / 2 ^ n = 0) as ->.
    { apply Z.div_small. split; [lia|].
      eapply Z.lt_le_trans; [exact Hhi|]. apply Z.pow_le_mono_r; lia. }
    cbn. lia.
Qed.

Lemma Zdigits2_succ m : 0 <= m -> Zdigits2 (m + 1) <= Zdigits2 m + 1.
Proof.
  intros Hm. pose proof (Zdigits2_nonneg m) as Hd.
  apply Zdigits2_le; [lia | lia |].
  rewrite Z.pow_add_r by lia. change (2 ^ 1) with 2.
  destruct (Z.eq_dec m 0) as [-> | Hz]; [cbn; lia|].
  pose proof (Zdigits2_bounds m ltac:(lia)) as [Hlo Hhi]. lia.
Qed.

Lemma Zdigits2_mono a b : 0 <= a <= b -> Zdigits2 a <= Zdigits2 b.
Proof.
  intros [Ha Hab]. pose proof (Zdigits2_nonneg b) as Hd.
  destruct (Z.eq_dec b 0) as [-> | Hz].
  { replace a with 0 by lia. lia. }
  pose proof (Zdigits2_bounds b ltac:(lia)) as [_ Hhi].
  apply Zdigits2_le; lia.
Qed.

(** The two shifts of [binary_round_aux] in numbers: the result is
    [m3 * 2^e2], within [2^e1] above and [2^e1 + 2^e2] below the shifted
    mantissa, where [e1] is the exponent the format gives the input and
    [e2] is [e1] or one more. *)
Lemma round_aux_bounds s m e l :
  0 <= m ->
  exists m3 e2,
    let e1 := Z.max e (fexp64 (Zdigits2 m + e)) in
    e1 <= e2 <= e1 + 1 /\ 0 <= m3 /\
    m3 * 2 ^ (e2 - e) <= m + 2 ^ (e1 - e) /\
    m - 2 ^ (e1 - e) - 2 ^ (e2 - e) < m3 * 2 ^ (e2 - e) /\
    binary_round_aux F64.prec F64.emax s m e l =
    match m3 with
    | Z0 => S754_zero s
    | Zpos p => if e2 <=? 971 then S754_finite s p e2 else S754_infinity s
    | Zneg _ => S754_nan
    end.
Proof.
  intros Hm.
  destruct (round_aux_shape s m e l Hm) as (m2 & m3 & B & M3 & E).
  cbn zeta in *.
  set (e1 := Z.max e (fexp64 (Zdigits2 m + e))) in *.
  set (e2 := Z.max e1 (fexp64 (Zdigits2 m2 + e1))) in *.
  exists m3, e2.
  assert (P1 : 0 < 2 ^ (e1 - e)) by (apply Z.pow_pos_nonneg; unfold e1; lia).
  assert (P2 : 0 < 2 ^ (e2 - e1)) by (apply Z.pow_pos_nonneg; unfold e2; lia).
  set (m1 := m / 2 ^ (e1 - e)) in *.
  assert (H1 : 0 <= m1) by (apply Z.div_pos; lia).
  assert (D1 : fexp64 (Zdigits2 m1 + e1) <= e1).
  { pose proof (Zdigits2_div m (e1 - e) Hm ltac:(unfold e1; lia)) as D.
    fold m1 in D.
    destruct (Z_le_gt_dec (Zdigits2 m1 + e1) (Zdigits2 m + e)) as [Hle | Hgt].
    - apply Z.le_trans with (fexp64 (Zdigits2 m + e));
        [apply fexp64_mono; exact Hle | unfold e1; lia].
    - pose proof (Zdigits2_nonneg m1) as N1.
      assert (Z0 : Zdigits2 m1 = 0) by lia.
      rewrite Z0. unfold e1, fexp64. lia. }
  assert (D2 : fexp64 (Zdigits2 m2 + e1) <= e1 + 1).
  { apply Z.le_trans with (fexp64 (Zdigits2 m1 + 1 + e1)).
    - apply fexp64_mono.
      assert (Zdigits2 m2 <= Zdigits2 m1 + 1); [| lia].
      apply Z.le_trans with (Zdigits2 (m1 + 1));
        [apply Zdigits2_mono; lia | apply Zdigits2_succ; lia].
    - unfold fexp64 in *. lia. }
  assert (E12 : e1 <= e2 <= e1 + 1) by (unfold e2; lia).
  assert (H3 : 0 <= m3) by (rewrite M3; apply Z.div_pos; lia).
  assert (Q : 2 ^ (e2 - e) = 2 ^ (e2 - e1) * 2 ^ (e1 - e)).
  { rewrite <- Z.pow_add_r by (unfold e1 in *; lia). f_equal. lia. }
  pose proof (Z.mul_div_le m2 (2 ^ (e2 - e1)) P2) as L3.
  pose proof (Z.mul_succ_div_gt m2 (2 ^ (e2 - e1)) P2) as U3.
  rewrite <- M3 in L3, U3.
  pose proof (Z.mul_div_le m (2 ^ (e1 - e)) P1) as L1.
  pose proof (Z.mul_succ_div_gt m (2 ^ (e1 - e)) P1) as U1.
  fold m1 in L1, U1.
  split; [exact E12|]. split; [exact H3|].
  rewrite Q.
  set (A := 2 ^ (e1 - e)) in *. set (B' := 2 ^ (e2 - e1)) in *.
  split; [nia|]. split; [nia|]. exact E.
Qed.

Lemma inject_scale (m k e : Z) :
  0 <= k -> (inject_Z (m * 2 ^ k) * 2 ^ e == inject_Z m * 2 ^ (k + e)%Z)%Q.
Proof.
  intros Hk. rewrite inject_Z_mult, pow2_inject, pow2_add by exact Hk. ring.
Qed.

Lemma inject_pow_scale (k e : Z) :
  0 <= k -> (inject_Z (2 ^ k) * 2 ^ e == 2 ^ (k + e)%Z)%Q.
Proof.
  intros Hk. rewrite pow2_inject, pow2_add by exact Hk. ring.
Qed.

Lemma scale_le (a b e : Z) :
  a <= b -> (inject_Z a * 2 ^ e <= inject_Z b * 2 ^ e)%Q.
Proof.
  intros H. apply Qmult_le_compat_r.
  - rewrite <- Zle_Qle. exact H.
  - apply Qlt_le_weak, pow2_pos.
Qed.

Lemma scale_lt (a b e : Z) :
  a < b -> (inject_Z a * 2 ^ e < inject_Z b * 2 ^ e)%Q.
Proof.
  intros H. apply Qmult_lt_compat_r.
  - apply pow2_pos.
  - rewrite <- Zlt_Qlt. exact H.
Qed.

(** The value of a rounded result.  [K] bounds the magnitude, and the
    error is at most three units of [2^(K-53)] downwards and one upwards;
    with an inexact location the bound holds when the exponent is at most
    [K - 53]. *)
Lemma round_aux_value s m e l K :
  0 <= m -> m < 2 ^ (K - e) -> -1021 <= K <= 970 ->
  l = loc_Exact \/ e <= K - 53 ->
  F64.is_finite (binary_round_aux F64.prec F64.emax s m e l) = true /\
  exists R : Q,
    (F64.to_Q (binary_round_aux F64.prec F64.emax s m e l)
     == (if s then -1 else 1) * R)%Q /\
    (0 <= R)%Q /\
    (inject_Z m * 2 ^ e - 3 * 2 ^ (K - 53)%Z <= R)%Q /\
    (R <= inject_Z m * 2 ^ e + 2 ^ (K - 53)%Z)%Q.
Proof.
  intros Hm Hk HK Hl.
  assert (Ke : e <= K).
  { destruct (Z_le_gt_dec e K) as [H | H]; [exact H | exfalso].
    rewrite Z.pow_neg_r in Hk by lia. lia. }
  pose proof (pow2_pos (K - 53)) as Pe.
  assert (D : Zdigits2 m + e <= K).
  { assert (Zdigits2 m <= K - e) by (apply Zdigits2_le; lia). lia. }
  assert (C : (l = loc_Exact /\ fexp64 (Zdigits2 m + e) <= e) \/
              Z.max e (fexp64 (Zdigits2 m + e)) <= K - 53).
  { destruct Hl as [-> | He].
    - destruct (Z_le_gt_dec (fexp64 (Zdigits2 m + e)) e) as [H | H];
        [left; auto | right]. unfold fexp64 in *. lia.
    - right. unfold fexp64. lia. }
  destruct C as [[-> Hf] | He1].
  - rewrite (round_aux_exact s m e Hm Hf).
    destruct m as [| p | p]; [| | lia].
    + split; [reflexivity|]. exists 0%Q.
      split; [cbn [F64.to_Q]; ring|].
      change (inject_Z 0) with 0%Q. repeat split; lra.
    + assert ((e <=? 971) = true) as -> by (apply Z.leb_le; lia).
      split; [reflexivity|]. exists (inject_Z (Zpos p) * 2 ^ e)%Q.
      split; [apply to_Q_finite|].
      assert (0 <= inject_Z (Zpos p) * 2 ^ e)%Q.
      { apply Qmult_le_0_compat; [| apply Qlt_le_weak, pow2_pos].
        change 0%Q with (inject_Z 0). rewrite <- Zle_Qle. lia. }
      repeat split; lra.
  - destruct (round_aux_bounds s m e l Hm) as (m3 & e2 & B).
    cbn zeta in B.
    set (e1 := Z.max e (fexp64 (Zdigits2 m + e))) in *.
    destruct B as (E12 & H3 & U & L & ->).
    assert (Ee : e <= e1) by (unfold e1; lia).
    apply (scale_le _ _ e) in U. apply (scale_lt _ _ e) in L.
    rewrite inject_Z_plus, Qmult_plus_distr_l in U.
    rewrite inject_scale in U, L by lia.
    rewrite inject_pow_scale in U by lia.
    unfold Z.sub in L at 1 2.
    rewrite !inject_Z_plus, !inject_Z_opp, !Qmult_plus_distr_l in L.
    setoid_replace (- inject_Z (2 ^ (e1 - e)) * 2 ^ e)%Q
      with (- (inject_Z (2 ^ (e1 - e)) * 2 ^ e))%Q in L by ring.
    setoid_replace (- inject_Z (2 ^ (e2 - e)) * 2 ^ e)%Q
      with (- (inject_Z (2 ^ (e2 - e)) * 2 ^ e))%Q in L by ring.
    rewrite !inject_pow_scale in L by lia.
    replace (e2 - e + e) with e2 in U, L by lia.
    replace (e1 - e + e) with e1 in U, L by lia.
    pose proof (pow2_le e1 (K - 53) He1) as Q1.
    pose proof (pow2_le e2 (e1 + 1) ltac:(lia)) as Q2.
    rewrite pow2_succ in Q2.
    assert (F : F64.is_finite
                  match m3 with
                  | 0 => S754_zero s
                  | Zpos p => if e2 <=? 971 then S754_finite s p e2
                              else S754_infinity s
                  | Zneg _ => S754_nan
                  end = true /\
                (F64.to_Q
                  match m3 with
                  | 0%Z => S754_zero s
                  | Zpos p => if e2 <=? 971 then S754_finite s p e2
                              else S754_infinity s
                  | Zneg _ => S754_nan
                  end == (if s then -1 else 1) * (inject_Z m3 * 2 ^ e2))%Q).
    { destruct m3 as [| p | p]; [| | lia].
      - split; [reflexivity|]. cbn [F64.to_Q].
        change (inject_Z 0) with 0%Q. ring.
      - assert ((e2 <=? 971) = true) as -> by (apply Z.leb_le; lia).
        split; [reflexivity | apply to_Q_finite]. }
    destruct F as [F V]. split; [exact F|].
    exists (inject_Z m3 * 2 ^ e2)%Q. split; [exact V|].
    assert (0 <= inject_Z m3 * 2 ^ e2)%Q.
    { apply Qmult_le_0_compat; [| apply Qlt_le_weak, pow2_pos].
      change 0%Q with (inject_Z 0). rewrite <- Zle_Qle. exact H3. }
    repeat split; lra.
Qed.

(** From a bound on the value to a bound on the mantissa. *)
Lemma mantissa_bound (m e K : Z) :
  0 < m -> (inject_Z m * 2 ^ e < 2 ^ K)%Q -> m < 2 ^ (K - e).
Proof.
  intros Hm H.
  assert (E : (2 ^ K == 2 ^ (K - e)%Z * 2 ^ e)%Q).
  { rewrite <- pow2_add. replace (K - e + e) with K by lia. reflexivity. }
  rewrite E in H.
  assert (L : (inject_Z m < 2 ^ (K - e)%Z)%Q).
  { pose proof (pow2_pos e) as P.
    destruct (Qlt_le_dec (inject_Z m) (2 ^ (K - e)%Z)) as [Y | N];
      [exact Y | exfalso].
    apply (Qmult_le_compat_r _ _ (2 ^ e)) in N; [| lra]. lra. }
  destruct (Z_le_gt_dec 0 (K - e)) as [Hp | Hn].
  - rewrite <- pow2_inject in L by exact Hp. rewrite <- Zlt_Qlt in L. exact L.
  - exfalso.
    assert ((2 ^ (K - e)%Z <= 2 ^ 0)%Q) as B by (apply pow2_le; lia).
    change (2 ^ 0)%Q with 1%Q in B.
    assert (1 <= inject_Z m)%Q.
    { change 1%Q with (inject_Z 1). rewrite <- Zle_Qle. lia. }
    lra.
Qed.

Lemma iter_xO_value m d : Zpos (Pos.iter xO m d) = Zpos m * 2 ^ Zpos d.
Proof.
  induction d as [| d IH] using Pos.peano_ind.
  - cbn [Pos.iter]. change (2 ^ 1) with 2. lia.
  - rewrite Pos.iter_succ, Pos2Z.inj_xO, IH, Pos2Z.inj_succ.
    rewrite Z.pow_succ_r by lia. ring.
Qed.

(** [shl_align] lowers the exponent without changing the value. *)
Lemma shl_align_value m e e' :
  let '(mz, ez) := shl_align m e e' in
  ez = Z.min e e' /\ Zpos mz = Zpos m * 2 ^ (e - ez).
Proof.
  unfold shl_align. change (IntDef.Z.sub ?a ?b) with (a - b).
  destruct (e' - e) as [| d | d] eqn:E.
  - split; [lia|]. rewrite Z.sub_diag. lia.
  - split; [lia|]. rewrite Z.sub_diag. lia.
  - split; [lia|]. rewrite iter_xO_value. f_equal. f_equal. lia.
Qed.

Lemma shl_align_fst m e e' :
  e' <= e -> Zpos (fst (shl_align m e e')) = Zpos m * 2 ^ (e - e').
Proof.
  intros H. pose proof (shl_align_value m e e') as V.
  destruct (shl_align m e e') as [mz ez]. destruct V as [-> V].
  cbn [fst]. rewrite V. f_equal. f_equal. lia.
Qed.

(** The value of [binary_round]: as for [binary_round_aux], from the
    mantissa and exponent given. *)
Lemma binary_round_value s p e K :
  (inject_Z (Zpos p) * 2 ^ e < 2 ^ K)%Q -> -1021 <= K <= 970 ->
  F64.is_finite (binary_round F64.prec F64.emax s p e) = true /\
  exists R : Q,
    (F64.to_Q (binary_round F64.prec F64.emax s p e)
     == (if s then -1 else 1) * R)%Q /\
    (0 <= R)%Q /\
    (inject_Z (Zpos p) * 2 ^ e - 3 * 2 ^ (K - 53)%Z <= R)%Q /\
    (R <= inject_Z (Zpos p) * 2 ^ e + 2 ^ (K - 53)%Z)%Q.
Proof.
  intros Hv HK. unfold binary_round.
  pose proof (shl_align_value p e
                (fexp F64.prec F64.emax (IntDef.Z.add (Zpos (digits2_pos p)) e)))
    as V.
  destruct (shl_align p e _) as [mz ez]. destruct V as [Ez Vz].
  assert (Q : (inject_Z (Zpos mz) * 2 ^ ez == inject_Z (Zpos p) * 2 ^ e)%Q).
  { rewrite Vz, inject_scale by lia.
    replace (e - ez + ez) with e by lia. reflexivity. }
  rewrite <- Q in Hv.
  destruct (round_aux_value s (Zpos mz) ez loc_Exact K)
    as (F & R & V & R0 & L & U);
    [lia | apply mantissa_bound; [lia | exact Hv] | exact HK
    | left; reflexivity |].
  split; [exact F|]. exists R. rewrite Q in L, U. auto.
Qed.

(** A mantissa that fits the format at its exponent is kept. *)
Lemma binary_round_exact s p e :
  fexp64 (Zpos (digits2_pos p) + e) <= e -> e <= 971 ->
  exists mz ez,
    binary_round F64.prec F64.emax s p e = S754_finite s mz ez /\
    (inject_Z (Zpos mz) * 2 ^ ez == inject_Z (Zpos p) * 2 ^ e)%Q.
Proof.
  intros Hf He. unfold binary_round. rewrite fexp_fexp64.
  change (IntDef.Z.add ?a ?b) with (a + b).
  pose proof (shl_align_value p e (fexp64 (Zpos (digits2_pos p) + e))) as V.
  destruct (shl_align p e _) as [mz ez]. destruct V as [Ez Vz].
  assert (Ez' : ez = fexp64 (Zpos (digits2_pos p) + e)) by lia.
  assert (Q : (inject_Z (Zpos mz) * 2 ^ ez == inject_Z (Zpos p) * 2 ^ e)%Q).
  { rewrite Vz, inject_scale by lia.
    replace (e - ez + ez) with e by lia. reflexivity. }
  exists mz, ez. split; [| exact Q].
  rewrite round_aux_exact; [| lia |].
  - assert ((ez <=? 971) = true) as -> by (apply Z.leb_le; lia). reflexivity.
  - pose proof (digits2_pos_bounds p) as [_ Hhi].
    assert (D : Zdigits2 (Zpos mz) <= Zpos (digits2_pos p) + (e - ez)).
    { apply Zdigits2_le; [lia | lia |].
      rewrite Vz, Z.pow_add_r by lia.
      apply Z.mul_lt_mono_pos_r; [apply Z.pow_pos_nonneg; lia | exact Hhi]. }
    apply Z.le_trans with (fexp64 (Zpos (digits2_pos p) + e));
      [apply fexp64_mono; lia | lia].
Qed.

(** [float(n)] is exact for [0 <= n < 2^53], and not negative. *)
Lemma of_Z_exact n :
  0 <= n < 2 ^ 53 ->
  F64.is_finite (F64.of_Z n) = true /\
  (F64.to_Q (F64.of_Z n) == inject_Z n)%Q /\
  (n = 0 \/ exists m e, F64.of_Z n = S754_finite false m e).
Proof.
  intros [H0 H1]. destruct n as [| p | p]; [| | lia].
  - split; [reflexivity|]. split; [reflexivity | left; reflexivity].
  - unfold F64.of_Z, binary_normalize.
    destruct (binary_round_exact false p 0) as (mz & ez & -> & Q).
    + pose proof (digits2_pos_bounds p) as [Hlo _].
      assert (Zpos (digits2_pos p) <= 53).
      { destruct (Z_le_gt_dec (Zpos (digits2_pos p)) 53) as [Y | N];
          [exact Y | exfalso].
        assert (2 ^ 53 <= 2 ^ (Zpos (digits2_pos p) - 1))
          by (apply Z.pow_le_mono_r; lia).
        lia. }
      unfold fexp64. lia.
    + lia.
    + split; [reflexivity|]. split; [| right; eauto].
      rewrite to_Q_finite, Q. change (2 ^ 0)%Q with 1%Q. ring.
Qed.

(** [binary_normalize] of an integer mantissa, of either sign. *)
Lemma normalize_value (D e K : Z) :
  -1021 <= K <= 970 ->
  (- 2 ^ K < inject_Z D * 2 ^ e)%Q -> (inject_Z D * 2 ^ e < 2 ^ K)%Q ->
  F64.is_finite (binary_normalize F64.prec F64.emax D e false) = true /\
  (inject_Z D * 2 ^ e - 3 * 2 ^ (K - 53)%Z
   <= F64.to_Q (binary_normalize F64.prec F64.emax D e false))%Q /\
  (F64.to_Q (binary_normalize F64.prec F64.emax D e false)
   <= inject_Z D * 2 ^ e + 3 * 2 ^ (K - 53)%Z)%Q.
Proof.
  intros HK Lo Hi. pose proof (pow2_pos (K - 53)) as Pe.
  destruct D as [| p | p]; cbn [binary_normalize].
  - split; [reflexivity|]. cbn [F64.to_Q]. change (inject_Z 0) with 0%Q.
    split; lra.
  - destruct (binary_round_value false p e K Hi HK) as (F & R & V & R0 & L & U).
    split; [exact F|]. rewrite V. split; lra.
  - assert (N : (inject_Z (Zneg p) == - inject_Z (Zpos p))%Q).
    { change (Zneg p) with (- Zpos p). rewrite inject_Z_opp. reflexivity. }
    rewrite N in Lo, Hi |- *.
    destruct (binary_round_value true p e K) as (F & R & V & R0 & L & U);
      [lra | exact HK |].
    split; [exact F|]. rewrite V. split; lra.
Qed.

Lemma to_Q_aligned s m e ez :
  ez <= e ->
  (inject_Z (cond_Zopp s (Zpos (fst (shl_align m e ez)))) * 2 ^ ez
   == F64.to_Q (S754_finite s m e))%Q.
Proof.
  intros H. rewrite shl_align_fst, to_Q_finite by exact H.
  destruct s; cbn [cond_Zopp].
  - rewrite inject_Z_opp.
    setoid_replace (- inject_Z (Zpos m * 2 ^ (e - ez)) * 2 ^ ez)%Q
      with (- (inject_Z (Zpos m * 2 ^ (e - ez)) * 2 ^ ez))%Q by ring.
    rewrite inject_scale by lia. replace (e - ez + ez) with e by lia. ring.
  - rewrite inject_scale by lia. replace (e - ez + ez) with e by lia. ring.
Qed.

(** Addition: finite when the exact sum is below [2^K] in magnitude, and
    within three units of [2^(K-53)] of it. *)
Lemma add_value x y K :
  F64.is_finite x = true -> F64.is_finite y = true -> -1021 <= K <= 970 ->
  (- 2 ^ K < F64.to_Q x + F64.to_Q y)%Q ->
  (F64.to_Q x + F64.to_Q y < 2 ^ K)%Q ->
  F64.is_finite (F64.add x y) = true /\
  (F64.to_Q x + F64.to_Q y - 3 * 2 ^ (K - 53)%Z <= F64.to_Q (F64.add x y))%Q /\
  (F64.to_Q (F64.add x y) <= F64.to_Q x + F64.to_Q y + 3 * 2 ^ (K - 53)%Z)%Q.
Proof.
  intros Fx Fy HK Lo Hi. pose proof (pow2_pos (K - 53)) as Pe.
  destruct x as [sx | sx | | sx mx ex]; try discriminate Fx;
    destruct y as [sy | sy | | sy my ey]; try discriminate Fy.
  - destruct sx, sy; (split; [reflexivity|]); cbn [F64.add SFadd F64.to_Q];
      split; lra.
  - split; [reflexivity|]. unfold F64.add. cbn [SFadd].
    change (F64.to_Q (S754_zero sx)) with 0%Q. split; lra.
  - split; [reflexivity|]. unfold F64.add. cbn [SFadd].
    change (F64.to_Q (S754_zero sy)) with 0%Q. split; lra.
  - unfold F64.add. cbn [SFadd]. cbv zeta.
    change (IntDef.Z.add ?a ?b) with (a + b).
    set (ez := Z.min ex ey).
    assert (E : (inject_Z (cond_Zopp sx (Zpos (fst (shl_align mx ex ez))) +
                           cond_Zopp sy (Zpos (fst (shl_align my ey ez)))) * 2 ^ ez
                 == F64.to_Q (S754_finite sx mx ex) +
                    F64.to_Q (S754_finite sy my ey))%Q).
    { rewrite inject_Z_plus, Qmult_plus_distr_l.
      rewrite !to_Q_aligned by (unfold ez; lia). reflexivity. }
    rewrite <- E in Lo, Hi |- *.
    apply normalize_value; assumption.
Qed.

(** Subtraction, likewise. *)
Lemma sub_value x y K :
  F64.is_finite x = true -> F64.is_finite y = true -> -1021 <= K <= 970 ->
  (- 2 ^ K < F64.to_Q x - F64.to_Q y)%Q ->
  (F64.to_Q x - F64.to_Q y < 2 ^ K)%Q ->
  F64.is_finite (F64.sub x y) = true /\
  (F64.to_Q x - F64.to_Q y - 3 * 2 ^ (K - 53)%Z <= F64.to_Q (F64.sub x y))%Q /\
  (F64.to_Q (F64.sub x y) <= F64.to_Q x - F64.to_Q y + 3 * 2 ^ (K - 53)%Z)%Q.
Proof.
  intros Fx Fy HK Lo Hi. pose proof (pow2_pos (K - 53)) as Pe.
  destruct x as [sx | sx | | sx mx ex]; try discriminate Fx;
    destruct y as [sy | sy | | sy my ey]; try discriminate Fy.
  - destruct sx, sy; (split; [reflexivity|]); cbn [F64.sub SFsub F64.to_Q];
      split; lra.
  - split; [reflexivity|]. unfold F64.sub. cbn [SFsub].
    change (F64.to_Q (S754_zero sx)) with 0%Q.
    rewrite !to_Q_finite. destruct sy; cbn [negb]; split; lra.
  - split; [reflexivity|]. unfold F64.sub. cbn [SFsub].
    change (F64.to_Q (S754_zero sy)) with 0%Q. split; lra.
  - unfold F64.sub. cbn [SFsub]. cbv zeta.
    change (IntDef.Z.sub ?a ?b) with (a - b).
    set (ez := Z.min ex ey).
    assert (E : (inject_Z (cond_Zopp sx (Zpos (fst (shl_align mx ex ez))) -
                           cond_Zopp sy (Zpos (fst (shl_align my ey ez)))) * 2 ^ ez
                 == F64.to_Q (S754_finite sx mx ex) -
                    F64.to_Q (S754_finite sy my ey))%Q).
    { unfold Z.sub. rewrite inject_Z_plus, inject_Z_opp.
      setoid_replace
        ((inject_Z (cond_Zopp sx (Zpos (fst (shl_align mx ex ez)))) +
          - inject_Z (cond_Zopp sy (Zpos (fst (shl_align my ey ez))))) * 2 ^ ez)%Q
        with (inject_Z (cond_Zopp sx (Zpos (fst (shl_align mx ex ez)))) * 2 ^ ez -
              inject_Z (cond_Zopp sy (Zpos (fst (shl_align my ey ez)))) * 2 ^ ez)%Q
        by ring.
      rewrite !to_Q_aligned by (unfold ez; lia). reflexivity. }
    rewrite <- E in Lo, Hi |- *.
    apply normalize_value; assumption.
Qed.

(** Multiplication, likewise. *)
Lemma mul_value x y K :
  F64.is_finite x = true -> F64.is_finite y = true -> -1021 <= K <= 970 ->
  (- 2 ^ K < F64.to_Q x * F64.to_Q y)%Q ->
  (F64.to_Q x * F64.to_Q y < 2 ^ K)%Q ->
  F64.is_finite (F64.mul x y) = true /\
  (F64.to_Q x * F64.to_Q y - 3 * 2 ^ (K - 53)%Z <= F64.to_Q (F64.mul x y))%Q /\
  (F64.to_Q (F64.mul x y) <= F64.to_Q x * F64.to_Q y + 3 * 2 ^ (K - 53)%Z)%Q.
Proof.
  intros Fx Fy HK Lo Hi. pose proof (pow2_pos (K - 53)) as Pe.
  destruct x as [sx | sx | | sx mx ex]; try discriminate Fx;
    destruct y as [sy | sy | | sy my ey]; try discriminate Fy.
  - split; [reflexivity|]. unfold F64.mul. cbn [SFmul F64.to_Q]. split; lra.
  - split; [reflexivity|]. unfold F64.mul. cbn [SFmul].
    change (F64.to_Q (S754_zero ?s)) with 0%Q. split; lra.
  - split; [reflexivity|]. unfold F64.mul. cbn [SFmul].
    change (F64.to_Q (S754_zero ?s)) with 0%Q. split; lra.
  - unfold F64.mul. cbn [SFmul].
    change (IntDef.Z.add ?a ?b) with (a + b).
    assert (E : (F64.to_Q (S754_finite sx mx ex) * F64.to_Q (S754_finite sy my ey)
                 == (if xorb sx sy then -1 else 1) *
                    (inject_Z (Zpos (mx * my)) * 2 ^ (ex + ey)%Z))%Q).
    { rewrite !to_Q_finite, Pos2Z.inj_mul, inject_Z_mult, pow2_add.
      destruct sx, sy; cbn [xorb]; ring. }
    rewrite E in Lo, Hi |- *.
    set (M := (inject_Z (Zpos (mx * my)) * 2 ^ (ex + ey)%Z)%Q) in *.
    destruct (round_aux_value (xorb sx sy) (Zpos (mx * my)) (ex + ey)
                loc_Exact K) as (F & R & V & R0 & L & U);
      [lia | | exact HK | left; reflexivity |].
    { apply mantissa_bound; [lia|]. fold M.
      destruct (xorb sx sy); lra. }
    fold M in L, U. split; [exact F|]. rewrite V.
    destruct (xorb sx sy); split; lra.
Qed.

Lemma pow2_lt_inv (a b : Z) : (2 ^ a < 2 ^ b)%Q -> a < b.
Proof.
  intros H. destruct (Z_lt_ge_dec a b) as [Y | N]; [exact Y | exfalso].
  pose proof (pow2_le b a ltac:(lia)). lra.
Qed.

Lemma inject_pos p : (0 < inject_Z (Zpos p))%Q.
Proof. change 0%Q with (inject_Z 0). rewrite <- Zlt_Qlt. lia. Qed.

(** The quotient and exponent [SFdiv] hands to the rounding. *)
Lemma div_core mx ex my ey :
  let e' := Z.min (fexp64 (Zpos (digits2_pos mx) + ex - (Zpos (digits2_pos my) + ey)))
                  (ex - ey) in
  exists l,
    SFdiv_core_binary F64.prec F64.emax (Zpos mx) ex (Zpos my) ey =
    (Zpos mx * 2 ^ (ex - ey - e') / Zpos my, e', l).
Proof.
  intros e'. unfold SFdiv_core_binary. rewrite fexp_fexp64.
  cbn [Zdigits2].
  change (IntDef.Z.sub ?a ?b) with (a - b).
  change (IntDef.Z.add ?a ?b) with (a + b).
  change (IntDef.Z.min ?a ?b) with (Z.min a b).
  fold e'.
  assert (S : 0 <= ex - ey - e') by (unfold e'; lia).
  assert (M : match ex - ey - e' with
              | 0 => Zpos mx
              | Zpos _ => Z.shiftl (Zpos mx) (ex - ey - e')
              | Zneg _ => 0
              end = Zpos mx * 2 ^ (ex - ey - e')).
  { destruct (ex - ey - e') as [| p | p] eqn:E; [cbn; lia | | lia].
    apply Z.shiftl_mul_pow2. lia. }
  rewrite M. unfold Z.div.
  destruct (Z.div_eucl (Zpos mx * 2 ^ (ex - ey - e')) (Zpos my)) as [q r].
  eexists. reflexivity.
Qed.

(** Division of two positive numbers: finite when the exact quotient is
    below [2^K], not negative, and within four units of [2^(K-53)] below
    and one above the quotient. *)
Lemma div_value mx ex my ey K :
  -1021 <= K <= 970 ->
  (F64.to_Q (S754_finite false mx ex) / F64.to_Q (S754_finite false my ey)
   < 2 ^ K)%Q ->
  F64.is_finite (F64.div (S754_finite false mx ex) (S754_finite false my ey))
  = true /\
  (0 <= F64.to_Q (F64.div (S754_finite false mx ex) (S754_finite false my ey)))%Q /\
  (F64.to_Q (S754_finite false mx ex) / F64.to_Q (S754_finite false my ey)
   - 4 * 2 ^ (K - 53)%Z
   <= F64.to_Q (F64.div (S754_finite false mx ex) (S754_finite false my ey)))%Q /\
  (F64.to_Q (F64.div (S754_finite false mx ex) (S754_finite false my ey))
   <= F64.to_Q (S754_finite false mx ex) / F64.to_Q (S754_finite false my ey)
      + 2 ^ (K - 53)%Z)%Q.
Proof.
  intros HK Hi. pose proof (pow2_pos (K - 53)) as Pe.
  unfold F64.div. cbn [SFdiv].
  destruct (div_core mx ex my ey) as [l C]. cbv zeta in C. rewrite C.
  cbn [xorb].
  set (d1 := Zpos (digits2_pos mx)) in *. set (d2 := Zpos (digits2_pos my)) in *.
  set (e' := Z.min (fexp64 (d1 + ex - (d2 + ey))) (ex - ey)) in *.
  set (M := Zpos mx * 2 ^ (ex - ey - e')) in *.
  set (q := M / Zpos my) in *.
  assert (S : 0 <= ex - ey - e') by (unfold e'; lia).
  assert (HM : 0 <= M).
  { unfold M. apply Z.mul_nonneg_nonneg; [lia|]. apply Z.pow_nonneg. lia. }
  assert (Hq : 0 <= q) by (apply Z.div_pos; lia).
  (* the operands as rationals *)
  rewrite !to_Q_finite in Hi |- *. rewrite !Qmult_1_l in Hi |- *.
  set (A := inject_Z (Zpos mx)) in *. set (B := inject_Z (Zpos my)) in *.
  pose proof (inject_pos mx) as PA. fold A in PA.
  pose proof (inject_pos my) as PB. fold B in PB.
  pose proof (pow2_pos ex) as Pex. pose proof (pow2_pos ey) as Pey.
  set (X := (A * 2 ^ ex / (B * 2 ^ ey))%Q) in *.
  assert (PY : (0 < B * 2 ^ ey)%Q)
    by (apply Qmult_lt_0_compat; assumption).
  assert (XY : (X * (B * 2 ^ ey) == A * 2 ^ ex)%Q).
  { unfold X. field. split; lra. }
  (* the magnitude of the quotient gives the exponent *)
  pose proof (digits2_pos_bounds mx) as [Lx _]. fold d1 in Lx.
  pose proof (digits2_pos_bounds my) as [_ Uy]. fold d2 in Uy.
  assert (Dd : d1 + ex - (d2 + ey) <= K).
  { assert (D1 : (2 ^ (d1 - 1)%Z <= A)%Q).
    { unfold A. rewrite <- pow2_inject by (unfold d1; lia).
      rewrite <- Zle_Qle. exact Lx. }
    assert (D2 : (B < 2 ^ d2)%Q).
    { unfold B. rewrite <- pow2_inject by (unfold d2; lia).
      rewrite <- Zlt_Qlt. exact Uy. }
    assert (T1 : (2 ^ (d1 - 1 + ex)%Z <= A * 2 ^ ex)%Q).
    { rewrite pow2_add. apply Qmult_le_compat_r; lra. }
    assert (T2 : (X * (B * 2 ^ ey) < 2 ^ (K + (d2 + ey))%Z)%Q).
    { rewrite !pow2_add.
      apply Qlt_trans with (2 ^ K * (B * 2 ^ ey))%Q.
      - apply Qmult_lt_compat_r; assumption.
      - apply Qmult_lt_l; [apply pow2_pos|].
        apply Qmult_lt_compat_r; assumption. }
    rewrite XY in T2.
    assert (T3 : (2 ^ (d1 - 1 + ex)%Z < 2 ^ (K + (d2 + ey))%Z)%Q) by lra.
    apply pow2_lt_inv in T3. lia. }
  assert (He : e' <= K - 53) by (unfold e', fexp64; lia).
  (* the quotient as a rational *)
  assert (IM : (inject_Z M * 2 ^ (e' + ey)%Z == A * 2 ^ ex)%Q).
  { unfold M. rewrite inject_scale by exact S.
    replace (ex - ey - e' + (e' + ey)) with ex by lia. reflexivity. }
  assert (P' : (0 < 2 ^ (e' + ey)%Z)%Q) by apply pow2_pos.
  assert (Py : 0 < Zpos my) by lia.
  pose proof (Z.mul_div_le M (Zpos my) Py) as QL.
  pose proof (Z.mul_succ_div_gt M (Zpos my) Py) as QU.
  fold q in QL, QU.
  assert (QL' : (inject_Z q * 2 ^ e' <= X)%Q).
  { apply (scale_le _ _ (e' + ey)) in QL.
    rewrite IM, inject_Z_mult, pow2_add in QL. fold B in QL.
    unfold X. apply Qle_shift_div_l; [exact PY|].
    setoid_replace (inject_Z q * 2 ^ e' * (B * 2 ^ ey))%Q
      with (B * inject_Z q * (2 ^ e' * 2 ^ ey))%Q by ring.
    exact QL. }
  assert (QU' : (X < inject_Z q * 2 ^ e' + 2 ^ e')%Q).
  { apply (scale_lt _ _ (e' + ey)) in QU.
    rewrite IM, inject_Z_mult, pow2_add in QU. fold B in QU.
    unfold Z.succ in QU. rewrite inject_Z_plus in QU.
    change (inject_Z 1) with 1%Q in QU.
    unfold X. apply Qlt_shift_div_r; [exact PY|].
    setoid_replace ((inject_Z q * 2 ^ e' + 2 ^ e') * (B * 2 ^ ey))%Q
      with (B * (inject_Z q + 1) * (2 ^ e' * 2 ^ ey))%Q by ring.
    exact QU. }
  assert (Hqk : q < 2 ^ (K - e')).
  { destruct (Z.eq_dec q 0) as [-> | Hz];
      [apply Z.pow_pos_nonneg; lia|].
    apply mantissa_bound; [lia | lra]. }
  destruct (round_aux_value false q e' l K Hq Hqk HK (or_intror He))
    as (F & R & V & R0 & L & U).
  pose proof (pow2_le e' (K - 53) He) as Pl.
  split; [exact F|]. rewrite V. repeat split; lra.
Qed.

(** ** Binary64: truncation *)

(** [trunc] is the integer part: toward zero. *)
Lemma trunc_value x :
  F64.is_finite x = true ->
  ((0 <= F64.to_Q x)%Q ->
   (inject_Z (F64.trunc x) <= F64.to_Q x)%Q /\
   (F64.to_Q x < inject_Z (F64.trunc x) + 1)%Q) /\
  ((F64.to_Q x <= 0)%Q ->
   (inject_Z (F64.trunc x) - 1 < F64.to_Q x)%Q /\
   (F64.to_Q x <= inject_Z (F64.trunc x))%Q).
Proof.
  intros F. destruct x as [s | s | | s m e]; try discriminate F.
  - cbn [F64.trunc F64.to_Q]. change (inject_Z 0) with 0%Q. split; intros; lra.
  - rewrite to_Q_finite. cbn [F64.trunc].
    set (V := (inject_Z (Zpos m) * 2 ^ e)%Q).
    set (T := Z.shiftl (Zpos m) e).
    assert (PV : (0 < V)%Q).
    { apply Qmult_lt_0_compat; [apply inject_pos | apply pow2_pos]. }
    assert (B : (inject_Z T <= V)%Q /\ (V < inject_Z T + 1)%Q).
    { unfold T, V. destruct (Z_le_gt_dec 0 e) as [He | He].
      - rewrite Z.shiftl_mul_pow2 by exact He.
        rewrite inject_Z_mult, pow2_inject by exact He. split; lra.
      - rewrite Z.shiftl_div_pow2 by lia.
        assert (P : 0 < 2 ^ (- e)) by (apply Z.pow_pos_nonneg; lia).
        pose proof (Z.mul_div_le (Zpos m) (2 ^ (- e)) P) as L.
        pose proof (Z.mul_succ_div_gt (Zpos m) (2 ^ (- e)) P) as U.
        set (t := Zpos m / 2 ^ (- e)) in *.
        rewrite Z.mul_comm in L, U.
        apply (scale_le _ _ e) in L. apply (scale_lt _ _ e) in U.
        rewrite inject_scale in L, U by lia.
        replace (- e + e) with 0 in L, U by lia.
        change (2 ^ 0)%Q with 1%Q in L, U.
        unfold Z.succ in U. rewrite inject_Z_plus in U.
        change (inject_Z 1) with 1%Q in U. split; lra. }
    destruct B as [BL BU].
    destruct s; cbn [cond_Zopp]; rewrite ?inject_Z_opp; split; intros; lra.
Qed.

(** A finite value strictly between -1 and 256 truncates to a byte. *)
Lemma trunc_byte x :
  F64.is_finite x = true ->
  (-1 < F64.to_Q x)%Q -> (F64.to_Q x < 256)%Q ->
  0 <= F64.trunc x <= 255.
Proof.
  intros F Lo Hi. destruct (trunc_value x F) as [P N].
  destruct (Qlt_le_dec (F64.to_Q x) 0) as [Hn | Hp].
  - destruct (N (Qlt_le_weak _ _ Hn)) as [A B].
    assert (L : (inject_Z (-1) < inject_Z (F64.trunc x))%Q)
      by (change (inject_Z (-1)) with (-1)%Q; lra).
    assert (U : (inject_Z (F64.trunc x) < inject_Z 1)%Q)
      by (change (inject_Z 1) with 1%Q; lra).
    rewrite <- Zlt_Qlt in L, U. lia.
  - destruct (P Hp) as [A B].
    assert (L : (inject_Z (-1) < inject_Z (F64.trunc x))%Q)
      by (change (inject_Z (-1)) with (-1)%Q; lra).
    assert (U : (inject_Z (F64.trunc x) < inject_Z 256)%Q)
      by (change (inject_Z 256) with 256%Q; lra).
    rewrite <- Zlt_Qlt in L, U. lia.
Qed.

(** ** The gradient: float64 against exact arithmetic *)

Lemma product_error (d g e G : Q) :
  (- e <= d)%Q -> (d <= e)%Q -> (- G <= g)%Q -> (g <= G)%Q ->
  (- (e * G) <= d * g)%Q /\ (d * g <= e * G)%Q.
Proof. intros. split; nra. Qed.

(** The arithmetic of the error: each operation of the blend adds its
    rounding error, counted in units [eps = 2^-53]. *)
Lemma blend_error (eps rho tau alpha pi kappa sigma g1 g2 : Q) :
  (0 < eps)%Q ->
  (0 <= g1)%Q -> (g1 <= 255)%Q -> (0 <= g2)%Q -> (g2 <= 255)%Q ->
  (rho - 4 * eps <= tau)%Q -> (tau <= rho + eps)%Q ->
  (1 - tau - 6 * eps <= alpha)%Q -> (alpha <= 1 - tau + 6 * eps)%Q ->
  (alpha * g1 - 1536 * eps <= pi)%Q -> (pi <= alpha * g1 + 1536 * eps)%Q ->
  (tau * g2 - 1536 * eps <= kappa)%Q -> (kappa <= tau * g2 + 1536 * eps)%Q ->
  (pi + kappa - 3072 * eps <= sigma)%Q -> (sigma <= pi + kappa + 3072 * eps)%Q ->
  ((1 - rho) * g1 + rho * g2 - 8694 * eps <= sigma)%Q /\
  (sigma <= (1 - rho) * g1 + rho * g2 + 8694 * eps)%Q.
Proof.
  intros He G1 G1' G2 G2' T T' A A' P P' K K' S S'.
  destruct (product_error (tau - rho) (g2 - g1) (4 * eps) 255) as [X X'];
    [lra | lra | lra | lra |].
  destruct (product_error (alpha - (1 - tau)) g1 (6 * eps) 255) as [Y Y'];
    [lra | lra | lra | lra |].
  split; lra.
Qed.

Lemma product_bound (a g : Q) :
  (-1 <= a)%Q -> (a <= 3 # 2)%Q -> (0 <= g)%Q -> (g <= 255)%Q ->
  (- 400 < a * g)%Q /\ (a * g < 400)%Q.
Proof.
  intros. destruct (product_error a g (3 # 2) 255) as [X X'];
    [lra | lra | lra | lra |].
  split; lra.
Qed.

Lemma eps_facts :
  (0 < 2 ^ (-53))%Q /\ (2 ^ (-53) <= 1 # 1000000)%Q /\
  (2 ^ (0 - 53)%Z == 2 ^ (-53))%Q /\
  (2 ^ (1 - 53)%Z == 2 * 2 ^ (-53))%Q /\
  (2 ^ (8 - 53)%Z == 256 * 2 ^ (-53))%Q /\
  (2 ^ (9 - 53)%Z == 512 * 2 ^ (-53))%Q /\
  (2 ^ (10 - 53)%Z == 1024 * 2 ^ (-53))%Q /\
  (2 ^ (-39) == 16384 * 2 ^ (-53))%Q.
Proof. repeat split; vm_compute; congruence. Qed.

(** [i / n] in float64 for [0 <= i < n < 2^53]: not negative, and within
    [4 * 2^-53] below and [2^-53] above the exact ratio. *)
Lemma ratio_value i n :
  (i < n)%nat -> Z.of_nat n < 2 ^ 53 ->
  F64.is_finite (ratio_of i n) = true /\
  (0 <= F64.to_Q (ratio_of i n))%Q /\
  (inject_Z (Z.of_nat i) / inject_Z (Z.of_nat n) - 4 * 2 ^ (-53)
   <= F64.to_Q (ratio_of i n))%Q /\
  (F64.to_Q (ratio_of i n)
   <= inject_Z (Z.of_nat i) / inject_Z (Z.of_nat n) + 2 ^ (-53))%Q.
Proof.
  intros Hi Hn. destruct eps_facts as (E0 & _ & E1 & _).
  destruct i as [| i].
  - rewrite ratio_of_zero by lia. cbn [Z.of_nat F64.is_finite F64.zero F64.to_Q].
    split; [reflexivity|]. unfold Qdiv. change (inject_Z 0) with 0%Q.
    rewrite Qmult_0_l. repeat split; lra.
  - destruct (of_Z_exact (Z.of_nat (S i)) ltac:(lia)) as (_ & Vx & [Z | Fx]);
      [lia|].
    destruct (of_Z_exact (Z.of_nat n) ltac:(lia)) as (_ & Vy & [Z | Fy]);
      [lia|].
    destruct Fx as (mx & ex & Fx). destruct Fy as (my & ey & Fy).
    unfold ratio_of. rewrite Fx, Fy in *.
    assert (Py : (0 < inject_Z (Z.of_nat n))%Q).
    { change 0%Q with (inject_Z 0). rewrite <- Zlt_Qlt. lia. }
    assert (Lt : (inject_Z (Z.of_nat (S i)) / inject_Z (Z.of_nat n) < 1)%Q).
    { apply Qlt_shift_div_r; [exact Py|]. rewrite Qmult_1_l.
      rewrite <- Zlt_Qlt. lia. }
    destruct (div_value mx ex my ey 0 ltac:(lia)) as (F & P & L & U).
    + rewrite Vx, Vy. exact Lt.
    + rewrite Vx, Vy, E1 in L, U. auto.
Qed.

(** One channel of the gradient in float64: a finite number within
    [2^-39] of the exact blend. *)
Lemma blend_value i n c1 c2 :
  (i < n)%nat -> Z.of_nat n < 2 ^ 53 -> 0 <= c1 <= 255 -> 0 <= c2 <= 255 ->
  F64.is_finite (blend (ratio_of i n) c1 c2) = true /\
  (exact_blend i n c1 c2 - 2 ^ (-39)
   <= F64.to_Q (blend (ratio_of i n) c1 c2))%Q /\
  (F64.to_Q (blend (ratio_of i n) c1 c2)
   <= exact_blend i n c1 c2 + 2 ^ (-39))%Q.
Proof.
  intros Hi Hn H1 H2.
  destruct eps_facts as (E0 & Es & _ & Ea & _ & Em & Ep & Ef).
  destruct (ratio_value i n Hi Hn) as (Ft & T0 & Tl & Tu).
  set (t := ratio_of i n) in *.
  unfold exact_blend. cbv zeta.
  set (rho := (inject_Z (Z.of_nat i) / inject_Z (Z.of_nat n))%Q) in *.
  assert (R0 : (0 <= rho)%Q).
  { unfold rho. apply Qle_shift_div_l.
    - change 0%Q with (inject_Z 0). rewrite <- Zlt_Qlt. lia.
    - rewrite Qmult_0_l. change 0%Q with (inject_Z 0). rewrite <- Zle_Qle. lia. }
  assert (R1 : (rho <= 1)%Q).
  { unfold rho. apply Qle_shift_div_r.
    - change 0%Q with (inject_Z 0). rewrite <- Zlt_Qlt. lia.
    - rewrite Qmult_1_l. rewrite <- Zle_Qle. lia. }
  destruct (of_Z_exact 1 ltac:(lia)) as (F1 & V1 & _).
  destruct (of_Z_exact c1 ltac:(lia)) as (Fc1 & Vc1 & _).
  destruct (of_Z_exact c2 ltac:(lia)) as (Fc2 & Vc2 & _).
  change (inject_Z 1) with 1%Q in V1.
  assert (G1 : (0 <= inject_Z c1)%Q /\ (inject_Z c1 <= 255)%Q).
  { change 0%Q with (inject_Z 0). change 255%Q with (inject_Z 255).
    rewrite <- !Zle_Qle. lia. }
  assert (G2 : (0 <= inject_Z c2)%Q /\ (inject_Z c2 <= 255)%Q).
  { change 0%Q with (inject_Z 0). change 255%Q with (inject_Z 255).
    rewrite <- !Zle_Qle. lia. }
  destruct G1 as [G1 G1']. destruct G2 as [G2 G2'].
  set (g1 := inject_Z c1) in *. set (g2 := inject_Z c2) in *.
  set (eps := (2 ^ (-53))%Q) in *.
  unfold blend.
  (* 1 - ratio *)
  destruct (sub_value (F64.of_Z 1) t 1 F1 Ft ltac:(lia)) as (Fa & Al & Au).
  { rewrite V1. change (2 ^ 1)%Q with 2%Q. lra. }
  { rewrite V1. change (2 ^ 1)%Q with 2%Q. lra. }
  rewrite V1, Ea in Al, Au.
  set (a := F64.sub (F64.of_Z 1) t) in *.
  (* (1 - ratio) * c1 *)
  destruct (product_bound (F64.to_Q a) g1) as [Bp Bp']; [lra | lra | lra | lra |].
  destruct (mul_value a (F64.of_Z c1) 9 Fa Fc1 ltac:(lia)) as (Fp & Pl & Pu).
  { rewrite Vc1. change (2 ^ 9)%Q with 512%Q. lra. }
  { rewrite Vc1. change (2 ^ 9)%Q with 512%Q. lra. }
  rewrite Vc1, Em in Pl, Pu.
  set (p := F64.mul a (F64.of_Z c1)) in *.
  (* ratio * c2 *)
  destruct (product_bound (F64.to_Q t) g2) as [Bq Bq']; [lra | lra | lra | lra |].
  destruct (mul_value t (F64.of_Z c2) 9 Ft Fc2 ltac:(lia)) as (Fq & Ql & Qu).
  { rewrite Vc2. change (2 ^ 9)%Q with 512%Q. lra. }
  { rewrite Vc2. change (2 ^ 9)%Q with 512%Q. lra. }
  rewrite Vc2, Em in Ql, Qu.
  set (q := F64.mul t (F64.of_Z c2)) in *.
  (* the sum *)
  destruct (add_value p q 10 Fp Fq ltac:(lia)) as (Fs & Sl & Su).
  { change (2 ^ 10)%Q with 1024%Q. lra. }
  { change (2 ^ 10)%Q with 1024%Q. lra. }
  rewrite Ep in Sl, Su.
  split; [exact Fs|].
  destruct (blend_error eps rho (F64.to_Q t) (F64.to_Q a) (F64.to_Q p)
              (F64.to_Q q) (F64.to_Q (F64.add p q)) g1 g2) as [L U];
    [lra .. |].
  rewrite Ef. split; lra.
Qed.

(** The stored channel is the integer part of the float64 blend, a byte,
    and the exact blend lies within [2^-39] of the unit interval above
    it. *)
Lemma blend_channel i n c1 c2 :
  (i < n)%nat -> Z.of_nat n < 2 ^ 53 -> 0 <= c1 <= 255 -> 0 <= c2 <= 255 ->
  truncated_blend i n c1 c2 (F64.to_uint8 (blend (ratio_of i n) c1 c2)).
Proof.
  intros Hi Hn H1 H2.
  destruct (blend_value i n c1 c2 Hi Hn H1 H2) as (F & L & U).
  destruct eps_facts as (E0 & Es & _ & _ & _ & _ & _ & Ef).
  unfold truncated_blend.
  set (s := blend (ratio_of i n) c1 c2) in *.
  set (eps := (2 ^ (-53))%Q) in *. set (d := (2 ^ (-39))%Q) in *.
  assert (B : (0 <= exact_blend i n c1 c2)%Q /\ (exact_blend i n c1 c2 <= 255)%Q).
  { unfold exact_blend. cbv zeta.
    set (rho := (inject_Z (Z.of_nat i) / inject_Z (Z.of_nat n))%Q).
    assert (R0 : (0 <= rho)%Q).
    { unfold rho. apply Qle_shift_div_l.
      - change 0%Q with (inject_Z 0). rewrite <- Zlt_Qlt. lia.
      - rewrite Qmult_0_l. change 0%Q with (inject_Z 0). rewrite <- Zle_Qle. lia. }
    assert (R1 : (rho <= 1)%Q).
    { unfold rho. apply Qle_shift_div_r.
      - change 0%Q with (inject_Z 0). rewrite <- Zlt_Qlt. lia.
      - rewrite Qmult_1_l. rewrite <- Zle_Qle. lia. }
    assert (G1 : (0 <= inject_Z c1)%Q /\ (inject_Z c1 <= 255)%Q).
    { change 0%Q with (inject_Z 0). change 255%Q with (inject_Z 255).
      rewrite <- !Zle_Qle. lia. }
    assert (G2 : (0 <= inject_Z c2)%Q /\ (inject_Z c2 <= 255)%Q).
    { change 0%Q with (inject_Z 0). change 255%Q with (inject_Z 255).
      rewrite <- !Zle_Qle. lia. }
    split; nra. }
  destruct B as [B0 B1].
  assert (R : 0 <= F64.trunc s <= 255) by (apply trunc_byte; [exact F | lra | lra]).
  assert (E : F64.to_uint8 s = F64.trunc s)
    by (unfold F64.to_uint8; apply Z.mod_small; lia).
  rewrite E. split; [reflexivity|]. split; [exact R|].
  destruct (trunc_value s F) as [P N].
  destruct (Qlt_le_dec (F64.to_Q s) 0) as [Hn' | Hp].
  - destruct (N (Qlt_le_weak _ _ Hn')) as [A A'].
    assert (Z1 : (inject_Z (F64.trunc s) < inject_Z 1)%Q)
      by (change (inject_Z 1) with 1%Q; lra).
    rewrite <- Zlt_Qlt in Z1.
    assert (Z0 : F64.trunc s = 0) by lia.
    rewrite Z0 in *. change (inject_Z 0) with 0%Q in *. split; lra.
  - destruct (P Hp) as [A A']. split; lra.
Qed.

(** [int(255 * opacity)] is a byte for an opacity in [0, 1]. *)
Lemma alpha_byte x :
  F64.is_finite x = true -> (0 <= F64.to_Q x)%Q -> (F64.to_Q x <= 1)%Q ->
  0 <= F64.trunc (F64.mul (F64.of_Z 255) x) <= 255.
Proof.
  intros F L U.
  destruct eps_facts as (E0 & Es & _ & _ & E8 & _).
  destruct (of_Z_exact 255 ltac:(lia)) as (F255 & V255 & _).
  change (inject_Z 255) with 255%Q in V255.
  set (eps := (2 ^ (-53))%Q) in *.
  destruct (mul_value (F64.of_Z 255) x 8 F255 F ltac:(lia)) as (Fm & Ml & Mu).
  { rewrite V255. change (2 ^ 8)%Q with 256%Q. lra. }
  { rewrite V255. change (2 ^ 8)%Q with 256%Q. lra. }
  rewrite V255, E8 in Ml, Mu.
  apply trunc_byte; [exact Fm | lra | lra].
Qed.

(** ** The colour codec *)

Lemma hex_to_rgba_well_formed d1 d2 d3 d4 d5 d6 :
  forallb is_hex_digit [d1; d2; d3; d4; d5; d6] = true ->
  (forall o,
     hex_to_rgba
       (String "#" (String d1 (String d2 (String d3 (String d4 (String d5
          (String d6 EmptyString))))))) o =
     match F64.to_int (F64.mul (F64.of_Z 255) o) with
     | Ok a => Ok (hex_byte d1 d2, hex_byte d3 d4, hex_byte d5 d6, a)
     | Raise e => Raise e
     end) /\
  0 <= hex_byte d1 d2 <= 255 /\
  0 <= hex_byte d3 d4 <= 255 /\
  0 <= hex_byte d5 d6 <= 255.
Proof.
  intros H. cbn [forallb] in H.
  repeat (apply andb_prop in H; let K := fresh "K" in destruct H as [K H]).
  destruct (hex_byte_range d1 d2 K K0) as [E1 R1].
  destruct (hex_byte_range d3 d4 K1 K2) as [E2 R2].
  destruct (hex_byte_range d5 d6 K3 K4) as [E3 R3].
  split; [| auto].
  intros o. unfold hex_to_rgba.
  cbn [lstrip]. rewrite Ascii.eqb_refl. cbn [lstrip].
  rewrite (hex_digit_not_hash d1 K).
  cbn [substring]. unfold rbind. rewrite E1, E2, E3. reflexivity.
Qed.

Lemma is_hex_color_digits s :
  is_hex_color s = true ->
  exists d1 d2 d3 d4 d5 d6,
    s = String "#" (String d1 (String d2 (String d3 (String d4 (String d5
          (String d6 EmptyString)))))) /\
    forallb is_hex_digit [d1; d2; d3; d4; d5; d6] = true.
Proof.
  destruct s as [|h [|d1 [|d2 [|d3 [|d4 [|d5 [|d6 [|n r]]]]]]]];
    try discriminate.
  unfold is_hex_color. intros H. apply andb_prop in H. destruct H as [Hh Hd].
  apply Ascii.eqb_eq in Hh. subst h.
  exists d1, d2, d3, d4, d5, d6. auto.
Qed.

(** With opacity 1.0 a well-formed colour converts to its three bytes and
    alpha 255. *)
Lemma hex_to_rgba_one s :
  is_hex_color s = true ->
  exists red green blue,
    hex_to_rgba s F64.one = Ok (red, green, blue, 255) /\
    0 <= red <= 255 /\ 0 <= green <= 255 /\ 0 <= blue <= 255.
Proof.
  intros H. destruct (is_hex_color_digits s H) as (d1 & d2 & d3 & d4 & d5 & d6 & -> & D).
  destruct (hex_to_rgba_well_formed d1 d2 d3 d4 d5 d6 D) as (E & R1 & R2 & R3).
  exists (hex_byte d1 d2), (hex_byte d3 d4), (hex_byte d5 d6).
  rewrite E, full_alpha. auto.
Qed.

(** C3 (as stated, refuted).  For opacity 0.5 the product 255 * 0.5 is
    127.5: the alpha returned is 127, and rounding gives 128. *)
Lemma alpha_counterexample :
  hex_to_rgba "#FF00AA" F64.half = Ok (255, 0, 170, 127) /\
  F64.to_Q (F64.mul (F64.of_Z 255) F64.half) == 255 # 2 /\
  round_half_even (F64.mul (F64.of_Z 255) F64.half) = 128.
Proof. repeat split. Qed.

(** C3 (amended).  For a well-formed colour [#RRGGBB] and an opacity
    in [0, 1], [hex_to_rgba] returns the three bytes written by the digit
    pairs, each in [0, 255], and as alpha the product 255 * opacity,
    computed in float64, truncated toward zero: a byte as well. *)
Theorem hex_to_rgba_truncates_alpha (s : string) (opacity : float) :
  is_hex_color s = true ->
  F64.valid opacity = true ->
  F64.is_finite opacity = true ->
  (inject_Z 0 <= F64.to_Q opacity <= inject_Z 1)%Q ->
  exists d1 d2 d3 d4 d5 d6,
    s = String "#" (String d1 (String d2 (String d3 (String d4 (String d5
          (String d6 EmptyString)))))) /\
    hex_to_rgba s opacity =
    Ok (hex_byte d1 d2, hex_byte d3 d4, hex_byte d5 d6,
        F64.trunc (F64.mul (F64.of_Z 255) opacity)) /\
    0 <= hex_byte d1 d2 <= 255 /\
    0 <= hex_byte d3 d4 <= 255 /\
    0 <= hex_byte d5 d6 <= 255 /\
    0 <= F64.trunc (F64.mul (F64.of_Z 255) opacity) <= 255.
Proof.
  intros H V F R.
  destruct (is_hex_color_digits s H) as (d1 & d2 & d3 & d4 & d5 & d6 & -> & D).
  destruct (hex_to_rgba_well_formed d1 d2 d3 d4 d5 d6 D) as (E & R1 & R2 & R3).
  exists d1, d2, d3, d4, d5, d6. split; [reflexivity|].
  split; [| repeat (split; [assumption|]); apply alpha_byte;
            [exact F | exact (proj1 R) | exact (proj2 R)]].
  rewrite E.
  assert (L : F64.leb (F64.of_Z 0) opacity = true /\
              F64.leb opacity (F64.of_Z 1) = true).
  { apply (float_closed_exact 0 1 opacity); try apply exact_bounds; auto. }
  destruct L as [L0 L1].
  pose proof (mul_255_finite opacity V L0 L1) as M.
  destruct (F64.mul (F64.of_Z 255) opacity) as [| | |]; try discriminate M;
    reflexivity.
Qed.

Lemma hex_to_rgba_truncates_alpha_witness :
  is_hex_color "#FF00AA" = true /\
  F64.valid F64.half = true /\
  F64.is_finite F64.half = true /\
  (inject_Z 0 <= F64.to_Q F64.half <= inject_Z 1)%Q /\
  hex_to_rgba "#FF00AA" F64.half = Ok (255, 0, 170, 127).
Proof.
  assert (R : (inject_Z 0 <= F64.to_Q F64.half <= inject_Z 1)%Q)
    by (split; vm_compute; discriminate).
  split; [reflexivity|]. split; [reflexivity|]. split; [reflexivity|].
  split; [exact R|].
  destruct (hex_to_rgba_truncates_alpha "#FF00AA" F64.half eq_refl eq_refl
              eq_refl R) as (d1 & d2 & d3 & d4 & d5 & d6 & E & H & _).
  injection E as <- <- <- <- <- <-. exact H.
Defined.

(** ** The gradient synthesizer *)

Lemma update_length {A : Type} i (f : A -> A) l :
  List.length (update i f l) = List.length l.
Proof.
  revert i. induction l as [| a l IH]; intros [| i]; cbn; auto.
Qed.

Lemma nth_update {A : Type} i j (f : A -> A) l d :
  nth j (update i f l) d =
  if (j =? i)%nat && (i <? List.length l)%nat then f (nth j l d) else nth j l d.
Proof.
  revert i j. induction l as [| a l IH]; intros i j.
  - cbn. destruct i; rewrite andb_false_r; reflexivity.
  - destruct i as [| i], j as [| j]; cbn [update nth]; try reflexivity.
    rewrite IH. reflexivity.
Qed.

Lemma zeros_length h w : List.length (zeros h w) = h.
Proof. apply repeat_length. Qed.

Lemma zeros_rows h w i : (i < h)%nat -> nth i (zeros h w) [] = repeat transparent w.
Proof. intros H. unfold zeros. apply nth_repeat_lt. exact H. Qed.

Lemma map_const_repeat {A B : Type} (c : B) (d : A) n :
  map (fun _ => c) (repeat d n) = repeat c n.
Proof. induction n as [| n IH]; cbn; [reflexivity | f_equal; exact IH]. Qed.

Section Loops.

Variable color : nat -> rgba.

(** The loop of a vertical gradient: rows [a] to [a + k - 1] are
    overwritten, each with its own colour; the others are untouched. *)
Lemma rows_loop k :
  forall a g,
    (a + k <= List.length g)%nat ->
    let g' := fold_left (fun g i => set_row i (color i) g) (seq a k) g in
    List.length g' = List.length g /\
    forall i,
      nth i g' [] =
      if (a <=? i)%nat && (i <? a + k)%nat
      then map (fun _ => color i) (nth i g [])
      else nth i g [].
Proof.
  induction k as [| k IH]; intros a g H; cbn [seq fold_left].
  - split; [reflexivity|]. intros i.
    destruct (Nat.leb_spec a i), (Nat.ltb_spec i (a + 0)); cbn; try reflexivity.
    lia.
  - assert (L : List.length (set_row a (color a) g) = List.length g)
      by apply update_length.
    destruct (IH (S a) (set_row a (color a) g) ltac:(lia)) as [IL IN].
    cbn zeta in *. split; [lia|].
    intros i. rewrite IN. unfold set_row. rewrite !nth_update.
    destruct (Nat.leb_spec (S a) i), (Nat.ltb_spec i (S a + k)),
      (Nat.leb_spec a i), (Nat.ltb_spec i (a + S k)),
      (Nat.eqb_spec i a), (Nat.ltb_spec a (List.length g));
      cbn [andb]; try reflexivity; try lia.
    subst i. reflexivity.
Qed.

(** The loop of a horizontal gradient, column by column. *)
Lemma columns_loop k :
  forall a g,
    let g' := fold_left (fun g i => set_column i (color i) g) (seq a k) g in
    List.length g' = List.length g /\
    forall r,
      List.length (nth r g' []) = List.length (nth r g []) /\
      forall j d,
        nth j (nth r g' []) d =
        if (a <=? j)%nat && (j <? a + k)%nat && (j <? List.length (nth r g []))%nat
        then color j
        else nth j (nth r g []) d.
Proof.
  induction k as [| k IH]; intros a g; cbn [seq fold_left].
  - split; [reflexivity|]. intros r. split; [reflexivity|]. intros j d.
    destruct (Nat.leb_spec a j), (Nat.ltb_spec j (a + 0)); cbn; try reflexivity.
    lia.
  - destruct (IH (S a) (set_column a (color a) g)) as [IL IN].
    cbn zeta in *. split.
    { rewrite IL. unfold set_column. apply length_map. }
    intros r.
    assert (N : nth r (set_column a (color a) g) [] =
                update a (fun _ => color a) (nth r g [])).
    { unfold set_column.
      rewrite <- (map_nth (update a (fun _ : rgba => color a)) g [] r).
      f_equal. destruct a; reflexivity. }
    destruct (IN r) as [RL RN]. rewrite N in RL, RN.
    rewrite update_length in RL, RN.
    split; [exact RL|].
    intros j d. rewrite RN, nth_update.
    destruct (Nat.leb_spec (S a) j), (Nat.ltb_spec j (S a + k)),
      (Nat.leb_spec a j), (Nat.ltb_spec j (a + S k)),
      (Nat.eqb_spec j a), (Nat.ltb_spec a (List.length (nth r g []))),
      (Nat.ltb_spec j (List.length (nth r g [])));
      cbn [andb]; try reflexivity; try lia.
    subst j. reflexivity.
Qed.

End Loops.

Lemma in_bytes c : 0 <= c <= 255 -> In c bytes.
Proof.
  intros H. unfold bytes. rewrite <- (Z2Nat.id c) by lia.
  apply in_map, in_seq. lia.
Qed.

Lemma blend_zero_table :
  forallb (fun a =>
             forallb (fun b => F64.to_uint8 (blend F64.zero a b) =? a) bytes)
    bytes = true.
Proof. vm_compute. reflexivity. Qed.

(** At ratio 0 the blend of two channel values is the first one. *)
Lemma blend_zero a b :
  0 <= a <= 255 -> 0 <= b <= 255 -> F64.to_uint8 (blend F64.zero a b) = a.
Proof.
  intros Ha Hb. pose proof blend_zero_table as T.
  rewrite forallb_forall in T. specialize (T a (in_bytes a Ha)).
  rewrite forallb_forall in T. specialize (T b (in_bytes b Hb)).
  apply Z.eqb_eq. exact T.
Qed.

Lemma create_gradient_ok w h s1 s2 rest direction c1 c2 :
  hex_to_rgba s1 F64.one = Ok c1 ->
  hex_to_rgba s2 F64.one = Ok c2 ->
  create_gradient (w, h) (Some (s1 :: s2 :: rest)) direction =
  Ok (fold_left
        (fun gradient i =>
           if is_vertical direction
           then set_row i
                  (blend_pixel
                     (ratio_of i (if is_vertical direction then h else w)) c1 c2)
                  gradient
           else set_column i
                  (blend_pixel
                     (ratio_of i (if is_vertical direction then h else w)) c1 c2)
                  gradient)
        (seq 0 (if is_vertical direction then h else w)) (zeros h w)).
Proof.
  intros H1 H2. unfold create_gradient. cbn [index nth_error rbind].
  rewrite H1. cbn [rbind]. rewrite H2. reflexivity.
Qed.

Lemma vertical_gradient w h s1 s2 rest direction c1 c2 :
  is_vertical direction = true ->
  hex_to_rgba s1 F64.one = Ok c1 ->
  hex_to_rgba s2 F64.one = Ok c2 ->
  exists g,
    create_gradient (w, h) (Some (s1 :: s2 :: rest)) direction = Ok g /\
    List.length g = h /\
    forall i, (i < h)%nat ->
      nth i g [] = repeat (blend_pixel (ratio_of i h) c1 c2) w.
Proof.
  intros V H1 H2.
  rewrite (create_gradient_ok w h s1 s2 rest direction c1 c2 H1 H2), V.
  eexists. split; [reflexivity|].
  destruct (rows_loop (fun i => blend_pixel (ratio_of i h) c1 c2) h 0 (zeros h w))
    as [L N]; [rewrite zeros_length; lia|].
  cbn zeta in *. rewrite zeros_length in L. split; [exact L|].
  intros i Hi. rewrite N.
  destruct (Nat.leb_spec 0 i), (Nat.ltb_spec i (0 + h)); try lia.
  cbn [andb]. rewrite zeros_rows by exact Hi. apply map_const_repeat.
Qed.

Lemma horizontal_gradient w h s1 s2 rest direction c1 c2 :
  is_vertical direction = false ->
  hex_to_rgba s1 F64.one = Ok c1 ->
  hex_to_rgba s2 F64.one = Ok c2 ->
  exists g,
    create_gradient (w, h) (Some (s1 :: s2 :: rest)) direction = Ok g /\
    List.length g = h /\
    forall i, (i < h)%nat ->
      List.length (nth i g []) = w /\
      forall j, (j < w)%nat ->
        nth j (nth i g []) transparent = blend_pixel (ratio_of j w) c1 c2.
Proof.
  intros V H1 H2.
  rewrite (create_gradient_ok w h s1 s2 rest direction c1 c2 H1 H2), V.
  eexists. split; [reflexivity|].
  destruct (columns_loop (fun j => blend_pixel (ratio_of j w) c1 c2) w 0 (zeros h w))
    as [L N].
  cbn zeta in *. rewrite zeros_length in L. split; [exact L|].
  intros i Hi. destruct (N i) as [RL RN].
  rewrite zeros_rows in RL, RN by exact Hi. rewrite repeat_length in RL, RN.
  split; [exact RL|].
  intros j Hj. rewrite RN.
  destruct (Nat.leb_spec 0 j), (Nat.ltb_spec j (0 + w)), (Nat.ltb_spec j w);
    try lia.
  reflexivity.
Qed.

Lemma blend_pixel_zero r1 g1 b1 r2 g2 b2 :
  0 <= r1 <= 255 -> 0 <= g1 <= 255 -> 0 <= b1 <= 255 ->
  0 <= r2 <= 255 -> 0 <= g2 <= 255 -> 0 <= b2 <= 255 ->
  blend_pixel F64.zero (r1, g1, b1, 255) (r2, g2, b2, 255) = (r1, g1, b1, 255).
Proof.
  intros. unfold blend_pixel.
  rewrite !blend_zero by lia. reflexivity.
Qed.

Lemma inject_lt_succ (a b : Z) : (inject_Z a < inject_Z b + 1)%Q -> a <= b.
Proof.
  intros H.
  assert (H' : (inject_Z a < inject_Z (b + 1))%Q).
  { rewrite inject_Z_plus. change (inject_Z 1) with 1%Q. exact H. }
  rewrite <- Zlt_Qlt in H'. lia.
Qed.

(** ** The gradient against the exact formula *)

(** The truncation of a rational known by a numerator over [n]. *)
Lemma Qtrunc_fraction (q : Q) (p n v : Z) :
  0 < n -> 0 <= v ->
  (q * inject_Z n == inject_Z p)%Q ->
  v * n <= p < (v + 1) * n ->
  Qtrunc q = v.
Proof.
  intros Hn Hv E B. destruct q as [a b]. unfold Qtrunc. cbn [Qnum Qden].
  unfold Qeq in E. cbn in E.
  assert (E' : a * n = p * Zpos b) by lia.
  assert (L : v * Zpos b <= a) by nia.
  assert (U : a < (v + 1) * Zpos b) by nia.
  rewrite Z.quot_div_nonneg by nia.
  symmetry. apply (Z.div_unique a (Zpos b) v (a - v * Zpos b)); lia.
Qed.

Lemma exact_blend_times (i n : nat) (c1 c2 : Z) :
  (0 < n)%nat ->
  (exact_blend i n c1 c2 * inject_Z (Z.of_nat n) ==
   inject_Z ((Z.of_nat n - Z.of_nat i) * c1 + Z.of_nat i * c2))%Q.
Proof.
  intros Hn. unfold exact_blend. cbv zeta.
  rewrite inject_Z_plus, !inject_Z_mult.
  unfold Zminus. rewrite inject_Z_plus, inject_Z_opp.
  field. intros H.
  assert (K : inject_Z (Z.of_nat n) == inject_Z 0) by exact H.
  rewrite inject_Z_injective in K. lia.
Qed.

(** For extents up to [2^38], a channel within [2^-39] of the exact
    blend's unit interval is the truncation of the exact blend, or one
    less where the exact blend is an integer. *)
Lemma truncated_blend_specified (i n : nat) (c1 c2 v : Z) :
  (0 < n)%nat -> Z.of_nat n <= 2 ^ 38 ->
  truncated_blend i n c1 c2 v ->
  specified_or_below i n c1 c2 v.
Proof.
  intros Hn Bn (_ & Rv & L & U).
  pose proof (exact_blend_times i n c1 c2 Hn) as E.
  set (p := (Z.of_nat n - Z.of_nat i) * c1 + Z.of_nat i * c2) in *.
  set (e := exact_blend i n c1 c2) in *.
  set (N := Z.of_nat n) in *.
  assert (PN : (0 < inject_Z N)%Q).
  { change 0%Q with (inject_Z 0). rewrite <- Zlt_Qlt. unfold N. lia. }
  assert (D : ((2 ^ (-39)) * inject_Z N <= 1 # 2)%Q).
  { setoid_replace (1 # 2)%Q with ((2 ^ (-39)) * inject_Z (2 ^ 38))%Q
      by (vm_compute; reflexivity).
    apply Qmult_le_l; [vm_compute; reflexivity|].
    rewrite <- Zle_Qle. exact Bn. }
  assert (L' : ((inject_Z v - 2 ^ (-39)) * inject_Z N <= e * inject_Z N)%Q)
    by (apply Qmult_le_compat_r; [exact L | apply Qlt_le_weak, PN]).
  assert (U' : (e * inject_Z N < (inject_Z v + 1 + 2 ^ (-39)) * inject_Z N)%Q)
    by (apply Qmult_lt_compat_r; [exact PN | exact U]).
  rewrite E in L', U'.
  assert (Lz : v * N <= p).
  { apply inject_lt_succ.
    rewrite inject_Z_mult.
    set (d := (2 ^ (-39))%Q) in *.
    set (x := (d * inject_Z N)%Q) in *.
    setoid_replace ((inject_Z v - d) * inject_Z N)%Q
      with (inject_Z v * inject_Z N - x)%Q in L' by (unfold x; ring).
    lra. }
  assert (Uz : p <= (v + 1) * N).
  { apply inject_lt_succ.
    rewrite inject_Z_mult, inject_Z_plus. change (inject_Z 1) with 1%Q.
    set (d := (2 ^ (-39))%Q) in *.
    set (x := (d * inject_Z N)%Q) in *.
    setoid_replace ((inject_Z v + 1 + d) * inject_Z N)%Q
      with ((inject_Z v + 1) * inject_Z N + x)%Q in U' by (unfold x; ring).
    lra. }
  unfold specified_or_below, channel_as_specified. fold e.
  destruct (Z.eq_dec p ((v + 1) * N)) as [Ep | Np].
  - right.
    assert (T : Qtrunc e = v + 1).
    { apply (Qtrunc_fraction e p N (v + 1)); unfold N in *; try lia.
      exact E. }
    split; [symmetry; exact T|].
    apply (Qmult_inj_r _ _ (inject_Z N)).
    + intros H. rewrite H in PN. discriminate PN.
    + rewrite E, Ep, inject_Z_mult. reflexivity.
  - left. symmetry.
    apply (Qtrunc_fraction e p N v); unfold N in *; try lia. exact E.
Qed.

Lemma is_vertical_true direction :
  is_vertical direction = true <-> direction = Some "vertical".
Proof.
  destruct direction as [d |]; cbn [is_vertical].
  - rewrite String.eqb_eq. split; [intros -> | intros [= ->]]; reflexivity.
  - split; discriminate.
Qed.

Lemma is_vertical_false direction :
  is_vertical direction = false <-> direction <> Some "vertical".
Proof.
  rewrite <- is_vertical_true. destruct (is_vertical direction);
    split; congruence.
Qed.

(** The four channels of a blended pixel, each against the exact
    formula. *)
Lemma blend_pixel_channels k n r1 g1 b1 r2 g2 b2 :
  (k < n)%nat ->
  0 <= r1 <= 255 -> 0 <= g1 <= 255 -> 0 <= b1 <= 255 ->
  0 <= r2 <= 255 -> 0 <= g2 <= 255 -> 0 <= b2 <= 255 ->
  (Z.of_nat n < 2 ^ 53 ->
   exists cr cg cb ca,
     blend_pixel (ratio_of k n) (r1, g1, b1, 255) (r2, g2, b2, 255)
     = (cr, cg, cb, ca) /\
     truncated_blend k n r1 r2 cr /\ truncated_blend k n g1 g2 cg /\
     truncated_blend k n b1 b2 cb /\ truncated_blend k n 255 255 ca) /\
  (Z.of_nat n <= 2 ^ 38 ->
   exists cr cg cb ca,
     blend_pixel (ratio_of k n) (r1, g1, b1, 255) (r2, g2, b2, 255)
     = (cr, cg, cb, ca) /\
     specified_or_below k n r1 r2 cr /\ specified_or_below k n g1 g2 cg /\
     specified_or_below k n b1 b2 cb /\ specified_or_below k n 255 255 ca) /\
  (k = 0%nat ->
   blend_pixel (ratio_of k n) (r1, g1, b1, 255) (r2, g2, b2, 255)
   = (r1, g1, b1, 255)).
Proof.
  intros Hk R1 G1 B1 R2 G2 B2.
  assert (A : 0 <= 255 <= 255) by lia.
  split; [| split].
  - intros Bn. unfold blend_pixel. do 4 eexists. split; [reflexivity|].
    split; [apply blend_channel; assumption|].
    split; [apply blend_channel; assumption|].
    split; apply blend_channel; assumption.
  - intros Bn.
    assert (Bn' : Z.of_nat n < 2 ^ 53) by lia.
    unfold blend_pixel. do 4 eexists. split; [reflexivity|].
    split; [apply truncated_blend_specified;
            [lia | exact Bn | apply blend_channel; assumption]|].
    split; [apply truncated_blend_specified;
            [lia | exact Bn | apply blend_channel; assumption]|].
    split; apply truncated_blend_specified;
      solve [lia | exact Bn | apply blend_channel; assumption].
  - intros ->. rewrite (ratio_of_zero n Hk). apply blend_pixel_zero; assumption.
Qed.

(** C1 (as stated, refuted).  In a vertical gradient 7 pixels tall from
    red to blue, both opaque, the exact formula gives row 3 the channels
    145.71.., 0, 109.28.. and 255, so the pixel (145, 0, 109, 255) after
    truncation; the code stores alpha 254, because the float64 sum
    (1 - 3/7) * 255 + (3/7) * 255 falls just below 255. *)
Lemma gradient_truncation_counterexample :
  exists g,
    create_gradient (2%nat, 7%nat) (Some ["#FF0000"; "#0000FF"])
      (Some "vertical") = Ok g /\
    hex_to_rgba "#FF0000" F64.one = Ok (255, 0, 0, 255) /\
    hex_to_rgba "#0000FF" F64.one = Ok (0, 0, 255, 255) /\
    pixel_at g 3 1 = (145, 0, 109, 254) /\
    (channel_as_specified 3 7 255 0, channel_as_specified 3 7 0 0,
     channel_as_specified 3 7 0 255, channel_as_specified 3 7 255 255)
    = (145, 0, 109, 255).
Proof.
  eexists. split; [vm_compute; reflexivity|].
  repeat split; vm_compute; reflexivity.
Qed.

(** C1 (amended).  For a target of [w] by [h] pixels, both positive, and
    two well-formed colours, [create_gradient] returns [h] rows of [w]
    pixels; both colours enter with alpha 255.  With direction "vertical"
    the pixel in row [i] is blended at index [i] of [h]; with any other
    direction, "horizontal" among them, the pixel in column [j] is
    blended at index [j] of [w].  Blended at index [k] of [n], each of the
    four channels is the value (1 - k/n) * c1 + (k/n) * c2 computed in
    float64 and converted to [uint8] by truncation.  For [n] below 2^53
    the stored value is the integer part of the float64 result, a byte,
    and the exact value of the expression is less than [2^-39] outside
    the unit interval starting at it; for [n] up to 2^38 it is the
    truncation of the exact value, or one less than it where the exact
    value is an integer.  Index 0 is colour 1 exactly.  In a vertical
    gradient 100 pixels tall from #000000 to #FFFFFF, row 0 is black and
    every RGB channel of row 99 is 252. *)
Theorem gradient_interpolation :
  (forall (w h : nat) (s1 s2 : string) (rest : list string)
          (direction : option string),
     (0 < w)%nat -> (0 < h)%nat ->
     is_hex_color s1 = true -> is_hex_color s2 = true ->
     exists r1 g1 b1 r2 g2 b2 g,
       hex_to_rgba s1 F64.one = Ok (r1, g1, b1, 255) /\
       hex_to_rgba s2 F64.one = Ok (r2, g2, b2, 255) /\
       create_gradient (w, h) (Some (s1 :: s2 :: rest)) direction = Ok g /\
       List.length g = h /\
       (forall i, (i < h)%nat -> List.length (nth i g []) = w) /\
       (forall i j, (i < h)%nat -> (j < w)%nat ->
          exists k n,
            ((direction = Some "vertical" /\ k = i /\ n = h) \/
             (direction <> Some "vertical" /\ k = j /\ n = w)) /\
            pixel_at g i j =
            (F64.to_uint8 (blend (ratio_of k n) r1 r2),
             F64.to_uint8 (blend (ratio_of k n) g1 g2),
             F64.to_uint8 (blend (ratio_of k n) b1 b2),
             F64.to_uint8 (blend (ratio_of k n) 255 255)) /\
            (Z.of_nat n < 2 ^ 53 ->
             exists cr cg cb ca,
               pixel_at g i j = (cr, cg, cb, ca) /\
               truncated_blend k n r1 r2 cr /\ truncated_blend k n g1 g2 cg /\
               truncated_blend k n b1 b2 cb /\ truncated_blend k n 255 255 ca) /\
            (Z.of_nat n <= 2 ^ 38 ->
             exists cr cg cb ca,
               pixel_at g i j = (cr, cg, cb, ca) /\
               specified_or_below k n r1 r2 cr /\
               specified_or_below k n g1 g2 cg /\
               specified_or_below k n b1 b2 cb /\
               specified_or_below k n 255 255 ca) /\
            (k = 0%nat -> pixel_at g i j = (r1, g1, b1, 255)))) /\
  (forall (w j : nat),
     (j < w)%nat ->
     exists g,
       create_gradient (w, 100%nat) (Some ["#000000"; "#FFFFFF"])
         (Some "vertical") = Ok g /\
       pixel_at g 0 j = (0, 0, 0, 255) /\
       pixel_at g 99 j = (252, 252, 252, 255) /\
       252 < 255).
Proof.
  split.
  - intros w h s1 s2 rest direction Hw Hh C1 C2.
    destruct (hex_to_rgba_one s1 C1) as (r1 & g1 & b1 & E1 & R1 & G1 & B1).
    destruct (hex_to_rgba_one s2 C2) as (r2 & g2 & b2 & E2 & R2 & G2 & B2).
    exists r1, g1, b1, r2, g2, b2.
    destruct (is_vertical direction) eqn:V.
    + destruct (vertical_gradient w h s1 s2 rest direction _ _ V E1 E2)
        as (g & Eg & L & N).
      exists g. split; [exact E1|]. split; [exact E2|]. split; [exact Eg|].
      split; [exact L|].
      split; [intros i Hi; rewrite (N i Hi); apply repeat_length|].
      intros i j Hi Hj. exists i, h.
      split; [left; split; [apply is_vertical_true; exact V | auto]|].
      assert (P : pixel_at g i j = blend_pixel (ratio_of i h)
                                     (r1, g1, b1, 255) (r2, g2, b2, 255)).
      { unfold pixel_at. rewrite (N i Hi). apply nth_repeat_lt. exact Hj. }
      rewrite P. split; [reflexivity|].
      apply blend_pixel_channels; assumption.
    + destruct (horizontal_gradient w h s1 s2 rest direction _ _ V E1 E2)
        as (g & Eg & L & N).
      exists g. split; [exact E1|]. split; [exact E2|]. split; [exact Eg|].
      split; [exact L|].
      split; [intros i Hi; apply (N i Hi)|].
      intros i j Hi Hj. exists j, w.
      split; [right; split; [apply is_vertical_false; exact V | auto]|].
      assert (P : pixel_at g i j = blend_pixel (ratio_of j w)
                                     (r1, g1, b1, 255) (r2, g2, b2, 255)).
      { unfold pixel_at. destruct (N i Hi) as [_ K]. apply (K j Hj). }
      rewrite P. split; [reflexivity|].
      apply blend_pixel_channels; assumption.
  - intros w j Hj.
    destruct (vertical_gradient w 100 "#000000" "#FFFFFF" [] (Some "vertical")
                (0, 0, 0, 255) (255, 255, 255, 255) eq_refl eq_refl eq_refl)
      as (g & Eg & L & N).
    exists g. split; [exact Eg|].
    unfold pixel_at.
    rewrite (N 0%nat ltac:(lia)), (N 99%nat ltac:(lia)).
    rewrite !nth_repeat_lt by exact Hj.
    split; [vm_compute; reflexivity|]. split; [vm_compute; reflexivity|].
    reflexivity.
Qed.

Lemma gradient_interpolation_witness :
  (0 < 2)%nat /\ (0 < 7)%nat /\
  is_hex_color "#FF0000" = true /\ is_hex_color "#0000FF" = true /\
  (exists g,
     create_gradient (2%nat, 7%nat) (Some ["#FF0000"; "#0000FF"])
       (Some "vertical") = Ok g /\
     pixel_at g 3 1 = (145, 0, 109, 254)) /\
  (exists g,
     create_gradient (7%nat, 2%nat) (Some ["#FF0000"; "#0000FF"])
       (Some "horizontal") = Ok g /\
     pixel_at g 1 3 = (145, 0, 109, 254)).
Proof.
  split; [lia|]. split; [lia|]. split; [reflexivity|]. split; [reflexivity|].
  destruct gradient_interpolation as [H _].
  split.
  - destruct (H 2%nat 7%nat "#FF0000" "#0000FF" [] (Some "vertical")
                ltac:(lia) ltac:(lia) eq_refl eq_refl)
      as (r1 & g1 & b1 & r2 & g2 & b2 & g & E1 & E2 & Eg & _ & _ & P).
    exists g. split; [exact Eg|].
    destruct (P 3%nat 1%nat ltac:(lia) ltac:(lia))
      as (k & n & [(_ & -> & ->) | (D & _)] & -> & _).
    + vm_compute in E1. vm_compute in E2.
      injection E1 as <- <- <-. injection E2 as <- <- <-.
      vm_compute. reflexivity.
    + exfalso. apply D. reflexivity.
  - destruct (H 7%nat 2%nat "#FF0000" "#0000FF" [] (Some "horizontal")
                ltac:(lia) ltac:(lia) eq_refl eq_refl)
      as (r1 & g1 & b1 & r2 & g2 & b2 & g & E1 & E2 & Eg & _ & _ & P).
    exists g. split; [exact Eg|].
    destruct (P 1%nat 3%nat ltac:(lia) ltac:(lia))
      as (k & n & [(D & _) | (_ & -> & ->)] & -> & _).
    + discriminate D.
    + vm_compute in E1. vm_compute in E2.
      injection E1 as <- <- <-. injection E2 as <- <- <-.
      vm_compute. reflexivity.
Defined.

(** In exact arithmetic the blend of 255 and 255 is 255 at every ratio;
    in float64 it is not: row 3 of a gradient 7 pixels tall between two
    opaque colours has alpha 254. *)
Example float_blend_below_exact :
  F64.to_uint8 (blend (ratio_of 3 7) 255 255) = 254 /\
  (exact_blend 3 7 255 255 == 255)%Q.
Proof. split; vm_compute; reflexivity. Qed.

(* ================================================================= *)
(** * Further properties of the code *)

(** ** The colour codec: what it reads of its argument *)

Lemma lstrip_hashes n s : lstrip "#" (string_repeat "#" n ++ s) = lstrip "#" s.
Proof.
  induction n as [| n IH]; [reflexivity|].
  cbn [string_repeat append lstrip]. rewrite Ascii.eqb_refl. exact IH.
Qed.

Lemma lstrip_idem c s : lstrip c (lstrip c s) = lstrip c s.
Proof.
  induction s as [| a s IH]; [reflexivity|].
  cbn [lstrip]. destruct (Ascii.eqb a c) eqn:E; [exact IH|].
  cbn [lstrip]. rewrite E. reflexivity.
Qed.

Lemma substring_substring_6 i n s :
  (i + n <= 6)%nat -> substring i n (substring 0 6 s) = substring i n s.
Proof.
  intros H.
  destruct s as [|c0 [|c1 [|c2 [|c3 [|c4 [|c5 r]]]]]];
    destruct i as [|[|[|[|[|[|[|i]]]]]]];
    destruct n as [|[|[|[|[|[|[|n]]]]]]]; try lia; try reflexivity;
    cbn [substring]; destruct r; reflexivity.
Qed.

Lemma substring_0_not_hash s :
  lstrip "#" (substring 0 6 (lstrip "#" s)) = substring 0 6 (lstrip "#" s).
Proof.
  induction s as [| a s IH]; [reflexivity|].
  cbn [lstrip]. destruct (Ascii.eqb a "#") eqn:E; [exact IH|].
  cbn [substring lstrip]. rewrite E. reflexivity.
Qed.

Lemma hex_to_rgba_first_six s o :
  hex_to_rgba s o = hex_to_rgba (substring 0 6 (lstrip "#" s)) o.
Proof.
  unfold hex_to_rgba. rewrite substring_0_not_hash.
  rewrite !substring_substring_6 by lia. reflexivity.
Qed.

(** X1.  [hex_to_rgba] strips every leading [#] and then reads the first
    six characters only: any number of leading hash signs, none included,
    gives the same result, and so does anything after the sixth
    character. *)
Theorem hex_to_rgba_reads_six (s : string) (opacity : float) :
  (forall n, hex_to_rgba (string_repeat "#" n ++ s) opacity =
             hex_to_rgba s opacity) /\
  (forall t, substring 0 6 (lstrip "#" t) = substring 0 6 (lstrip "#" s) ->
             hex_to_rgba t opacity = hex_to_rgba s opacity).
Proof.
  split.
  - intros n. unfold hex_to_rgba. rewrite lstrip_hashes. reflexivity.
  - intros t E.
    rewrite (hex_to_rgba_first_six t), (hex_to_rgba_first_six s), E.
    reflexivity.
Qed.

Lemma int16_cases t :
  (exists n, int16 t = Ok n) \/
  int16 t = Raise (ValueError (invalid_literal t)).
Proof.
  unfold int16. destruct (read_sign (skip_blanks t)) as [negative number].
  destruct (starts_with "_" (skip_prefix number)); [right; reflexivity|].
  destruct (int16_digits 0 false false (skip_prefix number))
    as [[[n []] rest] |]; try (right; reflexivity).
  destruct (skip_blanks rest); [left; eauto | right; reflexivity].
Qed.

(** X2.  A colour with fewer than five characters after the leading
    hash signs makes [hex_to_rgba] raise [ValueError], whatever the
    opacity: the slice for blue is empty. *)
Theorem hex_to_rgba_short_raises (s : string) (opacity : float) :
  (String.length (lstrip "#" s) < 5)%nat ->
  exists msg, hex_to_rgba s opacity = Raise (ValueError msg).
Proof.
  intros H. unfold hex_to_rgba. cbv zeta.
  assert (E : substring 4 2 (lstrip "#" s) = "").
  { destruct (lstrip "#" s) as [|c0 [|c1 [|c2 [|c3 [|c4 r]]]]];
      cbn [String.length] in H; try lia; reflexivity. }
  rewrite E. unfold rbind.
  destruct (int16_cases (substring 0 2 (lstrip "#" s))) as [[n ->] | ->];
    [| eauto].
  destruct (int16_cases (substring 2 2 (lstrip "#" s))) as [[m ->] | ->];
    [| eauto].
  change (int16 "") with (@Raise Z (ValueError (invalid_literal ""))). eauto.
Qed.

Lemma hex_to_rgba_short_raises_witness :
  (String.length (lstrip "#" "#FFF") < 5)%nat /\
  exists msg, hex_to_rgba "#FFF" F64.one = Raise (ValueError msg).
Proof.
  assert (H : (String.length (lstrip "#" "#FFF") < 5)%nat) by (cbn; lia).
  split; [exact H|]. exact (hex_to_rgba_short_raises "#FFF" F64.one H).
Defined.

Lemma upper_hex_digit c :
  is_hex_digit c = true ->
  is_hex_digit (ascii_upper c) = true /\
  hex_digit_value (ascii_upper c) = hex_digit_value c.
Proof.
  destruct c as [[] [] [] [] [] [] [] []]; intros H; try discriminate H;
    split; reflexivity.
Qed.

(** X3.  Upper and lower case digits are the same to the codec: a
    well-formed colour and its upper-case form convert to the same tuple
    (or raise the same exception). *)
Theorem hex_to_rgba_ignores_case (s : string) (opacity : float) :
  is_hex_color s = true ->
  is_hex_color (string_upper s) = true /\
  hex_to_rgba (string_upper s) opacity = hex_to_rgba s opacity.
Proof.
  intros H.
  destruct (is_hex_color_digits s H) as (d1 & d2 & d3 & d4 & d5 & d6 & -> & D).
  pose proof D as D'. cbn [forallb] in D'.
  repeat (apply andb_prop in D'; let K := fresh "K" in destruct D' as [K D']).
  destruct (upper_hex_digit d1 K) as [U1 V1].
  destruct (upper_hex_digit d2 K0) as [U2 V2].
  destruct (upper_hex_digit d3 K1) as [U3 V3].
  destruct (upper_hex_digit d4 K2) as [U4 V4].
  destruct (upper_hex_digit d5 K3) as [U5 V5].
  destruct (upper_hex_digit d6 K4) as [U6 V6].
  cbn [string_upper]. change (ascii_upper "#") with "#"%char.
  assert (DU : forallb is_hex_digit
                 [ascii_upper d1; ascii_upper d2; ascii_upper d3;
                  ascii_upper d4; ascii_upper d5; ascii_upper d6] = true).
  { cbn [forallb]. rewrite U1, U2, U3, U4, U5, U6. reflexivity. }
  split.
  - unfold is_hex_color. rewrite DU. reflexivity.
  - destruct (hex_to_rgba_well_formed _ _ _ _ _ _ D) as [E _].
    destruct (hex_to_rgba_well_formed _ _ _ _ _ _ DU) as [EU _].
    rewrite E, EU. unfold hex_byte. rewrite V1, V2, V3, V4, V5, V6.
    reflexivity.
Qed.

Lemma hex_to_rgba_ignores_case_witness :
  is_hex_color "#ff00aa" = true /\
  hex_to_rgba "#FF00AA" F64.half = hex_to_rgba "#ff00aa" F64.half.
Proof.
  split; [reflexivity|].
  exact (proj2 (hex_to_rgba_ignores_case "#ff00aa" F64.half eq_refl)).
Defined.

(** X4.  What the colour validators accept, the codec converts: for a
    string [re.match] accepts (seven characters, or the same with one
    newline after them) and an opacity in [0, 1], [hex_to_rgba] returns
    four bytes, and the trailing newline changes nothing. *)
Theorem validated_colour_converts (s : string) (opacity : float) :
  matches_hex s = true ->
  F64.is_finite opacity = true ->
  (0 <= F64.to_Q opacity)%Q -> (F64.to_Q opacity <= 1)%Q ->
  hex_to_rgba s opacity = hex_to_rgba (substring 0 7 s) opacity /\
  exists red green blue alpha,
    hex_to_rgba s opacity = Ok (red, green, blue, alpha) /\
    0 <= red <= 255 /\ 0 <= green <= 255 /\ 0 <= blue <= 255 /\
    0 <= alpha <= 255.
Proof.
  intros H F L U.
  assert (T : is_hex_color (substring 0 7 s) = true /\
              hex_to_rgba s opacity = hex_to_rgba (substring 0 7 s) opacity).
  { apply matches_hex_iff in H. destruct H as [H | (t & H & ->)].
    - destruct (is_hex_color_digits s H)
        as (d1 & d2 & d3 & d4 & d5 & d6 & -> & D).
      split; [exact H | reflexivity].
    - destruct (is_hex_color_digits t H)
        as (d1 & d2 & d3 & d4 & d5 & d6 & -> & D).
      split; [exact H|].
      cbn [append substring].
      cbn [forallb] in D. apply andb_prop in D. destruct D as [K _].
      etransitivity; [apply hex_to_rgba_first_six|].
      symmetry. etransitivity; [apply hex_to_rgba_first_six|].
      cbn [lstrip]. rewrite Ascii.eqb_refl. cbn [lstrip].
      rewrite (hex_digit_not_hash d1 K). reflexivity. }
  destruct T as [C E]. split; [exact E|]. rewrite E.
  destruct (is_hex_color_digits _ C) as (d1 & d2 & d3 & d4 & d5 & d6 & -> & D).
  destruct (hex_to_rgba_well_formed d1 d2 d3 d4 d5 d6 D) as (W & R1 & R2 & R3).
  pose proof (alpha_byte opacity F L U) as A.
  exists (hex_byte d1 d2), (hex_byte d3 d4), (hex_byte d5 d6),
    (F64.trunc (F64.mul (F64.of_Z 255) opacity)).
  split; [| auto]. rewrite W.
  assert (M : F64.is_finite (F64.mul (F64.of_Z 255) opacity) = true).
  { destruct (of_Z_exact 255 ltac:(lia)) as (F255 & V255 & _).
    change (inject_Z 255) with 255%Q in V255.
    destruct (mul_value (F64.of_Z 255) opacity 8 F255 F ltac:(lia))
      as (Fm & _).
    - rewrite V255. change (2 ^ 8)%Q with 256%Q. lra.
    - rewrite V255. change (2 ^ 8)%Q with 256%Q. lra.
    - exact Fm. }
  destruct (F64.mul (F64.of_Z 255) opacity); try discriminate M; reflexivity.
Qed.

Lemma validated_colour_converts_witness :
  matches_hex ("#FF00AA" ++ String newline "") = true /\
  F64.is_finite F64.half = true /\
  (0 <= F64.to_Q F64.half)%Q /\ (F64.to_Q F64.half <= 1)%Q /\
  hex_to_rgba ("#FF00AA" ++ String newline "") F64.half =
  hex_to_rgba "#FF00AA" F64.half.
Proof.
  assert (L : (0 <= F64.to_Q F64.half)%Q) by (vm_compute; discriminate).
  assert (U : (F64.to_Q F64.half <= 1)%Q) by (vm_compute; discriminate).
  split; [reflexivity|]. split; [reflexivity|].
  split; [exact L|]. split; [exact U|].
  exact (proj1 (validated_colour_converts ("#FF00AA" ++ String newline "")
                  F64.half eq_refl eq_refl L U)).
Defined.

(** ** The gradient synthesizer: shape of the result *)

Lemma channel_blend_pixel k t c1 c2 :
  channel k (blend_pixel t c1 c2) =
  F64.to_uint8 (blend t (channel k c1) (channel k c2)).
Proof.
  destruct c1 as [[[r1 g1] b1] a1], c2 as [[[r2 g2] b2] a2].
  destruct k as [|[|[|k]]]; reflexivity.
Qed.

Lemma in_chars c : In c chars.
Proof.
  unfold chars. rewrite <- (ascii_nat_embedding c).
  apply in_map, in_seq. pose proof (nat_ascii_bounded c). lia.
Qed.

Lemma int16_short_table :
  short_value (int16 "") = true /\
  forallb (fun a => short_value (int16 (String a ""))) chars = true /\
  forallb (fun a =>
             forallb (fun b => short_value (int16 (String a (String b ""))))
               chars) chars = true.
Proof. vm_compute. auto. Qed.

(** A slice of at most two characters is read as a number from -15 to
    255: the least is [-f], the greatest [ff]. *)
Lemma int16_short t n :
  (String.length t <= 2)%nat -> int16 t = Ok n -> -15 <= n <= 255.
Proof.
  intros L E.
  assert (S : short_value (int16 t) = true).
  { destruct int16_short_table as (T0 & T1 & T2).
    destruct t as [| a [| b [| c t]]]; cbn [String.length] in L; try lia.
    - exact T0.
    - rewrite forallb_forall in T1. exact (T1 a (in_chars a)).
    - rewrite forallb_forall in T2. specialize (T2 a (in_chars a)).
      rewrite forallb_forall in T2. exact (T2 b (in_chars b)). }
  rewrite E in S. cbn [short_value] in S.
  apply andb_prop in S. destruct S as [S1 S2]. lia.
Qed.

Lemma substring_length_le i n s : (String.length (substring i n s) <= n)%nat.
Proof.
  revert i n. induction s as [| c s IH]; intros i n.
  - destruct i, n; cbn; lia.
  - destruct i as [| i].
    + destruct n as [| n]; cbn [substring String.length]; [lia|].
      specialize (IH 0%nat n). lia.
    + cbn [substring]. apply IH.
Qed.

(** Whatever converts at opacity 1.0 has alpha 255 and its other
    channels between -15 and 255; a channel is negative only where the
    slice carries a minus sign. *)
Lemma hex_to_rgba_one_range s c :
  hex_to_rgba s F64.one = Ok c ->
  forall k, -15 <= channel k c <= 255.
Proof.
  unfold hex_to_rgba, rbind. cbv zeta.
  destruct (int16 (substring 0 2 _)) as [r |] eqn:Er; [| discriminate].
  destruct (int16 (substring 2 2 _)) as [g |] eqn:Eg; [| discriminate].
  destruct (int16 (substring 4 2 _)) as [b |] eqn:Eb; [| discriminate].
  rewrite full_alpha. intros H. injection H as <-.
  apply int16_short in Er; [| apply substring_length_le].
  apply int16_short in Eg; [| apply substring_length_le].
  apply int16_short in Eb; [| apply substring_length_le].
  intros [|[|[|k]]]; cbn [channel]; lia.
Qed.

(** The pixels of a gradient, for either direction. *)
Lemma gradient_pixel w h colors direction g :
  create_gradient (w, h) colors direction = Ok g ->
  exists s1 s2 rest c1 c2,
    colors = Some (s1 :: s2 :: rest) /\
    hex_to_rgba s1 F64.one = Ok c1 /\
    hex_to_rgba s2 F64.one = Ok c2 /\
    List.length g = h /\
    forall i j, (i < h)%nat -> (j < w)%nat ->
      List.length (nth i g []) = w /\
      pixel_at g i j =
      blend_pixel (if is_vertical direction then ratio_of i h else ratio_of j w)
        c1 c2.
Proof.
  intros G.
  destruct (create_gradient_colors _ _ _ _ G)
    as (s1 & s2 & rest & c1 & c2 & -> & H1 & H2).
  exists s1, s2, rest, c1, c2.
  split; [reflexivity|]. split; [exact H1|]. split; [exact H2|].
  destruct (is_vertical direction) eqn:V.
  - destruct (vertical_gradient w h s1 s2 rest direction c1 c2 V H1 H2)
      as (g' & Eg & L & N).
    rewrite G in Eg. injection Eg as <-. split; [exact L|].
    intros i j Hi Hj. unfold pixel_at. rewrite (N i Hi).
    split; [apply repeat_length | apply nth_repeat_lt; exact Hj].
  - destruct (horizontal_gradient w h s1 s2 rest direction c1 c2 V H1 H2)
      as (g' & Eg & L & N).
    rewrite G in Eg. injection Eg as <-. split; [exact L|].
    intros i j Hi Hj. destruct (N i Hi) as [RL K].
    split; [exact RL | apply (K j Hj)].
Qed.

(** ** The gradient synthesizer: order and bounds of the channels *)

Lemma trunc_monotone x y :
  F64.is_finite x = true -> F64.is_finite y = true ->
  (F64.to_Q x <= F64.to_Q y)%Q -> F64.trunc x <= F64.trunc y.
Proof.
  intros Fx Fy L.
  destruct (trunc_value x Fx) as [Px Nx]. destruct (trunc_value y Fy) as [Py Ny].
  destruct (Qlt_le_dec (F64.to_Q x) 0) as [Hx | Hx];
    destruct (Qlt_le_dec (F64.to_Q y) 0) as [Hy | Hy].
  - destruct (Nx (Qlt_le_weak _ _ Hx)) as [A B].
    destruct (Ny (Qlt_le_weak _ _ Hy)) as [C D].
    apply inject_lt_succ. lra.
  - destruct (Nx (Qlt_le_weak _ _ Hx)) as [A B].
    destruct (Py Hy) as [C D].
    assert (F64.trunc x <= 0).
    { apply inject_lt_succ. change (inject_Z 0) with 0%Q. lra. }
    assert (0 <= F64.trunc y).
    { apply inject_lt_succ. change (inject_Z 0) with 0%Q. lra. }
    lia.
  - lra.
  - destruct (Px Hx) as [A B]. destruct (Py Hy) as [C D].
    apply inject_lt_succ. lra.
Qed.

Lemma ratio_Q_bounds (i n : nat) :
  (i < n)%nat ->
  (0 <= inject_Z (Z.of_nat i) / inject_Z (Z.of_nat n))%Q /\
  (inject_Z (Z.of_nat i) / inject_Z (Z.of_nat n) + / inject_Z (Z.of_nat n)
   <= 1)%Q /\
  (0 < / inject_Z (Z.of_nat n))%Q.
Proof.
  intros H.
  assert (Pn : (0 < inject_Z (Z.of_nat n))%Q).
  { change 0%Q with (inject_Z 0). rewrite <- Zlt_Qlt. lia. }
  assert (Pi : (0 <= inject_Z (Z.of_nat i))%Q).
  { change 0%Q with (inject_Z 0). rewrite <- Zle_Qle. lia. }
  assert (Li : (inject_Z (Z.of_nat i) + 1 <= inject_Z (Z.of_nat n))%Q).
  { change 1%Q with (inject_Z 1). rewrite <- inject_Z_plus, <- Zle_Qle. lia. }
  assert (Pv : (0 < / inject_Z (Z.of_nat n))%Q) by (apply Qinv_lt_0_compat; exact Pn).
  split; [| split; [| exact Pv]].
  - apply Qle_shift_div_l; [exact Pn|]. rewrite Qmult_0_l. exact Pi.
  - unfold Qdiv.
    setoid_replace (inject_Z (Z.of_nat i) * / inject_Z (Z.of_nat n)
                    + / inject_Z (Z.of_nat n))%Q
      with ((inject_Z (Z.of_nat i) + 1) / inject_Z (Z.of_nat n))%Q
      by (unfold Qdiv; ring).
    apply Qle_shift_div_r; [exact Pn|]. rewrite Qmult_1_l. exact Li.
Qed.

Lemma ratio_Q_step (i i' n : nat) :
  (i < i')%nat -> (i' < n)%nat ->
  (inject_Z (Z.of_nat i) / inject_Z (Z.of_nat n) + / inject_Z (Z.of_nat n)
   <= inject_Z (Z.of_nat i') / inject_Z (Z.of_nat n))%Q.
Proof.
  intros H H'.
  assert (Pn : (0 < inject_Z (Z.of_nat n))%Q).
  { change 0%Q with (inject_Z 0). rewrite <- Zlt_Qlt. lia. }
  assert (Li : (inject_Z (Z.of_nat i) + 1 <= inject_Z (Z.of_nat i'))%Q).
  { change 1%Q with (inject_Z 1). rewrite <- inject_Z_plus, <- Zle_Qle. lia. }
  setoid_replace (inject_Z (Z.of_nat i) / inject_Z (Z.of_nat n)
                  + / inject_Z (Z.of_nat n))%Q
    with ((inject_Z (Z.of_nat i) + 1) / inject_Z (Z.of_nat n))%Q
    by (unfold Qdiv; ring).
  unfold Qdiv. apply Qmult_le_compat_r; [exact Li|].
  apply Qlt_le_weak, Qinv_lt_0_compat, Pn.
Qed.

Lemma inv_extent (n : nat) :
  (0 < n)%nat -> Z.of_nat n <= 2 ^ 38 ->
  (2 * 2 ^ (-39) <= / inject_Z (Z.of_nat n))%Q.
Proof.
  intros H0 H.
  assert (Pn : (0 < inject_Z (Z.of_nat n))%Q).
  { change 0%Q with (inject_Z 0). rewrite <- Zlt_Qlt. lia. }
  assert (L : (inject_Z (Z.of_nat n) <= inject_Z (2 ^ 38))%Q)
    by (rewrite <- Zle_Qle; exact H).
  assert (E : (2 * 2 ^ (-39) == / inject_Z (2 ^ 38))%Q)
    by (vm_compute; reflexivity).
  rewrite E.
  apply Qle_shift_inv_l; [exact Pn|].
  setoid_replace (/ inject_Z (2 ^ 38) * inject_Z (Z.of_nat n))%Q
    with (inject_Z (Z.of_nat n) / inject_Z (2 ^ 38))%Q by (unfold Qdiv; ring).
  apply Qle_shift_div_r; [reflexivity|]. rewrite Qmult_1_l. exact L.
Qed.

(** The exact blend moves from colour 1 toward colour 2: by at least
    [(c2 - c1)/n] per step, and it stays between the two. *)
Lemma exact_blend_step (i i' n : nat) (c1 c2 : Z) :
  (i < i')%nat -> (i' < n)%nat -> c1 < c2 ->
  (exact_blend i n c1 c2 + / inject_Z (Z.of_nat n)
   <= exact_blend i' n c1 c2)%Q.
Proof.
  intros H H' Hc. unfold exact_blend. cbv zeta.
  pose proof (ratio_Q_step i i' n H H') as S.
  destruct (ratio_Q_bounds i' n H') as (_ & _ & Pv).
  set (r := (inject_Z (Z.of_nat i) / inject_Z (Z.of_nat n))%Q) in *.
  set (r' := (inject_Z (Z.of_nat i') / inject_Z (Z.of_nat n))%Q) in *.
  set (v := (/ inject_Z (Z.of_nat n))%Q) in *.
  assert (G : (inject_Z c1 + 1 <= inject_Z c2)%Q).
  { change 1%Q with (inject_Z 1). rewrite <- inject_Z_plus, <- Zle_Qle. lia. }
  set (g1 := inject_Z c1) in *. set (g2 := inject_Z c2) in *.
  assert (P : (0 <= (r' - r - v) * (g2 - g1))%Q)
    by (apply Qmult_le_0_compat; lra).
  assert (P' : (0 <= v * (g2 - g1 - 1))%Q)
    by (apply Qmult_le_0_compat; lra).
  lra.
Qed.

Lemma exact_blend_between (i n : nat) (c1 c2 : Z) :
  (i < n)%nat ->
  (inject_Z (Z.min c1 c2) <= exact_blend i n c1 c2)%Q /\
  (exact_blend i n c1 c2 <= inject_Z (Z.max c1 c2))%Q /\
  (c1 < c2 ->
   (exact_blend i n c1 c2 + / inject_Z (Z.of_nat n) <= inject_Z c2)%Q).
Proof.
  intros H. unfold exact_blend. cbv zeta.
  destruct (ratio_Q_bounds i n H) as (R0 & R1 & Pv).
  set (r := (inject_Z (Z.of_nat i) / inject_Z (Z.of_nat n))%Q) in *.
  set (v := (/ inject_Z (Z.of_nat n))%Q) in *.
  assert (Mn : (inject_Z (Z.min c1 c2) <= inject_Z c1)%Q /\
               (inject_Z (Z.min c1 c2) <= inject_Z c2)%Q)
    by (rewrite <- !Zle_Qle; lia).
  assert (Mx : (inject_Z c1 <= inject_Z (Z.max c1 c2))%Q /\
               (inject_Z c2 <= inject_Z (Z.max c1 c2))%Q)
    by (rewrite <- !Zle_Qle; lia).
  destruct Mn as [Mn1 Mn2]. destruct Mx as [Mx1 Mx2].
  set (g1 := inject_Z c1) in *. set (g2 := inject_Z c2) in *.
  set (lo := inject_Z (Z.min c1 c2)) in *. set (hi := inject_Z (Z.max c1 c2)) in *.
  assert (A : (0 <= (1 - r) * (g1 - lo))%Q) by (apply Qmult_le_0_compat; lra).
  assert (B : (0 <= r * (g2 - lo))%Q) by (apply Qmult_le_0_compat; lra).
  assert (C : (0 <= (1 - r) * (hi - g1))%Q) by (apply Qmult_le_0_compat; lra).
  assert (D : (0 <= r * (hi - g2))%Q) by (apply Qmult_le_0_compat; lra).
  split; [lra|]. split; [lra|].
  intros Hc.
  assert (G : (g1 + 1 <= g2)%Q).
  { unfold g1, g2. change 1%Q with (inject_Z 1).
    rewrite <- inject_Z_plus, <- Zle_Qle. lia. }
  assert (P : (0 <= (1 - r - v) * (g2 - g1))%Q)
    by (apply Qmult_le_0_compat; lra).
  assert (P' : (0 <= v * (g2 - g1 - 1))%Q)
    by (apply Qmult_le_0_compat; lra).
  lra.
Qed.

Lemma channel_between (i n : nat) (c1 c2 : Z) :
  (i < n)%nat -> Z.of_nat n < 2 ^ 53 -> 0 <= c1 <= 255 -> 0 <= c2 <= 255 ->
  Z.min c1 c2 - 1 <= F64.to_uint8 (blend (ratio_of i n) c1 c2) <= Z.max c1 c2.
Proof.
  intros Hi Hn H1 H2.
  destruct (blend_channel i n c1 c2 Hi Hn H1 H2) as (_ & _ & L & U).
  destruct (exact_blend_between i n c1 c2 Hi) as (Lo & Hi' & _).
  destruct eps_facts as (E0 & Es & _ & _ & _ & _ & _ & Ef).
  set (v := F64.to_uint8 (blend (ratio_of i n) c1 c2)) in *.
  set (eps := (2 ^ (-53))%Q) in *. set (d := (2 ^ (-39))%Q) in *.
  split.
  - assert (K : (inject_Z (Z.min c1 c2 - 1) < inject_Z v + 1)%Q).
    { unfold Z.sub. rewrite inject_Z_plus, inject_Z_opp.
      change (inject_Z 1) with 1%Q. lra. }
    apply inject_lt_succ in K. exact K.
  - apply inject_lt_succ. lra.
Qed.

Lemma channel_below_colour2 (i n : nat) (c1 c2 : Z) :
  (i < n)%nat -> Z.of_nat n <= 2 ^ 38 -> 0 <= c1 <= 255 -> 0 <= c2 <= 255 ->
  c1 < c2 ->
  F64.to_uint8 (blend (ratio_of i n) c1 c2) < c2.
Proof.
  intros Hi Hn H1 H2 Hc.
  destruct (blend_channel i n c1 c2 Hi ltac:(lia) H1 H2) as (_ & _ & L & U).
  destruct (exact_blend_between i n c1 c2 Hi) as (_ & _ & B).
  specialize (B Hc).
  pose proof (inv_extent n ltac:(lia) Hn) as V.
  destruct eps_facts as (E0 & Es & _ & _ & _ & _ & _ & Ef).
  set (v := F64.to_uint8 (blend (ratio_of i n) c1 c2)) in *.
  set (eps := (2 ^ (-53))%Q) in *. set (d := (2 ^ (-39))%Q) in *.
  assert (K : (inject_Z v < inject_Z c2)%Q) by lra.
  rewrite <- Zlt_Qlt in K. exact K.
Qed.

Lemma channel_monotone (i i' n : nat) (c1 c2 : Z) :
  (i <= i')%nat -> (i' < n)%nat -> Z.of_nat n <= 2 ^ 38 ->
  0 <= c1 <= 255 -> 0 <= c2 <= 255 -> c1 < c2 ->
  F64.to_uint8 (blend (ratio_of i n) c1 c2)
  <= F64.to_uint8 (blend (ratio_of i' n) c1 c2).
Proof.
  intros Hi Hi' Hn H1 H2 Hc.
  destruct (Nat.eq_dec i i') as [-> | Hne]; [lia|].
  destruct (blend_channel i n c1 c2 ltac:(lia) ltac:(lia) H1 H2) as (-> & _).
  destruct (blend_channel i' n c1 c2 Hi' ltac:(lia) H1 H2) as (-> & _).
  destruct (blend_value i n c1 c2 ltac:(lia) ltac:(lia) H1 H2) as (F & _ & U).
  destruct (blend_value i' n c1 c2 Hi' ltac:(lia) H1 H2) as (F' & L' & _).
  pose proof (exact_blend_step i i' n c1 c2 ltac:(lia) Hi' Hc) as S.
  pose proof (inv_extent n ltac:(lia) Hn) as V.
  apply trunc_monotone; [exact F | exact F' |].
  set (d := (2 ^ (-39))%Q) in *. lra.
Qed.

(** [1 - t] mirrors the blend: swapping the colours reverses the
    order. *)
Lemma channel_antitone (i i' n : nat) (c1 c2 : Z) :
  (i <= i')%nat -> (i' < n)%nat -> Z.of_nat n <= 2 ^ 38 ->
  0 <= c1 <= 255 -> 0 <= c2 <= 255 -> c2 < c1 ->
  F64.to_uint8 (blend (ratio_of i' n) c1 c2)
  <= F64.to_uint8 (blend (ratio_of i n) c1 c2).
Proof.
  intros Hi Hi' Hn H1 H2 Hc.
  destruct (Nat.eq_dec i i') as [-> | Hne]; [lia|].
  destruct (blend_channel i n c1 c2 ltac:(lia) ltac:(lia) H1 H2) as (-> & _).
  destruct (blend_channel i' n c1 c2 Hi' ltac:(lia) H1 H2) as (-> & _).
  destruct (blend_value i n c1 c2 ltac:(lia) ltac:(lia) H1 H2) as (F & L & _).
  destruct (blend_value i' n c1 c2 Hi' ltac:(lia) H1 H2) as (F' & _ & U').
  pose proof (exact_blend_step i i' n c2 c1 ltac:(lia) Hi' Hc) as S.
  pose proof (inv_extent n ltac:(lia) Hn) as V.
  apply trunc_monotone; [exact F' | exact F |].
  assert (M : forall k, (exact_blend k n c2 c1 ==
                         inject_Z c1 + inject_Z c2 - exact_blend k n c1 c2)%Q).
  { intros k. unfold exact_blend. cbv zeta. ring. }
  rewrite (M i), (M i') in S.
  set (d := (2 ^ (-39))%Q) in *. lra.
Qed.

(** X5.  Each channel of a gradient stays between the two colours: it
    is at most the larger of the two channel values and at least the
    smaller less one (the float64 blend can fall just below an integer);
    and where colour 2 has the larger value, no pixel reaches it.  For
    extents up to [2^38], and for the channels that are negative in
    neither colour: a slice such as [-f] is read as -15, and a negative
    blend wraps around in the [uint8] array. *)
Theorem gradient_between_colours
  (w h : nat) (colors : option (list string)) (direction : option string)
  (g : raster) :
  create_gradient (w, h) colors direction = Ok g ->
  Z.of_nat w <= 2 ^ 38 -> Z.of_nat h <= 2 ^ 38 ->
  exists s1 s2 rest c1 c2,
    colors = Some (s1 :: s2 :: rest) /\
    hex_to_rgba s1 F64.one = Ok c1 /\
    hex_to_rgba s2 F64.one = Ok c2 /\
    forall i j k, (i < h)%nat -> (j < w)%nat ->
      0 <= channel k c1 -> 0 <= channel k c2 ->
      Z.min (channel k c1) (channel k c2) - 1 <= channel k (pixel_at g i j) /\
      channel k (pixel_at g i j) <= Z.max (channel k c1) (channel k c2) /\
      (channel k c1 < channel k c2 ->
       channel k (pixel_at g i j) < channel k c2).
Proof.
  intros G Bw Bh.
  destruct (gradient_pixel w h colors direction g G)
    as (s1 & s2 & rest & c1 & c2 & C & H1 & H2 & _ & P).
  exists s1, s2, rest, c1, c2.
  split; [exact C|]. split; [exact H1|]. split; [exact H2|].
  intros i j k Hi Hj N1 N2. destruct (P i j Hi Hj) as [_ E]. rewrite E.
  rewrite channel_blend_pixel.
  assert (R1 : 0 <= channel k c1 <= 255)
    by (pose proof (hex_to_rgba_one_range s1 c1 H1 k); lia).
  assert (R2 : 0 <= channel k c2 <= 255)
    by (pose proof (hex_to_rgba_one_range s2 c2 H2 k); lia).
  destruct (is_vertical direction).
  - pose proof (channel_between i h _ _ Hi ltac:(lia) R1 R2) as [A B].
    split; [exact A|]. split; [exact B|].
    intros Hc. apply channel_below_colour2; assumption.
  - pose proof (channel_between j w _ _ Hj ltac:(lia) R1 R2) as [A B].
    split; [exact A|]. split; [exact B|].
    intros Hc. apply channel_below_colour2; assumption.
Qed.

Lemma gradient_between_colours_witness :
  create_gradient (1%nat, 7%nat) (Some ["#102030"; "#FFFFFF"]) (Some "vertical")
  = Ok [[(16, 32, 48, 255)]; [(50, 63, 77, 255)]; [(84, 95, 107, 255)];
        [(118, 127, 136, 254)]; [(152, 159, 166, 255)];
        [(186, 191, 195, 255)]; [(220, 223, 225, 255)]] /\
  Z.of_nat 1 <= 2 ^ 38 /\ Z.of_nat 7 <= 2 ^ 38 /\
  16 <= 220 < 255.
Proof.
  assert (G : create_gradient (1%nat, 7%nat) (Some ["#102030"; "#FFFFFF"])
                (Some "vertical")
              = Ok [[(16, 32, 48, 255)]; [(50, 63, 77, 255)]; [(84, 95, 107, 255)];
                    [(118, 127, 136, 254)]; [(152, 159, 166, 255)];
                    [(186, 191, 195, 255)]; [(220, 223, 225, 255)]])
    by (vm_compute; reflexivity).
  assert (Bw : Z.of_nat 1 <= 2 ^ 38) by (vm_compute; discriminate).
  assert (Bh : Z.of_nat 7 <= 2 ^ 38) by (vm_compute; discriminate).
  split; [exact G|]. split; [exact Bw|]. split; [exact Bh|].
  destruct (gradient_between_colours _ _ _ _ _ G Bw Bh)
    as (s1 & s2 & rest & c1 & c2 & C & H1 & H2 & P).
  injection C as <- <- <-.
  vm_compute in H1. vm_compute in H2.
  injection H1 as <-. injection H2 as <-.
  destruct (P 6%nat 0%nat 0%nat ltac:(lia) ltac:(lia)
              ltac:(cbn; lia) ltac:(cbn; lia)) as (A & _ & B).
  cbn in A, B. specialize (B ltac:(lia)). lia.
Defined.

(** X6.  Along the gradient a channel never turns back: where colour 2
    has the larger value the channel does not decrease from one row
    (column) to a later one, where it has the smaller value the channel
    does not increase.  For extents up to [2^38], and for the channels
    that are negative in neither colour. *)
Theorem gradient_monotone
  (w h : nat) (colors : option (list string)) (direction : option string)
  (g : raster) :
  create_gradient (w, h) colors direction = Ok g ->
  Z.of_nat w <= 2 ^ 38 -> Z.of_nat h <= 2 ^ 38 ->
  exists s1 s2 rest c1 c2,
    colors = Some (s1 :: s2 :: rest) /\
    hex_to_rgba s1 F64.one = Ok c1 /\
    hex_to_rgba s2 F64.one = Ok c2 /\
    forall i j i' j' k,
      (i <= i')%nat -> (i' < h)%nat -> (j <= j')%nat -> (j' < w)%nat ->
      0 <= channel k c1 -> 0 <= channel k c2 ->
      (channel k c1 < channel k c2 ->
       channel k (pixel_at g i j) <= channel k (pixel_at g i' j')) /\
      (channel k c2 < channel k c1 ->
       channel k (pixel_at g i' j') <= channel k (pixel_at g i j)).
Proof.
  intros G Bw Bh.
  destruct (gradient_pixel w h colors direction g G)
    as (s1 & s2 & rest & c1 & c2 & C & H1 & H2 & _ & P).
  exists s1, s2, rest, c1, c2.
  split; [exact C|]. split; [exact H1|]. split; [exact H2|].
  intros i j i' j' k Hi Hi' Hj Hj' N1 N2.
  destruct (P i j ltac:(lia) ltac:(lia)) as [_ E].
  destruct (P i' j' Hi' Hj') as [_ E'].
  rewrite E, E', !channel_blend_pixel.
  assert (R1 : 0 <= channel k c1 <= 255)
    by (pose proof (hex_to_rgba_one_range s1 c1 H1 k); lia).
  assert (R2 : 0 <= channel k c2 <= 255)
    by (pose proof (hex_to_rgba_one_range s2 c2 H2 k); lia).
  destruct (is_vertical direction); split; intros Hc;
    first [apply channel_monotone; assumption
          | apply channel_antitone; assumption].
Qed.

Lemma gradient_monotone_witness :
  create_gradient (3%nat, 2%nat) (Some ["#FF0000"; "#00FF00"]) None
  = Ok [[(255, 0, 0, 255); (170, 85, 0, 255); (85, 170, 0, 255)];
        [(255, 0, 0, 255); (170, 85, 0, 255); (85, 170, 0, 255)]] /\
  Z.of_nat 3 <= 2 ^ 38 /\ Z.of_nat 2 <= 2 ^ 38 /\
  85 <= 255 /\ 0 <= 170.
Proof.
  assert (G : create_gradient (3%nat, 2%nat) (Some ["#FF0000"; "#00FF00"]) None
              = Ok [[(255, 0, 0, 255); (170, 85, 0, 255); (85, 170, 0, 255)];
                    [(255, 0, 0, 255); (170, 85, 0, 255); (85, 170, 0, 255)]])
    by (vm_compute; reflexivity).
  assert (Bw : Z.of_nat 3 <= 2 ^ 38) by (vm_compute; discriminate).
  assert (Bh : Z.of_nat 2 <= 2 ^ 38) by (vm_compute; discriminate).
  split; [exact G|]. split; [exact Bw|]. split; [exact Bh|].
  destruct (gradient_monotone _ _ _ _ _ G Bw Bh)
    as (s1 & s2 & rest & c1 & c2 & C & H1 & H2 & P).
  injection C as <- <- <-.
  vm_compute in H1. vm_compute in H2.
  injection H1 as <-. injection H2 as <-.
  destruct (P 0%nat 0%nat 1%nat 2%nat 0%nat
              ltac:(lia) ltac:(lia) ltac:(lia) ltac:(lia)
              ltac:(cbn; lia) ltac:(cbn; lia)) as [_ A].
  destruct (P 0%nat 0%nat 1%nat 2%nat 1%nat
              ltac:(lia) ltac:(lia) ltac:(lia) ltac:(lia)
              ltac:(cbn; lia) ltac:(cbn; lia)) as [B _].
  cbn in A, B. split; [apply A; lia | apply B; lia].
Defined.

(** X7.  A vertical gradient has the same pixel all along each row and
    a horizontal one all along each column, and the horizontal gradient
    of a [h] by [w] target is the transpose of the vertical gradient of
    a [w] by [h] target between the same colours. *)
Theorem gradient_transpose
  (w h : nat) (colors : option (list string)) (dv dh : option string)
  (gv gh : raster) :
  is_vertical dv = true -> is_vertical dh = false ->
  create_gradient (w, h) colors dv = Ok gv ->
  create_gradient (h, w) colors dh = Ok gh ->
  forall i j, (i < h)%nat -> (j < w)%nat ->
    pixel_at gv i j = pixel_at gh j i /\
    (forall j', (j' < w)%nat -> pixel_at gv i j' = pixel_at gv i j) /\
    (forall j', (j' < w)%nat -> pixel_at gh j' i = pixel_at gh j i).
Proof.
  intros Vv Vh Gv Gh i j Hi Hj.
  destruct (gradient_pixel w h colors dv gv Gv)
    as (s1 & s2 & rest & c1 & c2 & C & H1 & H2 & _ & Pv).
  destruct (gradient_pixel h w colors dh gh Gh)
    as (s1' & s2' & rest' & c1' & c2' & C' & H1' & H2' & _ & Ph).
  rewrite C in C'. injection C' as <- <- <-.
  rewrite H1 in H1'. injection H1' as <-.
  rewrite H2 in H2'. injection H2' as <-.
  rewrite Vv in Pv. rewrite Vh in Ph.
  destruct (Pv i j Hi Hj) as [_ E]. destruct (Ph j i Hj Hi) as [_ E'].
  split; [rewrite E, E'; reflexivity|]. split.
  - intros j' Hj'. destruct (Pv i j' Hi Hj') as [_ ->]. rewrite E. reflexivity.
  - intros j' Hj'. destruct (Ph j' i Hj' Hi) as [_ ->]. rewrite E'. reflexivity.
Qed.

Lemma gradient_transpose_witness :
  is_vertical (Some "vertical") = true /\
  is_vertical (Some "horizontal") = false /\
  create_gradient (2%nat, 3%nat) (Some ["#000000"; "#FFFFFF"]) (Some "vertical")
  = Ok [[(0, 0, 0, 255); (0, 0, 0, 255)];
        [(85, 85, 85, 255); (85, 85, 85, 255)];
        [(170, 170, 170, 255); (170, 170, 170, 255)]] /\
  create_gradient (3%nat, 2%nat) (Some ["#000000"; "#FFFFFF"]) (Some "horizontal")
  = Ok [[(0, 0, 0, 255); (85, 85, 85, 255); (170, 170, 170, 255)];
        [(0, 0, 0, 255); (85, 85, 85, 255); (170, 170, 170, 255)]] /\
  (85, 85, 85, 255) = (85, 85, 85, 255).
Proof.
  assert (Gv : create_gradient (2%nat, 3%nat) (Some ["#000000"; "#FFFFFF"])
                 (Some "vertical")
               = Ok [[(0, 0, 0, 255); (0, 0, 0, 255)];
                     [(85, 85, 85, 255); (85, 85, 85, 255)];
                     [(170, 170, 170, 255); (170, 170, 170, 255)]])
    by (vm_compute; reflexivity).
  assert (Gh : create_gradient (3%nat, 2%nat) (Some ["#000000"; "#FFFFFF"])
                 (Some "horizontal")
               = Ok [[(0, 0, 0, 255); (85, 85, 85, 255); (170, 170, 170, 255)];
                     [(0, 0, 0, 255); (85, 85, 85, 255); (170, 170, 170, 255)]])
    by (vm_compute; reflexivity).
  split; [reflexivity|]. split; [reflexivity|].
  split; [exact Gv|]. split; [exact Gh|].
  exact (proj1 (gradient_transpose 2 3 (Some ["#000000"; "#FFFFFF"])
                  (Some "vertical") (Some "horizontal") _ _ eq_refl eq_refl
                  Gv Gh 1%nat 0%nat ltac:(lia) ltac:(lia))).
Defined.

(** At opacity 1.0 a conversion fails only with the [ValueError] of
    [int]. *)
Lemma hex_to_rgba_one_error s e :
  hex_to_rgba s F64.one = Raise e ->
  exists t, e = ValueError (invalid_literal t).
Proof.
  unfold hex_to_rgba, rbind. cbv zeta. rewrite full_alpha.
  destruct (int16_cases (substring 0 2 (lstrip "#" s))) as [[r ->] | ->];
    [| intros [= <-]; eauto].
  destruct (int16_cases (substring 2 2 (lstrip "#" s))) as [[g ->] | ->];
    [| intros [= <-]; eauto].
  destruct (int16_cases (substring 4 2 (lstrip "#" s))) as [[b ->] | ->];
    [| intros [= <-]; eauto].
  discriminate.
Qed.

(** X8.  When [create_gradient] fails: without a colour list it raises
    [TypeError]; with an empty list, [IndexError]; with one colour, the
    error of that colour's conversion or else [IndexError]; with two or
    more, the error of the first colour's conversion, or else that of
    the second, and otherwise it returns a gradient; the colours after
    the second are never read.  A conversion fails only with the
    [ValueError] of [int], so these three are the only exceptions. *)
Theorem create_gradient_errors (size : nat * nat) (direction : option string) :
  create_gradient size None direction = Raise TypeError /\
  create_gradient size (Some []) direction = Raise IndexError /\
  (forall s,
     create_gradient size (Some [s]) direction =
     match hex_to_rgba s F64.one with
     | Ok _ => Raise IndexError
     | Raise e => Raise e
     end) /\
  (forall s1 s2 rest,
     create_gradient size (Some (s1 :: s2 :: rest)) direction =
     create_gradient size (Some [s1; s2]) direction /\
     (forall e,
        hex_to_rgba s1 F64.one = Raise e ->
        create_gradient size (Some (s1 :: s2 :: rest)) direction = Raise e) /\
     (forall c1 e,
        hex_to_rgba s1 F64.one = Ok c1 ->
        hex_to_rgba s2 F64.one = Raise e ->
        create_gradient size (Some (s1 :: s2 :: rest)) direction = Raise e) /\
     (forall c1 c2,
        hex_to_rgba s1 F64.one = Ok c1 ->
        hex_to_rgba s2 F64.one = Ok c2 ->
        exists g,
          create_gradient size (Some (s1 :: s2 :: rest)) direction = Ok g) /\
     ((exists g, create_gradient size (Some (s1 :: s2 :: rest)) direction = Ok g)
      <-> (exists c1 c2, hex_to_rgba s1 F64.one = Ok c1 /\
                         hex_to_rgba s2 F64.one = Ok c2))) /\
  (forall colors e,
     create_gradient size colors direction = Raise e ->
     e = TypeError \/ e = IndexError \/
     exists t, e = ValueError (invalid_literal t)).
Proof.
  destruct size as [w h]. split; [reflexivity|]. split; [reflexivity|].
  split; [| split].
  - intros s. unfold create_gradient. cbn [index nth_error rbind].
    destruct (hex_to_rgba s F64.one); reflexivity.
  - intros s1 s2 rest. split; [reflexivity|].
    split; [| split; [| split; [| split]]].
    + intros e H1. unfold create_gradient. cbn [index nth_error rbind].
      rewrite H1. reflexivity.
    + intros c1 e H1 H2. unfold create_gradient. cbn [index nth_error rbind].
      rewrite H1. cbn [rbind]. rewrite H2. reflexivity.
    + intros c1 c2 H1 H2.
      rewrite (create_gradient_ok w h s1 s2 rest direction c1 c2 H1 H2). eauto.
    + intros [g G].
      destruct (create_gradient_colors _ _ _ _ G)
        as (t1 & t2 & r & c1 & c2 & C & H1 & H2).
      injection C as <- <- <-. eauto.
    + intros (c1 & c2 & H1 & H2).
      rewrite (create_gradient_ok w h s1 s2 rest direction c1 c2 H1 H2). eauto.
  - intros colors e. unfold create_gradient.
    destruct colors as [[| s1 [| s2 rest]] |]; cbn [index nth_error rbind].
    + intros [= <-]. auto.
    + destruct (hex_to_rgba s1 F64.one) as [c1 |] eqn:H1; cbn [rbind].
      * intros [= <-]. auto.
      * intros [= <-]. right. right. exact (hex_to_rgba_one_error _ _ H1).
    + destruct (hex_to_rgba s1 F64.one) as [c1 |] eqn:H1; cbn [rbind].
      * destruct (hex_to_rgba s2 F64.one) as [c2 |] eqn:H2; cbn [rbind].
        -- discriminate.
        -- intros [= <-]. right. right. exact (hex_to_rgba_one_error _ _ H2).
      * intros [= <-]. right. right. exact (hex_to_rgba_one_error _ _ H1).
    + intros [= <-]. auto.
Qed.

Lemma create_gradient_errors_witness :
  hex_to_rgba "#FF0000" F64.one = Ok (255, 0, 0, 255) /\
  hex_to_rgba "#00" F64.one =
  Raise (ValueError "invalid literal for int() with base 16: ''") /\
  create_gradient (2%nat, 2%nat) (Some ["#FF0000"; "#00"; "#0000FF"])
    (Some "vertical") =
  Raise (ValueError "invalid literal for int() with base 16: ''").
Proof.
  split; [reflexivity|]. split; [reflexivity|].
  destruct (create_gradient_errors (2%nat, 2%nat) (Some "vertical"))
    as (_ & _ & _ & H & _).
  destruct (H "#FF0000" "#00" ["#0000FF"]) as (_ & _ & K & _).
  exact (K (255, 0, 0, 255) _ eq_refl eq_refl).
Defined.

(** ** Render: validated styles *)

Lemma matches_hex_converts s o :
  matches_hex s = true ->
  F64.is_finite (F64.mul (F64.of_Z 255) o) = true ->
  exists c, hex_to_rgba s o = Ok c.
Proof.
  intros H M.
  assert (T : exists t, is_hex_color t = true /\
                        hex_to_rgba s o = hex_to_rgba t o).
  { apply matches_hex_iff in H. destruct H as [H | (t & H & ->)].
    - exists s. auto.
    - exists t. split; [exact H|].
      destruct (is_hex_color_digits t H)
        as (d1 & d2 & d3 & d4 & d5 & d6 & -> & D).
      cbn [forallb] in D. apply andb_prop in D. destruct D as [K _].
      cbn [append].
      etransitivity; [apply hex_to_rgba_first_six|].
      symmetry. etransitivity; [apply hex_to_rgba_first_six|].
      cbn [lstrip]. rewrite Ascii.eqb_refl. cbn [lstrip].
      rewrite (hex_digit_not_hash d1 K). reflexivity. }
  destruct T as (t & C & ->).
  destruct (is_hex_color_digits _ C) as (d1 & d2 & d3 & d4 & d5 & d6 & -> & D).
  destruct (hex_to_rgba_well_formed d1 d2 d3 d4 d5 d6 D) as (W & _).
  rewrite W.
  destruct (F64.mul (F64.of_Z 255) o); try discriminate M;
    cbn [F64.to_int]; eauto.
Qed.

Lemma create_gradient_empty size direction :
  create_gradient size (Some []) direction = Raise IndexError.
Proof. destruct size. reflexivity. Qed.

Lemma empty_colour_raises o :
  hex_to_rgba "" o =
  Raise (ValueError "invalid literal for int() with base 16: ''").
Proof. reflexivity. Qed.

Ltac failed_run kind :=
  let H := fresh "H" in
  let H' := fresh "H" in
  split;
  [split; [intros H; discriminate H
          | intros [H H']; first [discriminate H' | cbn in H; lia]]
  | intros _; split; [kind | reflexivity]].

Ltac returned_run :=
  let H := fresh "H" in
  split;
  [split; [intros _; split; [cbn [List.length]; lia | reflexivity]
          | reflexivity]
  | intros H; exfalso; apply H; reflexivity].

Ltac gradient_raised G kind :=
  idtac; first [discriminate G | injection G as ->; failed_run kind].

Ltac gradient_returned G :=
  idtac; first [discriminate G | returned_run].

(** X9.  A validated style and its rendering.  In a world where the font
    file exists and no library call fails, [render] of an accepted style
    returns normally exactly when the centre has at least two entries and
    the fill carries what its variant draws with (a solid fill a
    non-empty colour, a gradient fill two colours or more); otherwise it
    raises [IndexError], [AttributeError], [ValueError] or [TypeError]
    and saves nothing. *)
Theorem validated_style_renders
  (world : env) (image_path output_path text : string) (style : StyleModel.t)
  (r : result unit) (log : list call) :
  quiet world ->
  path_exists world (StyleModel.font_path style) = true ->
  StyleModel.accepts style = true ->
  F64.valid (StyleModel.opacity style) = true ->
  render world image_path output_path text style [] = (r, log) ->
  (r = Ok tt <->
   (2 <= List.length (StyleModel.center style))%nat /\
   fill_complete (StyleModel.fill style) = true) /\
  (r <> Ok tt ->
   (r = Raise IndexError \/ r = Raise AttributeError \/ r = Raise TypeError \/
    exists msg, r = Raise (ValueError msg)) /\
   existsb is_save log = false).
Proof.
  intros Q P A V.
  apply style_accepted in A.
  destruct A as (_ & Af & As & _ & _ & _ & _ & _ & _ & Ao0 & Ao1).
  apply fill_accepted in Af. destruct Af as (At & Ac & Acs & _).
  apply stroke_accepted in As. destruct As as [_ Ask].
  pose proof (mul_255_finite _ V Ao0 Ao1) as Mo.
  assert (M1 : F64.is_finite (F64.mul (F64.of_Z 255) F64.one) = true)
    by reflexivity.
  destruct (matches_hex_converts _ _ Ask M1) as [k Hk].
  unfold fill_complete.
  destruct (image_size world image_path) as [w h] eqn:Sz.
  destruct (StyleModel.center style) as [| cx [| cy rest]] eqn:Ec.
  1, 2: unfold render; rewrite Ec, Sz; cbn [index nth_error List.length];
    run_with ltac:(quiet_fin Q ltac:(failed_run ltac:(left; reflexivity))).
  unfold render, fill_pass, stroke_pass. rewrite Ec, Hk, Sz.
  cbn [index nth_error].
  destruct (String.eqb (FillModel.type (StyleModel.fill style)) "solid") eqn:T.
  - destruct (FillModel.color (StyleModel.fill style)) as [s |] eqn:C.
    + destruct (String.eqb s "") eqn:Es.
      * apply String.eqb_eq in Es. subst s. rewrite empty_colour_raises.
        run_with ltac:(quiet_fin Q ltac:(
          failed_run ltac:(right; right; right; eexists; reflexivity))).
      * unfold fill_color_ok in Ac. rewrite Es in Ac. cbn [orb] in Ac.
        destruct (matches_hex_converts _ _ Ac Mo) as [c Hc]. rewrite Hc.
        run_with ltac:(quiet_fin Q ltac:(returned_run)).
    + run_with ltac:(quiet_fin Q ltac:(
        failed_run ltac:(right; left; reflexivity))).
  - destruct (FillModel.colors (StyleModel.fill style)) as [[| s1 [| s2 more]] |]
      eqn:C.
    + pose proof (create_gradient_empty (w, h)
                    (FillModel.direction (StyleModel.fill style))) as G.
      run_with ltac:(quiet_fin Q ltac:(
        gradient_raised G ltac:(left; reflexivity))).
    + unfold fill_colors_ok in Acs. cbn [forallb] in Acs.
      apply andb_prop in Acs. destruct Acs as [A1 _].
      destruct (matches_hex_converts _ _ A1 M1) as [c1 H1].
      assert (G : create_gradient (w, h) (Some [s1])
                    (FillModel.direction (StyleModel.fill style))
                  = Raise IndexError).
      { unfold create_gradient. cbn [index nth_error rbind].
        rewrite H1. reflexivity. }
      run_with ltac:(quiet_fin Q ltac:(
        gradient_raised G ltac:(left; reflexivity))).
    + unfold fill_colors_ok in Acs. cbn [forallb] in Acs.
      apply andb_prop in Acs. destruct Acs as [A1 Acs].
      apply andb_prop in Acs. destruct Acs as [A2 _].
      destruct (matches_hex_converts _ _ A1 M1) as [c1 H1].
      destruct (matches_hex_converts _ _ A2 M1) as [c2 H2].
      pose proof (create_gradient_ok w h s1 s2 more
                    (FillModel.direction (StyleModel.fill style)) c1 c2 H1 H2)
        as G.
      run_with ltac:(quiet_fin Q ltac:(gradient_returned G)).
    + pose proof (create_gradient_no_colors (w, h)
                    (FillModel.direction (StyleModel.fill style))) as G.
      run_with ltac:(quiet_fin Q ltac:(
        gradient_raised G ltac:(right; right; left; reflexivity))).
Qed.

Lemma validated_style_renders_witness :
  quiet Sample.world /\
  path_exists Sample.world (StyleModel.font_path Sample.style) = true /\
  StyleModel.accepts Sample.style = true /\
  F64.valid (StyleModel.opacity Sample.style) = true /\
  (2 <= List.length (StyleModel.center Sample.style))%nat /\
  fill_complete (StyleModel.fill Sample.style) = true.
Proof.
  split; [exact sample_quiet|]. split; [reflexivity|].
  split; [reflexivity|]. split; [reflexivity|].
  destruct (validated_style_renders Sample.world "in.png" "out.png" "Hi"
              Sample.style _ _ sample_quiet eq_refl eq_refl eq_refl sample_run)
    as [H _].
  apply H. reflexivity.
Defined.

(** ** Render: what a run looks like *)

Ltac success_facts :=
  split; [reflexivity|];
  split; [repeat constructor; assumption|];
  split; [reflexivity|];
  match goal with
  | H : negb ?b = false |- ?b = true =>
      destruct b; [reflexivity | discriminate H]
  end.

Ltac success_fin :=
  let E := fresh "E" in
  intros E;
  first [discriminate E
        | injection E as <-;
          match goal with
          | |- exists pre, ?l = _ /\ _ =>
              let p := eval cbn [removelast] in (removelast (removelast l)) in
              exists p
          end;
          success_facts].

Lemma returned_run_log
  (world : env) (image_path output_path text : string) (style : StyleModel.t)
  (log : list call) :
  render world image_path output_path text style [] = (Ok tt, log) ->
  exists pre,
    log = pre ++ [Save output_path;
                  Print ["Rendered successfully →"; output_path]] /\
    Forall (fun c => raises world c = None) log /\
    existsb is_save pre = false /\
    path_exists world (StyleModel.font_path style) = true.
Proof.
  revert log. intros log. run_with success_fin.
Qed.

(** X10.  A normal return of [render] means the output was written: the
    run ends with the save to the output path followed by the message,
    nothing was saved before, every call issued succeeded, and the font
    file was there. *)
Theorem render_return_saved
  (world : env) (image_path output_path text : string) (style : StyleModel.t)
  (log : list call) :
  render world image_path output_path text style [] = (Ok tt, log) ->
  exists pre,
    log = pre ++ [Save output_path;
                  Print ["Rendered successfully →"; output_path]] /\
    Forall (fun c => raises world c = None) log /\
    existsb is_save pre = false /\
    path_exists world (StyleModel.font_path style) = true.
Proof.
  exact (returned_run_log world image_path output_path text style log).
Qed.

Lemma render_return_saved_witness :
  render Sample.world "in.png" "out.png" "Hi" Sample.style [] =
  (Ok tt, snd (render Sample.world "in.png" "out.png" "Hi" Sample.style [])) /\
  path_exists Sample.world (StyleModel.font_path Sample.style) = true.
Proof.
  split; [rewrite sample_run; reflexivity|].
  destruct (render_return_saved Sample.world "in.png" "out.png" "Hi"
              Sample.style _ sample_run) as (pre & _ & _ & _ & H).
  exact H.
Defined.

Lemma negb_true_false b : negb b = true -> b = false.
Proof. destruct b; [discriminate | reflexivity]. Qed.

Lemma negb_false_true b : negb b = false -> b = true.
Proof. destruct b; [reflexivity | discriminate]. Qed.

Ltac rotate_in H :=
  injection H as <-;
  split; [reflexivity|];
  first [apply negb_true_false; assumption | assumption].

Ltac rotate_returned :=
  let R := fresh "R" in
  intros R; first [discriminate R |
    split; intros ?;
    first [solve_in
          | apply negb_true_false; assumption
          | exfalso;
            match goal with
            | H : In _ _ |- _ => in_log H
            | H1 : negb ?b = false, H2 : ?b = false |- _ =>
                rewrite H2 in H1; discriminate H1
            end]].

Ltac rotation_fin :=
  let E := fresh "E" in
  let H := fresh "H" in
  intros E; injection E as <- <-;
  split; [intros ? H; in_log H; rotate_in H | rotate_returned].

(** X11.  Rotation.  [render] rotates only by the configured angle and
    only when it differs from zero (a zero of either sign rotates
    nothing); a run that returns normally has rotated exactly when the
    angle is not zero. *)
Theorem render_rotates_nonzero
  (world : env) (image_path output_path text : string) (style : StyleModel.t)
  (r : result unit) (log : list call) :
  render world image_path output_path text style [] = (r, log) ->
  (forall a, In (Rotate a) log ->
     a = StyleModel.rotation style /\
     F64.eqb (StyleModel.rotation style) F64.zero = false) /\
  (r = Ok tt ->
   (In (Rotate (StyleModel.rotation style)) log <->
    F64.eqb (StyleModel.rotation style) F64.zero = false)).
Proof.
  revert r log. intros r log. run_with rotation_fin.
Qed.

Lemma render_rotates_nonzero_witness :
  render Sample.world "in.png" "out.png" "Hi" Sample.style [] =
  (Ok tt, snd (render Sample.world "in.png" "out.png" "Hi" Sample.style [])) /\
  ~ In (Rotate (StyleModel.rotation Sample.style))
      (snd (render Sample.world "in.png" "out.png" "Hi" Sample.style [])).
Proof.
  split; [rewrite sample_run; reflexivity|].
  destruct (render_rotates_nonzero Sample.world "in.png" "out.png" "Hi"
              Sample.style _ _ sample_run) as [_ H].
  intros K. apply (proj1 (H eq_refl)) in K. discriminate K.
Defined.

Ltac text_in H :=
  first [injection H as <- <- <- <- <- <-; reflexivity
        | injection H as <- <-; split; reflexivity
        | injection H as <-; reflexivity].

Ltac text_fin :=
  let E := fresh "E" in
  intros E; injection E as <- <-;
  split; [intros ? H; in_log H; text_in H|];
  split; [intros ? H; in_log H; text_in H|];
  split; [intros ? ? H; in_log H; text_in H|];
  intros ? ? ? ? ? ? H; in_log H; text_in H.

(** X12.  One shaped text.  The reshaper is given the text as passed,
    the display reordering is given the reshaper's result, and that
    result is the text measured (at the origin) and the text of every
    drawing call, on the text layer and on the mask. *)
Theorem render_draws_shaped_text
  (world : env) (image_path output_path text : string) (style : StyleModel.t)
  (r : result unit) (log : list call) :
  render world image_path output_path text style [] = (r, log) ->
  (forall t, In (ArabicReshape t) log -> t = text) /\
  (forall t, In (GetDisplay t) log -> t = reshape world text) /\
  (forall xy t, In (Textbbox xy t) log ->
     xy = (0, 0) /\ t = get_display world (reshape world text)) /\
  (forall im xy t f sw sf, In (Text im xy t f sw sf) log ->
     t = get_display world (reshape world text)).
Proof.
  revert r log. intros r log. run_with text_fin.
Qed.

Ltac layer_in H :=
  first [injection H as <- <- <-;
         split; [reflexivity|];
         first [left; split; reflexivity
               | right; split; [reflexivity|]; split; [reflexivity|];
                 apply String.eqb_neq; assumption]
        | injection H as <- <-; split; reflexivity].

Ltac layer_fin :=
  let E := fresh "E" in
  intros E; injection E as <- <-;
  split; [intros ? ? H; in_log H; layer_in H|];
  split; [intros ? ? ? H; in_log H; layer_in H|];
  intros ? ? H; in_log H; layer_in H.

(** X13.  Layers and font.  Only the image at the image path is opened,
    as RGBA; every image created has the size of that image: the
    transparent RGBA text layer, and for a fill that is not solid the
    black mask; the font is loaded from the configured path at the
    configured size. *)
Theorem render_layers_match_image
  (world : env) (image_path output_path text : string) (style : StyleModel.t)
  (r : result unit) (log : list call) :
  render world image_path output_path text style [] = (r, log) ->
  (forall p mode, In (ImageOpen p mode) log ->
     p = image_path /\ mode = "RGBA") /\
  (forall mode size color, In (ImageNew mode size color) log ->
     size = image_size world image_path /\
     ((mode = "RGBA" /\ color = Color (0, 0, 0, 0)) \/
      (mode = "L" /\ color = Lum 0 /\
       FillModel.type (StyleModel.fill style) <> "solid"))) /\
  (forall p size, In (Truetype p size) log ->
     p = StyleModel.font_path style /\ size = StyleModel.font_size style).
Proof.
  revert r log. intros r log. run_with layer_fin.
Qed.

Lemma render_draws_shaped_text_witness :
  render Sample.world "in.png" "out.png" "Hi" Sample.style [] =
  (Ok tt, snd (render Sample.world "in.png" "out.png" "Hi" Sample.style [])) /\
  "Hi" = get_display Sample.world (reshape Sample.world "Hi").
Proof.
  split; [rewrite sample_run; reflexivity|].
  destruct (render_draws_shaped_text Sample.world "in.png" "out.png" "Hi"
              Sample.style _ _ sample_run) as (_ & _ & _ & H).
  apply (H TextLayer (9, 9) "Hi" None 2 (Some (16, 32, 48, 255))).
  cbn [In]. auto 20.
Defined.

Lemma render_layers_match_image_witness :
  render Sample.world "in.png" "out.png" "Hi" Sample.style [] =
  (Ok tt, snd (render Sample.world "in.png" "out.png" "Hi" Sample.style [])) /\
  (4%nat, 3%nat) = image_size Sample.world "in.png".
Proof.
  split; [rewrite sample_run; reflexivity|].
  destruct (render_layers_match_image Sample.world "in.png" "out.png" "Hi"
              Sample.style _ _ sample_run) as (_ & H & _).
  destruct (H "RGBA" (4%nat, 3%nat) (Color (0, 0, 0, 0))) as [K _].
  - cbn [In]. auto 20.
  - exact K.
Defined.

(** X14.  What [render] never reads: the three shadow and glow
    objects, the letter spacing and the line height.  Whatever they are
    replaced by, the run is the same, call for call. *)
Theorem render_ignores_effects
  (world : env) (image_path output_path text : string) (style : StyleModel.t)
  (shadow outer_glow inner_shadow : ShadowModel.t) (letter_spacing : Z)
  (line_height : float) (log : list call) :
  render world image_path output_path text
    (Update.shadow shadow
       (Update.outer_glow outer_glow
          (Update.inner_shadow inner_shadow
             (with_letter_spacing letter_spacing
                (Update.line_height line_height style))))) log =
  render world image_path output_path text style log.
Proof. reflexivity. Qed.

(** ** Validation: the letter spacing *)

(** X15.  From an accepted style, another letter spacing keeps the
    style accepted exactly when it lies in [0, 100]. *)
Theorem letter_spacing_range (m : StyleModel.t) (v : Z) :
  StyleModel.accepts m = true ->
  (StyleModel.accepts (with_letter_spacing v m) = true <-> 0 <= v <= 100).
Proof.
  intros Hm. rewrite style_accepted in Hm. rewrite style_accepted.
  unfold with_letter_spacing.
  cbn [StyleModel.font_size StyleModel.fill StyleModel.stroke StyleModel.shadow
       StyleModel.outer_glow StyleModel.inner_shadow StyleModel.letter_spacing
       StyleModel.line_height StyleModel.rotation StyleModel.opacity].
  tauto.
Qed.

Lemma letter_spacing_range_witness :
  StyleModel.accepts Sample.style = true /\
  StyleModel.accepts (with_letter_spacing 100 Sample.style) = true /\
  StyleModel.accepts (with_letter_spacing 101 Sample.style) = false.
Proof.
  split; [reflexivity|]. split.
  - apply (letter_spacing_range Sample.style 100 eq_refl). lia.
  - destruct (StyleModel.accepts (with_letter_spacing 101 Sample.style)) eqn:E;
      [| reflexivity].
    apply (letter_spacing_range Sample.style 101 eq_refl) in E. lia.
Defined.

(** ** The command line *)

Lemma appends_ret {A : Type} (a : A) : appends (ret a).
Proof. intros log. unfold ret. cbn. rewrite app_nil_r. reflexivity. Qed.

Lemma appends_lift {A : Type} (x : result A) : appends (lift x).
Proof. intros log. unfold lift. cbn. rewrite app_nil_r. reflexivity. Qed.

Lemma appends_perform {A : Type} w c (a : A) : appends (perform w c a).
Proof. intros log. unfold perform. destruct (raises w c); reflexivity. Qed.

Lemma appends_bind {A B : Type} (m : M A) (k : A -> M B) :
  appends m -> (forall a, appends (k a)) -> appends (bind m k).
Proof.
  intros Hm Hk log. unfold bind. rewrite (Hm log).
  destruct (m []) as [[a | e] l1]; cbn [fst snd].
  - rewrite (Hk a (log ++ l1)), (Hk a l1). cbn [fst snd].
    rewrite app_assoc. reflexivity.
  - reflexivity.
Qed.

Ltac appends_step :=
  first [apply appends_ret
        | apply appends_lift
        | apply appends_perform
        | apply appends_bind; [| intros ?]
        | match goal with
          | |- appends (if ?b then _ else _) => destruct b
          | |- appends (let '(_, _) := ?p in _) => destruct p
          end].

(** [render] only adds to the log. *)
Lemma render_appends world image_path output_path text style :
  appends (render world image_path output_path text style).
Proof.
  unfold render, fill_pass, stroke_pass, reshape_text. cbv zeta.
  repeat appends_step.
Qed.

Lemma print_errors_appends world errors : appends (print_errors world errors).
Proof.
  induction errors as [| error rest IH]; cbn [print_errors]; cbv zeta.
  - apply appends_ret.
  - apply appends_bind; [apply appends_perform | intros _; exact IH].
Qed.

Lemma print_errors_log world errors log :
  (forall args, raises world (Print args) = None) ->
  print_errors world errors log = (Ok tt, log ++ map error_message errors).
Proof.
  intros Q. revert log. induction errors as [| error rest IH]; intros log.
  - cbn. rewrite app_nil_r. reflexivity.
  - cbn [print_errors map]. cbv zeta. rewrite bind_perform, Q, IH.
    rewrite <- app_assoc. reflexivity.
Qed.

Lemma print_errors_only_prints world errors log r log' :
  print_errors world errors log = (r, log') ->
  Forall (fun c => is_check_or_print c = true) log ->
  Forall (fun c => is_check_or_print c = true) log'.
Proof.
  revert log. induction errors as [| error rest IH]; intros log.
  - cbn. intros E F. injection E as <- <-. exact F.
  - cbn [print_errors]. cbv zeta. rewrite bind_perform.
    destruct (raises world _).
    + intros E F. injection E as <- <-.
      apply Forall_app. split; [exact F | repeat constructor].
    + intros E F. apply (IH _ E).
      apply Forall_app. split; [exact F | repeat constructor].
Qed.

Lemma print_validation_error_only_prints world errors log r log' :
  print_validation_error world errors log = (r, log') ->
  Forall (fun c => is_check_or_print c = true) log ->
  Forall (fun c => is_check_or_print c = true) log'.
Proof.
  unfold print_validation_error. rewrite bind_perform.
  destruct (raises world _).
  { intros E F. injection E as <- <-.
    apply Forall_app. split; [exact F | repeat constructor]. }
  unfold bind at 1.
  destruct (print_errors world errors _) as [[[] | e] l1] eqn:P.
  - unfold perform. intros E F.
    assert (F1 : Forall (fun c => is_check_or_print c = true) l1).
    { apply (print_errors_only_prints _ _ _ _ _ P).
      apply Forall_app. split; [exact F | repeat constructor]. }
    destruct (raises world _); injection E as <- <-;
      (apply Forall_app; split; [exact F1 | repeat constructor]).
  - intros E F. injection E as <- <-.
    apply (print_errors_only_prints _ _ _ _ _ P).
    apply Forall_app. split; [exact F | repeat constructor].
Qed.

Lemma print_errors_returned world errors log log' :
  print_errors world errors log = (Ok tt, log') ->
  Forall (fun c => raises world c = None) (map error_message errors) /\
  log' = log ++ map error_message errors.
Proof.
  revert log. induction errors as [| error rest IH]; intros log;
    cbn [print_errors map]; cbv zeta.
  - intros [= <-]. rewrite app_nil_r. auto.
  - rewrite bind_perform.
    destruct (raises world _) as [e' |] eqn:R; [discriminate|].
    intros H. destruct (IH _ H) as [F ->].
    split; [constructor; [exact R | exact F]|].
    rewrite <- app_assoc. reflexivity.
Qed.

(** A failing report of the entries stops at the first line whose
    [print] raises. *)
Lemma print_errors_raised world errors log e log' :
  print_errors world errors log = (Raise e, log') ->
  exists before p after,
    map error_message errors = before ++ Print p :: after /\
    Forall (fun c => raises world c = None) before /\
    raises world (Print p) = Some e /\
    log' = log ++ before ++ [Print p].
Proof.
  revert log. induction errors as [| error rest IH]; intros log;
    cbn [print_errors map]; cbv zeta.
  - discriminate.
  - rewrite bind_perform.
    destruct (raises world _) as [e' |] eqn:R.
    + intros [= <- <-].
      exists [], [("• " ++ join " → " (line_loc error) ++ ": "
                    ++ line_msg error)%string], (map error_message rest).
      split; [reflexivity|]. split; [constructor|].
      split; [exact R | reflexivity].
    + intros H. destruct (IH _ H) as (before & p & after & M & F & P & ->).
      exists (error_message error :: before), p, after.
      split; [rewrite M; reflexivity|].
      split; [constructor; [exact R | exact F]|].
      split; [exact P|]. rewrite <- app_assoc. reflexivity.
Qed.

(** A failing [print_validation_error] has printed its lines in order up
    to the one whose [print] raises. *)
Lemma print_validation_error_raised world errors log e log' :
  print_validation_error world errors log = (Raise e, log') ->
  exists before p after,
    [Print [(nl ++ "❌ Style configuration error:" ++ nl)%string]] ++
    map error_message errors ++
    [Print [(nl ++ "Please fix style.json and try again." ++ nl)%string]]
    = before ++ Print p :: after /\
    Forall (fun c => raises world c = None) before /\
    raises world (Print p) = Some e /\
    log' = log ++ before ++ [Print p].
Proof.
  unfold print_validation_error. rewrite bind_perform.
  destruct (raises world _) as [e' |] eqn:R.
  { intros [= <- <-]. do 3 eexists.
    split; [rewrite app_nil_l; reflexivity|].
    split; [constructor|]. split; [exact R | reflexivity]. }
  unfold bind at 1.
  destruct (print_errors world errors _) as [[[] | e'] l1] eqn:P.
  - destruct (print_errors_returned _ _ _ _ P) as [F ->].
    unfold perform.
    destruct (raises world (Print [(nl ++ "Please fix style.json and try again." ++ nl)%string]))
      as [e' |] eqn:R'; [| discriminate].
    intros [= <- <-].
    exists ([Print [(nl ++ "❌ Style configuration error:" ++ nl)%string]] ++
            map error_message errors),
      [(nl ++ "Please fix style.json and try again." ++ nl)%string], [].
    split; [rewrite <- app_assoc; reflexivity|].
    split; [constructor; [exact R | exact F]|].
    split; [exact R'|]. rewrite <- !app_assoc. reflexivity.
  - intros [= <- <-].
    destruct (print_errors_raised _ _ _ _ _ P)
      as (before & p & after & M & F & Q & ->).
    exists (Print [(nl ++ "❌ Style configuration error:" ++ nl)%string] :: before),
      p, (after ++ [Print [(nl ++ "Please fix style.json and try again." ++ nl)%string]]).
    split; [rewrite M; cbn [app]; rewrite <- app_assoc; reflexivity|].
    split; [constructor; [exact R | exact F]|].
    split; [exact Q|]. rewrite <- !app_assoc. reflexivity.
Qed.

Lemma construct_model sh d m :
  construct sh d = inr m -> d = Typed m /\ StyleModel.accepts m = true.
Proof.
  unfold construct, StyleModel.accepts. destruct d as [m' | errors];
    [| discriminate].
  destruct (StyleModel.validate m') eqn:V; [| discriminate].
  intros E. injection E as <-. rewrite V. split; reflexivity.
Qed.

(** The [try] block of [main]: either it stops before [render] and has
    issued existence checks and prints only, or it has run [render] on a
    model the validation accepted, after both files were found. *)
Lemma main_body_run sh args r log :
  main_body sh args [] = (r, log) ->
  (Forall (fun c => is_check_or_print c = true) log /\
   (r = Ok (Some (Exit 1)) \/
    (exists errors, r = Ok (Some (Invalid errors))) \/
    (exists e, r = Raise e))) \/
  (exists m rr rl,
     path_exists (lib sh) (arg_image args) = true /\
     path_exists (lib sh) (arg_style args) = true /\
     load sh (arg_style args) = Ok (Typed m) /\
     StyleModel.accepts m = true /\
     render (lib sh) (arg_image args) (arg_output args) (arg_text args) m []
     = (rr, rl) /\
     log = [PathExists (arg_image args); PathExists (arg_style args)] ++ rl /\
     r = match rr with Ok _ => Ok None | Raise e => Raise e end).
Proof.
  unfold main_body. rewrite bind_perform.
  destruct (raises (lib sh) (PathExists (arg_image args))) as [e |].
  { intros E. injection E as <- <-. left.
    split; [repeat constructor | right; right; eauto]. }
  cbn [app].
  destruct (path_exists (lib sh) (arg_image args)) eqn:Pi; cbn [negb].
  2:{ rewrite bind_perform. destruct (raises (lib sh) (Print _)) as [e |];
        intros E; injection E as <- <-; left;
        (split; [repeat constructor|]); [right; right; eauto | left; reflexivity]. }
  rewrite bind_perform.
  destruct (raises (lib sh) (PathExists (arg_style args))) as [e |].
  { intros E. injection E as <- <-. left.
    split; [repeat constructor | right; right; eauto]. }
  cbn [app].
  destruct (path_exists (lib sh) (arg_style args)) eqn:Ps; cbn [negb].
  2:{ rewrite bind_perform. destruct (raises (lib sh) (Print _)) as [e |];
        intros E; injection E as <- <-; left;
        (split; [repeat constructor|]); [right; right; eauto | left; reflexivity]. }
  rewrite bind_lift.
  destruct (load sh (arg_style args)) as [d | e] eqn:L.
  2:{ intros E. injection E as <- <-. left.
      split; [repeat constructor | right; right; eauto]. }
  destruct (construct sh d) as [errors | m] eqn:C.
  { intros E. injection E as <- <-. left.
    split; [repeat constructor | right; left; eauto]. }
  apply construct_model in C. destruct C as [-> A].
  unfold bind.
  rewrite (render_appends (lib sh) (arg_image args) (arg_output args)
             (arg_text args) m
             [PathExists (arg_image args); PathExists (arg_style args)]).
  destruct (render (lib sh) (arg_image args) (arg_output args) (arg_text args)
              m []) as [rr rl] eqn:R.
  cbn [fst snd]. intros E. right. exists m, rr, rl.
  destruct rr as [[] | e]; injection E as <- <-; auto 10.
Qed.

Lemma only_prints_excludes log c :
  Forall (fun c => is_check_or_print c = true) log ->
  In c log -> is_check_or_print c = false -> False.
Proof.
  intros F I N. rewrite Forall_forall in F. rewrite (F c I) in N.
  discriminate N.
Qed.

(** X16.  [main] starts [render] only on a validated style.  Any call
    of a run of [main] other than an existence check or a print (opening
    the image, loading the font, drawing, saving) means that the command
    line was parsed, the image and the style file were both found, and the
    style file held a document that the validation accepted. *)
Theorem main_renders_validated_only
  (sh : shell) (result : outcome) (log : list call) :
  main sh = (result, log) ->
  forall c, In c log -> is_check_or_print c = false ->
  exists args m,
    parse_args sh = inl args /\
    path_exists (lib sh) (arg_image args) = true /\
    path_exists (lib sh) (arg_style args) = true /\
    load sh (arg_style args) = Ok (Typed m) /\
    StyleModel.accepts m = true.
Proof.
  unfold main. destruct (parse_args sh) as [args | status].
  2:{ intros E. injection E as <- <-. intros c []. }
  destruct (main_body sh args []) as [r l] eqn:B.
  apply main_body_run in B.
  destruct B as [[F K] | (m & rr & rl & Pi & Ps & L & A & _)].
  - intros E c I N. exfalso.
    destruct K as [-> | [[errors ->] | [e ->]]].
    + injection E as <- <-. exact (only_prints_excludes _ _ F I N).
    + destruct (print_validation_error (lib sh) errors l) as [[[] | e] l'] eqn:P;
        injection E as <- <-;
        exact (only_prints_excludes _ _
                 (print_validation_error_only_prints _ _ _ _ _ P F) I N).
    + unfold perform in E.
      destruct (raises (lib sh) _); injection E as <- <-;
        (apply (only_prints_excludes (l ++ [Print [(nl ++ "❌ Unexpected error:")%string; str sh e]]) c);
         [apply Forall_app; split; [exact F | repeat constructor]
         | exact I | exact N]).
  - intros _ c _ _. exists args, m. auto.
Qed.

Lemma sample_main :
  main sample_shell =
  (Returned,
   [PathExists "in.png"; PathExists "style.json";
    PathExists "font.ttf"; ImageOpen "in.png" "RGBA";
    ImageNew "RGBA" (4%nat, 3%nat) (Color (0, 0, 0, 0));
    Draw TextLayer; Truetype "font.ttf" 48;
    ArabicReshape "Hi"; GetDisplay "Hi"; Textbbox (0, 0) "Hi";
    Text TextLayer (9, 9) "Hi" (Some (Color (255, 0, 170, 127))) 0 None;
    Text TextLayer (9, 9) "Hi" None 2 (Some (16, 32, 48, 255));
    AlphaComposite; Save "out.png";
    Print ["Rendered successfully →"; "out.png"]]).
Proof. vm_compute. reflexivity. Defined.

Lemma main_renders_validated_only_witness :
  main sample_shell = (Returned, snd (main sample_shell)) /\
  In (Save "out.png") (snd (main sample_shell)) /\
  is_check_or_print (Save "out.png") = false /\
  exists args m,
    parse_args sample_shell = inl args /\
    path_exists (lib sample_shell) (arg_image args) = true /\
    path_exists (lib sample_shell) (arg_style args) = true /\
    load sample_shell (arg_style args) = Ok (Typed m) /\
    StyleModel.accepts m = true.
Proof.
  assert (I : In (Save "out.png") (snd (main sample_shell))).
  { rewrite sample_main. cbn [snd In]. auto 20. }
  split; [rewrite sample_main; reflexivity|].
  split; [exact I|]. split; [reflexivity|].
  apply (main_renders_validated_only sample_shell Returned
           (snd (main sample_shell))
           ltac:(rewrite sample_main; reflexivity) (Save "out.png") I eq_refl).
Defined.

(** X17.  How [main] ends.  It returns only after [render] has returned
    on a validated style, so with the output saved; the process exits
    with status 1, or with the status of the argument parser when that
    one exits; and an exception leaves [main] only from a [print] of one
    of its two handlers: the [try] block has ended with an exception [e0]
    and the report of the unexpected error, with the text of [e0], raised;
    or the [try] block has ended with a validation error and one of the
    lines of its report raised, the lines before it having been printed.
    That print is the last call of the run. *)
Theorem main_exit_status (sh : shell) (result : outcome) (log : list call) :
  main sh = (result, log) ->
  (result = Returned ->
   exists args m pre,
     parse_args sh = inl args /\
     load sh (arg_style args) = Ok (Typed m) /\
     StyleModel.accepts m = true /\
     log = [PathExists (arg_image args); PathExists (arg_style args)] ++
           pre ++ [Save (arg_output args);
                   Print ["Rendered successfully →"; arg_output args]] /\
     existsb is_save pre = false) /\
  (forall status, result = Exited status ->
     status = 1 \/ parse_args sh = inr status) /\
  (forall e, result = Uncaught e ->
     exists args tried before p,
       parse_args sh = inl args /\
       log = tried ++ before ++ [Print p] /\
       Forall (fun c => raises (lib sh) c = None) before /\
       raises (lib sh) (Print p) = Some e /\
       ((exists e0,
           main_body sh args [] = (Raise e0, tried) /\
           before = [] /\
           p = [(nl ++ "❌ Unexpected error:")%string; str sh e0]) \/
        (exists errors after,
           main_body sh args [] = (Ok (Some (Invalid errors)), tried) /\
           [Print [(nl ++ "❌ Style configuration error:" ++ nl)%string]] ++
           map error_message errors ++
           [Print [(nl ++ "Please fix style.json and try again." ++ nl)%string]]
           = before ++ Print p :: after))).
Proof.
  unfold main. destruct (parse_args sh) as [args | status] eqn:PA.
  2:{ intros E. injection E as <- <-.
      split; [intros H; discriminate H|].
      split; [intros s H; injection H as <-; right; reflexivity
             | intros e H; discriminate H]. }
  destruct (main_body sh args []) as [r l] eqn:B.
  pose proof B as B'. apply main_body_run in B.
  assert (H1 : forall e0 res lg,
             main_body sh args [] = (Raise e0, l) ->
             match perform (lib sh)
                     (Print [(nl ++ "❌ Unexpected error:")%string; str sh e0])
                     tt l with
             | (Ok _, log') => (Exited 1, log')
             | (Raise e', log') => (Uncaught e', log')
             end = (res, lg) ->
             res <> Returned /\
             (forall status, res = Exited status -> status = 1) /\
             (forall e, res = Uncaught e ->
                exists (args0 : arguments) tried before p,
                  inl args = @inl arguments Z args0 /\
                  lg = tried ++ before ++ [Print p] /\
                  Forall (fun c => raises (lib sh) c = None) before /\
                  raises (lib sh) (Print p) = Some e /\
                  ((exists e1,
                      main_body sh args0 [] = (Raise e1, tried) /\
                      before = [] /\
                      p = [(nl ++ "❌ Unexpected error:")%string; str sh e1]) \/
                   (exists errors after,
                      main_body sh args0 [] = (Ok (Some (Invalid errors)), tried) /\
                      [Print [(nl ++ "❌ Style configuration error:" ++ nl)%string]] ++
                      map error_message errors ++
                      [Print [(nl ++ "Please fix style.json and try again." ++ nl)%string]]
                      = before ++ Print p :: after)))).
  { intros e0 res lg Hb. unfold perform.
    destruct (raises (lib sh) _) as [e' |] eqn:R; intros E;
      injection E as <- <-.
    - split; [discriminate|]. split; [intros s H; discriminate H|].
      intros e H. injection H as <-.
      exists args, l, [], [(nl ++ "❌ Unexpected error:")%string; str sh e0].
      split; [reflexivity|]. split; [reflexivity|]. split; [constructor|].
      split; [exact R|]. left. exists e0. auto.
    - split; [discriminate|].
      split; [intros s H; injection H as <-; reflexivity|].
      intros e H. discriminate H. }
  destruct B as [[F K] | (m & rr & rl & Pi & Ps & L & A & R & -> & ->)].
  - destruct K as [-> | [[errors ->] | [e ->]]].
    + intros E. injection E as <- <-.
      split; [intros H; discriminate H|].
      split; [intros s H; injection H as <-; left; reflexivity
             | intros e H; discriminate H].
    + destruct (print_validation_error (lib sh) errors l) as [[[] | e] l'] eqn:P;
        intros E; injection E as <- <-.
      * split; [intros H; discriminate H|].
        split; [intros s H; injection H as <-; left; reflexivity
               | intros e H; discriminate H].
      * split; [intros H; discriminate H|].
        split; [intros s H; discriminate H|].
        intros e0 H. injection H as <-.
        destruct (print_validation_error_raised _ _ _ _ _ P)
          as (before & p & after & M & Fb & Q & ->).
        exists args, l, before, p.
        split; [reflexivity|]. split; [reflexivity|]. split; [exact Fb|].
        split; [exact Q|]. right. exists errors, after. auto.
    + intros E. destruct (H1 _ _ _ B' E) as (N & S & U).
      split; [intros H; contradiction|].
      split; [intros s H; left; exact (S s H) | exact U].
  - destruct rr as [[] | e].
    + intros E. injection E as <- <-.
      split; [| split; [intros s H; discriminate H | intros e H; discriminate H]].
      intros _.
      destruct (returned_run_log _ _ _ _ _ _ R) as (pre & -> & _ & S & _).
      exists args, m, pre. auto.
    + intros E. destruct (H1 _ _ _ B' E) as (N & S & U).
      split; [intros H; contradiction|].
      split; [intros s H; left; exact (S s H) | exact U].
Qed.

Lemma main_exit_status_witness :
  main sample_shell = (Returned, snd (main sample_shell)) /\
  (exists args m pre,
     parse_args sample_shell = inl args /\
     load sample_shell (arg_style args) = Ok (Typed m) /\
     StyleModel.accepts m = true /\
     snd (main sample_shell) =
       [PathExists (arg_image args); PathExists (arg_style args)] ++
       pre ++ [Save (arg_output args);
               Print ["Rendered successfully →"; arg_output args]] /\
     existsb is_save pre = false) /\
  main sample_shell_silent =
  (Uncaught (LibraryError "UnicodeEncodeError"),
   snd (main sample_shell_silent)) /\
  (exists tried,
     snd (main sample_shell_silent) =
     tried ++ [Print [(nl ++ "❌ Unexpected error:")%string; "error"]]).
Proof.
  split; [rewrite sample_main; reflexivity|].
  split.
  - destruct (main_exit_status sample_shell Returned (snd (main sample_shell))
                ltac:(rewrite sample_main; reflexivity)) as [H _].
    exact (H eq_refl).
  - assert (E : main sample_shell_silent =
                (Uncaught (LibraryError "UnicodeEncodeError"),
                 snd (main sample_shell_silent)))
      by (vm_compute; reflexivity).
    split; [exact E|].
    destruct (main_exit_status sample_shell_silent _ _ E) as (_ & _ & H).
    destruct (H _ eq_refl)
      as (args & tried & before & p & PA & L & _ & _
          & [(e0 & _ & -> & ->) | (errors & after & B & _)]).
    + exists tried. exact L.
    + injection PA as <-. vm_compute in B. discriminate B.
Defined.

(** X18.  A style that fails the validation is reported and nothing is
    rendered.  When both files exist, the style file loads and the
    construction of the model fails, [main] prints the heading, one line
    per entry of the validation error in the order of the entries, and
    the closing advice, then exits with status 1; it issues no other
    call. *)
Theorem main_reports_invalid_style
  (sh : shell) (args : arguments) (d : document) (errors : list error_line) :
  quiet (lib sh) ->
  parse_args sh = inl args ->
  path_exists (lib sh) (arg_image args) = true ->
  path_exists (lib sh) (arg_style args) = true ->
  load sh (arg_style args) = Ok d ->
  construct sh d = inl errors ->
  main sh =
  (Exited 1,
   [PathExists (arg_image args); PathExists (arg_style args);
    Print [(nl ++ "❌ Style configuration error:" ++ nl)%string]] ++
   map error_message errors ++
   [Print [(nl ++ "Please fix style.json and try again." ++ nl)%string]]).
Proof.
  intros Q A Pi Ps L C. unfold main, main_body. rewrite A.
  rewrite bind_perform, Q, Pi. cbn [negb app].
  rewrite bind_perform, Q, Ps. cbn [negb app].
  rewrite bind_lift, L, C. unfold ret.
  unfold print_validation_error. rewrite bind_perform, Q.
  unfold bind. rewrite print_errors_log by (intros a; apply Q).
  unfold perform. rewrite Q. cbn [app]. reflexivity.
Qed.

Lemma main_reports_invalid_style_witness :
  main (sample_shell_with (fun _ => true)
          (Ok (Typed (with_letter_spacing 101 Sample.style)))) =
  (Exited 1,
   [PathExists "in.png"; PathExists "style.json";
    Print [(nl ++ "❌ Style configuration error:" ++ nl)%string];
    Print ["• letter_spacing: Input should be valid"];
    Print [(nl ++ "Please fix style.json and try again." ++ nl)%string]]).
Proof.
  apply (main_reports_invalid_style
           (sample_shell_with (fun _ => true)
              (Ok (Typed (with_letter_spacing 101 Sample.style))))
           sample_arguments
           (Typed (with_letter_spacing 101 Sample.style))
           [{| line_loc := ["letter_spacing"];
               line_msg := "Input should be valid" |}]);
    first [reflexivity | intros c; reflexivity].
Defined.

(** X19.  The files are looked for in order.  With a missing image,
    [main] says so and exits with status 1 without looking for the style
    file; with the image there and the style file missing, it says so and
    exits with status 1 without opening either file. *)
Theorem main_missing_files (sh : shell) (args : arguments) :
  quiet (lib sh) ->
  parse_args sh = inl args ->
  (path_exists (lib sh) (arg_image args) = false ->
   main sh =
   (Exited 1,
    [PathExists (arg_image args); Print ["❌ Image file not found."]])) /\
  (path_exists (lib sh) (arg_image args) = true ->
   path_exists (lib sh) (arg_style args) = false ->
   main sh =
   (Exited 1,
    [PathExists (arg_image args); PathExists (arg_style args);
     Print ["❌ Style JSON file not found."]])).
Proof.
  intros Q A. unfold main, main_body. rewrite A. split.
  - intros Pi. rewrite bind_perform, Q, Pi. cbn [negb app].
    rewrite bind_perform, Q. reflexivity.
  - intros Pi Ps. rewrite bind_perform, Q, Pi. cbn [negb app].
    rewrite bind_perform, Q, Ps. cbn [negb app].
    rewrite bind_perform, Q. reflexivity.
Qed.

Lemma main_missing_files_witness :
  main (sample_shell_with (fun _ => false) (Ok (Typed Sample.style))) =
  (Exited 1, [PathExists "in.png"; Print ["❌ Image file not found."]]) /\
  main (sample_shell_with (String.eqb "in.png") (Ok (Typed Sample.style))) =
  (Exited 1,
   [PathExists "in.png"; PathExists "style.json";
    Print ["❌ Style JSON file not found."]]).
Proof.
  split.
  - apply (main_missing_files
             (sample_shell_with (fun _ => false) (Ok (Typed Sample.style)))
             sample_arguments);
      first [reflexivity | intros c; reflexivity].
  - apply (main_missing_files
             (sample_shell_with (String.eqb "in.png")
                (Ok (Typed Sample.style)))
             sample_arguments);
      first [reflexivity | intros c; reflexivity].
Defined.

(** X20.  Failures past the file checks are reported as unexpected
    errors.  With both files found: when loading the style file raises,
    [main] prints the exception under the heading of unexpected errors
    and exits with status 1; when the style is accepted and its font
    file is missing, the run consists of the three existence checks and
    the report of [FileNotFoundError], with exit status 1, and the image
    is never opened. *)
Theorem main_reports_failure (sh : shell) (args : arguments) :
  quiet (lib sh) ->
  parse_args sh = inl args ->
  path_exists (lib sh) (arg_image args) = true ->
  path_exists (lib sh) (arg_style args) = true ->
  (forall e,
     load sh (arg_style args) = Raise e ->
     main sh =
     (Exited 1,
      [PathExists (arg_image args); PathExists (arg_style args);
       Print [(nl ++ "❌ Unexpected error:")%string; str sh e]])) /\
  (forall m,
     load sh (arg_style args) = Ok (Typed m) ->
     StyleModel.accepts m = true ->
     path_exists (lib sh) (StyleModel.font_path m) = false ->
     main sh =
     (Exited 1,
      [PathExists (arg_image args); PathExists (arg_style args);
       PathExists (StyleModel.font_path m);
       Print [(nl ++ "❌ Unexpected error:")%string;
              str sh (FileNotFoundError "Font file not found")]])).
Proof.
  intros Q A Pi Ps. unfold main, main_body. rewrite A. split.
  - intros e L.
    rewrite bind_perform, Q, Pi. cbn [negb app].
    rewrite bind_perform, Q, Ps. cbn [negb app].
    rewrite bind_lift, L. unfold perform. rewrite Q. reflexivity.
  - intros m L Acc Pf.
    rewrite bind_perform, Q, Pi. cbn [negb app].
    rewrite bind_perform, Q, Ps. cbn [negb app].
    rewrite bind_lift, L. unfold construct.
    unfold StyleModel.accepts in Acc.
    destruct (StyleModel.validate m); [| discriminate Acc].
    unfold bind.
    rewrite (render_appends (lib sh) (arg_image args) (arg_output args)
               (arg_text args) m
               [PathExists (arg_image args); PathExists (arg_style args)]).
    rewrite (missing_font_stops (lib sh) _ _ _ m (Q _) Pf).
    cbn [fst snd app]. unfold perform. rewrite Q. reflexivity.
Qed.

Lemma main_reports_failure_witness :
  main (sample_shell_with (fun _ => true)
          (Raise (FileNotFoundError "style.json"))) =
  (Exited 1,
   [PathExists "in.png"; PathExists "style.json";
    Print [(nl ++ "❌ Unexpected error:")%string; "error"]]) /\
  main (sample_shell_with (fun p => negb (String.eqb p "font.ttf"))
          (Ok (Typed Sample.style))) =
  (Exited 1,
   [PathExists "in.png"; PathExists "style.json"; PathExists "font.ttf";
    Print [(nl ++ "❌ Unexpected error:")%string; "error"]]).
Proof.
  split.
  - apply (proj1 (main_reports_failure
             (sample_shell_with (fun _ => true)
                (Raise (FileNotFoundError "style.json")))
             sample_arguments
             ltac:(intros c; reflexivity) eq_refl eq_refl eq_refl)
             (FileNotFoundError "style.json") eq_refl).
  - apply (proj2 (main_reports_failure
             (sample_shell_with (fun p => negb (String.eqb p "font.ttf"))
                (Ok (Typed Sample.style)))
             sample_arguments
             ltac:(intros c; reflexivity) eq_refl eq_refl eq_refl)
             Sample.style eq_refl eq_refl eq_refl).
Defined.
